(** * set: type classification cache and value wrapper

    A shallow embedding of the Go package [set], of type_info.go and of the
    file that declares [Value]: the reflection layer the package relies on,
    the type classification cache, the [Value] wrapper with its capability
    slots, and the statements of the package's specification settled
    against that code. *)

From Stdlib Require Import ZArith QArith Lia Ascii String.
From stdpp Require Import base list strings.

Set Warnings "-register-all".

Local Open Scope Z_scope.
Local Open Scope string_scope.
Local Open Scope list_scope.

(** ** The part of package [reflect] the code uses *)

Module reflect.

(** [reflect.Kind], in the order of the Go declaration. *)
Inductive Kind : Set :=
| Invalid | Bool
| Int | Int8 | Int16 | Int32 | Int64
| Uint | Uint8 | Uint16 | Uint32 | Uint64 | Uintptr
| Float32 | Float64 | Complex64 | Complex128
| Array | Chan | Func | Interface | Map | Ptr | Slice | String | Struct
| UnsafePointer.

#[global] Instance Kind_eq_dec : EqDecision Kind.
Proof. solve_decision. Defined.

(** [reflect.StructTag]: the key/value pairs of a field's tag. *)
Definition StructTag := list (string * string).

(** [reflect.StructField], over the representation of types. A field is
    exported exactly when its [PkgPath] is empty. *)
Record StructField_ (T : Type) : Type := mkField {
  Name : string;
  PkgPath : string;
  Typ : T;
  Tag : StructTag
}.
Arguments mkField {T} _ _ _ _.
Arguments Name {T} _.
Arguments PkgPath {T} _.
Arguments Typ {T} _.
Arguments Tag {T} _.

(** The predeclared types without an element type. *)
Inductive basic : Set :=
| TBool
| TInt | TInt8 | TInt16 | TInt32 | TInt64
| TUint | TUint8 | TUint16 | TUint32 | TUint64 | TUintptr
| TFloat32 | TFloat64 | TComplex64 | TComplex128
| TString | TUnsafePointer.

#[global] Instance basic_eq_dec : EqDecision basic.
Proof. solve_decision. Defined.

Definition basicKind (b : basic) : Kind :=
  match b with
  | TBool => Bool
  | TInt => Int | TInt8 => Int8 | TInt16 => Int16 | TInt32 => Int32 | TInt64 => Int64
  | TUint => Uint | TUint8 => Uint8 | TUint16 => Uint16 | TUint32 => Uint32
  | TUint64 => Uint64 | TUintptr => Uintptr
  | TFloat32 => Float32 | TFloat64 => Float64
  | TComplex64 => Complex64 | TComplex128 => Complex128
  | TString => String | TUnsafePointer => UnsafePointer
  end.

(** [reflect.Type]. Named non-struct types, method sets, channel
    directions and function signatures are left out: the only interface
    type is the empty one, and two types are identical exactly when they
    are equal terms. *)
Inductive type : Type :=
| Basic (b : basic)
| PtrTo (t : type)
| SliceOf (t : type)
| ArrayOf (n : nat) (t : type)
| MapOf (k v : type)
| ChanOf (t : type)
| FuncT
| InterfaceT
| StructOf (fs : list (StructField_ type)).

Definition StructField := StructField_ type.

(** [Type.Kind()]. *)
Definition KindOf (T : type) : Kind :=
  match T with
  | Basic b => basicKind b
  | PtrTo _ => Ptr
  | SliceOf _ => Slice
  | ArrayOf _ _ => Array
  | MapOf _ _ => Map
  | ChanOf _ => Chan
  | FuncT => Func
  | InterfaceT => Interface
  | StructOf _ => Struct
  end.

(** [Type.Elem()]: defined on array, chan, map, pointer and slice types;
    [None] stands for the panic of the other kinds. *)
Definition Elem (T : type) : option type :=
  match T with
  | PtrTo t | SliceOf t | ArrayOf _ t | ChanOf t => Some t
  | MapOf _ v => Some v
  | _ => None
  end.

(** [Type.NumField()] and [Type.Field(k)] of a struct type. *)
Definition Fields (T : type) : list StructField :=
  match T with StructOf fs => fs | _ => [] end.

Definition NumField (T : type) : nat := length (Fields T).

Definition exported (f : StructField) : bool := String.eqb (PkgPath f) "".

(** [StructTag.Lookup]. *)
Fixpoint TagLookup (tag : StructTag) (key : string) : option string :=
  match tag with
  | [] => None
  | (k, v) :: rest => if String.eqb k key then Some v else TagLookup rest key
  end.

(** Identity of types, as a boolean. *)
Definition list_eqb {A : Type} (eqb : A -> A -> bool) : list A -> list A -> bool :=
  fix go (l l' : list A) {struct l} : bool :=
    match l, l' with
    | [], [] => true
    | x :: r, x' :: r' => eqb x x' && go r r'
    | _, _ => false
    end.

Fixpoint type_eqb (a b : type) {struct a} : bool :=
  match a, b with
  | Basic b, Basic b' => bool_decide (b = b')
  | PtrTo t, PtrTo t' => type_eqb t t'
  | SliceOf t, SliceOf t' => type_eqb t t'
  | ArrayOf n t, ArrayOf n' t' => Nat.eqb n n' && type_eqb t t'
  | MapOf k v, MapOf k' v' => type_eqb k k' && type_eqb v v'
  | ChanOf t, ChanOf t' => type_eqb t t'
  | FuncT, FuncT => true
  | InterfaceT, InterfaceT => true
  | StructOf fs, StructOf fs' =>
      list_eqb (fun f f' : StructField =>
                  String.eqb (Name f) (Name f') && String.eqb (PkgPath f) (PkgPath f')
                  && bool_decide (Tag f = Tag f') && type_eqb (Typ f) (Typ f'))
               fs fs'
  | _, _ => false
  end.

(** [Type.AssignableTo]: with the types above, a value is assignable to a
    location of an identical type or of the empty interface type. *)
Definition AssignableTo (S D : type) : bool :=
  type_eqb S D || bool_decide (KindOf D = Interface).

(** Number of constructors of a type, used to bound recursion. *)
Fixpoint tsize (T : type) : nat :=
  match T with
  | Basic _ | FuncT | InterfaceT => 1
  | PtrTo t | SliceOf t | ArrayOf _ t | ChanOf t => S (tsize t)
  | MapOf k v => S (tsize k + tsize v)
  | StructOf fs => S (list_sum (map (fun f : StructField => tsize (Typ f)) fs))
  end.

(** *** Values

    A Go value as a tree. A pointer holds what it points at, so the
    storage reachable from a value is the tree below it; this is the view of
    one owner, and two pointers to one variable are not represented. A nil
    slice and an empty slice are the same value. A float is the rational it
    denotes. *)
Inductive value : Type :=
| VBool (b : bool)
| VInt (t : basic) (n : Z)
| VFloat (t : basic) (q : Q)
| VString (s : string)
| VOpaque (t : basic)
| VPtr (E : type) (p : option value)
| VSlice (E : type) (l : list value)
| VArray (E : type) (l : list value)
| VMap (K E : type) (m : list (value * value))
| VChan (E : type) (c : option nat)
| VFunc (f : option nat)
| VIface (d : option value)
| VStruct (fs : list StructField) (vals : list value).

(** The static type of the variable holding a value. *)
Definition typeof (v : value) : type :=
  match v with
  | VBool _ => Basic TBool
  | VInt t _ | VFloat t _ | VOpaque t => Basic t
  | VString _ => Basic TString
  | VPtr E _ => PtrTo E
  | VSlice E _ => SliceOf E
  | VArray E l => ArrayOf (length l) E
  | VMap K E _ => MapOf K E
  | VChan E _ => ChanOf E
  | VFunc _ => FuncT
  | VIface _ => InterfaceT
  | VStruct fs _ => StructOf fs
  end.

(** The zero value of a type. *)
Fixpoint zero (T : type) : value :=
  match T with
  | Basic TBool => VBool false
  | Basic TString => VString ""
  | Basic (TFloat32 as t) | Basic (TFloat64 as t) => VFloat t 0%Q
  | Basic (TComplex64 as t) | Basic (TComplex128 as t)
  | Basic (TUnsafePointer as t) => VOpaque t
  | Basic t => VInt t 0
  | PtrTo E => VPtr E None
  | SliceOf E => VSlice E []
  | ArrayOf n E => VArray E (replicate n (zero E))
  | MapOf K E => VMap K E []
  | ChanOf E => VChan E None
  | FuncT => VFunc None
  | InterfaceT => VIface None
  | StructOf fs => VStruct fs (map (fun f : StructField => zero (Typ f)) fs)
  end.

(** An [interface{}] holding a value of the types above: nil, or the
    dynamic value (never itself an interface). *)
Abbreviation iface := (option value).

(** [reflect.Value]: the zero Value, or a value with the flags that decide
    [CanSet]: addressable, and obtained through an unexported field (read
    only). *)
Inductive Value : Type :=
| Zero
| Val (v : value) (addr ro : bool).

Definition IsValid (v : Value) : bool :=
  match v with Zero => false | Val _ _ _ => true end.

Definition CanSet (v : Value) : bool :=
  match v with Zero => false | Val _ addr ro => addr && negb ro end.

(** [v.Kind()]; the zero Value has kind [Invalid]. *)
Definition KindV (v : Value) : Kind :=
  match v with Zero => Invalid | Val x _ _ => KindOf (typeof x) end.

(** [v.Type()]; [None] is the panic on the zero Value. *)
Definition TypeV (v : Value) : option type :=
  match v with Zero => None | Val x _ _ => Some (typeof x) end.

(** [reflect.TypeOf], [reflect.ValueOf]. *)
Definition TypeOf (a : iface) : option type := typeof <$> a.

Definition ValueOf (a : iface) : Value :=
  match a with None => Zero | Some x => Val x false false end.

(** [reflect.Zero(T)] and [reflect.New(T)]; a nil [T] panics ([None]). *)
Definition ZeroV (T : option type) : option Value :=
  match T with None => None | Some T => Some (Val (zero T) false false) end.

Definition New (T : option type) : option Value :=
  match T with
  | None => None
  | Some T => Some (Val (VPtr T (Some (zero T))) false false)
  end.

(** [v.IsNil()]; [None] is its panic. *)
Definition IsNil (v : Value) : option bool :=
  match v with
  | Val (VPtr _ p) _ _ => Some (bool_decide (p = None))
  | Val (VSlice _ l) _ _ => Some (bool_decide (l = []))
  | Val (VMap _ _ m) _ _ => Some (bool_decide (m = []))
  | Val (VChan _ c) _ _ => Some (bool_decide (c = None))
  | Val (VFunc f) _ _ => Some (bool_decide (f = None))
  | Val (VIface d) _ _ => Some (bool_decide (d = None))
  | _ => None
  end.

(** [v.Elem()]: what a pointer points at (addressable) or what an interface
    holds; the zero Value for nil; [None] is the panic of other kinds. *)
Definition ElemV (v : Value) : option Value :=
  match v with
  | Val (VPtr _ (Some x)) _ ro => Some (Val x true ro)
  | Val (VPtr _ None) _ _ => Some Zero
  | Val (VIface (Some x)) _ ro => Some (Val x false ro)
  | Val (VIface None) _ _ => Some Zero
  | _ => None
  end.

(** [reflect.Indirect(v)]. *)
Definition Indirect (v : Value) : option Value :=
  if bool_decide (KindV v = Ptr) then ElemV v else Some v.

(** [v.Interface()]: panics on the zero Value and on a read-only Value. *)
Definition InterfaceV (v : Value) : option iface :=
  match v with
  | Zero => None
  | Val x _ ro =>
      if ro then None
      else Some (match x with VIface d => d | _ => Some x end)
  end.

(** [v.Len()]; [None] is its panic. *)
Definition Len (v : Value) : option nat :=
  match v with
  | Val (VSlice _ l) _ _ | Val (VArray _ l) _ _ => Some (length l)
  | Val (VString s) _ _ => Some (String.length s)
  | Val (VMap _ _ m) _ _ => Some (length m)
  | Val (VChan _ _) _ _ => Some O
  | _ => None
  end.

(** [v.Index(k)] of a slice or an array; [None] is its panic. *)
Definition Index (v : Value) (k : nat) : option Value :=
  match v with
  | Val (VSlice _ l) _ ro => (fun x => Val x true ro) <$> l !! k
  | Val (VArray _ l) addr ro => (fun x => Val x addr ro) <$> l !! k
  | _ => None
  end.

(** [v.NumField()] and [v.Field(k)] of a struct; [None] is the panic. A
    field obtained through an unexported name is read only. *)
Definition NumFieldV (v : Value) : option nat :=
  match v with
  | Val (VStruct fs _) _ _ => Some (length fs)
  | _ => None
  end.

Definition FieldV (v : Value) (k : Z) : option Value :=
  match v with
  | Val (VStruct fs vals) addr ro =>
      if (k <? 0)%Z then None
      else match fs !! Z.to_nat k, vals !! Z.to_nat k with
           | Some f, Some x => Some (Val x addr (ro || negb (exported f)))
           | _, _ => None
           end
  | _ => None
  end.

(** What a variable of the type of [old] holds once [x] is stored in it: an
    interface variable boxes the value. *)
Definition stored (old x : value) : value :=
  match old, x with
  | VIface _, VIface _ => x
  | VIface _, _ => VIface (Some x)
  | _, _ => x
  end.

(** [v.Set(x)]: panics ([None]) unless [v] is settable and [x] is a valid
    Value assignable to the type of [v]; otherwise the variable behind [v]
    now holds [x]. *)
Definition SetV (v x : Value) : option Value :=
  match v, x with
  | Val old addr ro, Val new _ _ =>
      if CanSet v && AssignableTo (typeof new) (typeof old)
      then Some (Val (stored old new) addr ro)
      else None
  | _, _ => None
  end.

(** [reflect.Append(s, x)]: a slice with the element appended; panics
    unless [s] is a slice and [x] is assignable to its element type. *)
Definition Append (s x : Value) : option Value :=
  match s, x with
  | Val (VSlice E l) _ _, Val e _ _ =>
      if AssignableTo (typeof e) E
      then Some (Val (VSlice E (l ++ [stored (zero E) e])) false false)
      else None
  | _, _ => None
  end.

(** [reflect.AppendSlice(s, t)]: both must be slices of one type. *)
Definition AppendSlice (s t : Value) : option Value :=
  match s, t with
  | Val (VSlice E l) _ _, Val (VSlice E' l') _ _ =>
      if type_eqb E E' then Some (Val (VSlice E (l ++ l')) false false) else None
  | _, _ => None
  end.

(** Number of constructors of a value, used to bound recursion. *)
Fixpoint vsize (v : value) : nat :=
  match v with
  | VPtr _ (Some x) | VIface (Some x) => S (vsize x)
  | VSlice _ l | VArray _ l | VStruct _ l => S (list_sum (map vsize l))
  | VMap _ _ m => S (list_sum (map (fun kv => (vsize (fst kv) + vsize (snd kv))%nat) m))
  | _ => 1
  end.

End reflect.

(** ** type_info.go: the type descriptor *)

(** [TypeInfo]. [Typ] and [ElemType] are [reflect.Type] interface values,
    whose nil is [None]. *)
Record TypeInfo : Type := mkTypeInfo {
  IsScalar : bool;
  IsMap : bool;
  IsSlice : bool;
  IsStruct : bool;
  Kind : reflect.Kind;
  Typ : option reflect.type;
  ElemType : option reflect.type;
  StructFields : list reflect.StructField
}.

(** [TypeInfo{}]. *)
Definition zeroTypeInfo : TypeInfo :=
  mkTypeInfo false false false false reflect.Invalid None None [].

(** The descriptor [StatType] builds once its loop has reached kind [K] and
    type [T] (the statements after the loop). The field loop runs [k] from 0
    to [T.NumField()] and appends [T.Field(k)]. *)
Definition describe (K : reflect.Kind) (T : reflect.type) : TypeInfo :=
  let isMap := bool_decide (K = reflect.Map) in
  let isSlice := bool_decide (K = reflect.Slice) in
  let isStruct := bool_decide (K = reflect.Struct) in
  let isScalar :=
    bool_decide (K = reflect.Bool) ||
    bool_decide (K = reflect.Int) || bool_decide (K = reflect.Int8) ||
    bool_decide (K = reflect.Int16) || bool_decide (K = reflect.Int32) ||
    bool_decide (K = reflect.Int64) ||
    bool_decide (K = reflect.Uint) || bool_decide (K = reflect.Uint8) ||
    bool_decide (K = reflect.Uint16) || bool_decide (K = reflect.Uint32) ||
    bool_decide (K = reflect.Uint64) ||
    bool_decide (K = reflect.Float32) || bool_decide (K = reflect.Float64) ||
    bool_decide (K = reflect.String) in
  let elemType := if isMap || isSlice then reflect.Elem T else None in
  let structFields :=
    if isMap || isSlice then []
    else if isStruct then
      foldl (fun acc k => acc ++ option_list (reflect.Fields T !! k)) []
            (seq 0 (reflect.NumField T))
    else [] in
  mkTypeInfo isScalar isMap isSlice isStruct K (Some T) elemType structFields.

(** The type at the end of a pointer chain. *)
Fixpoint chainEnd (T : reflect.type) : reflect.type :=
  match T with
  | reflect.PtrTo E => chainEnd E
  | _ => T
  end.

(** The descriptor of a type, as a function of the type alone; [StatType]
    returns it whatever a consistent cache holds. *)
Definition statInfo (T : option reflect.type) : TypeInfo :=
  match T with
  | None => zeroTypeInfo
  | Some T => describe (reflect.KindOf (chainEnd T)) (chainEnd T)
  end.

(** ** type_info.go: the cache, over an explicit store

    [StatType] works on a value it creates itself with [reflect.New]. To
    tell that value apart from the caller's, storage is explicit here: a
    store is a list of cells, [reflect.New] appends one, and a
    [reflect.Value] is either held by value or located in a cell. *)

Module store.

Abbreviation loc := nat.

(** What a cell holds: a pointer (nil or the address of a cell), or a
    value of a non-pointer type, whose content classification never
    reads. *)
Inductive content : Type :=
| Pointer (target : option loc)
| Plain.

Record cell : Type := mkCell { cellType : reflect.type; cellVal : content }.

Abbreviation heap := (list cell).

(** [reflect.Value]: the zero Value, a value held outside any variable
    (not addressable), or the variable in cell [l] (addressable, hence
    settable). *)
Inductive Value : Type :=
| Zero
| Held (T : reflect.type) (c : content)
| At (T : reflect.type) (l : loc).

Definition zeroContent (T : reflect.type) : content :=
  match T with reflect.PtrTo _ => Pointer None | _ => Plain end.

Definition load (h : heap) (v : Value) : option content :=
  match v with
  | Zero => None
  | Held _ c => Some c
  | At _ l => cellVal <$> h !! l
  end.

Definition CanSet (v : Value) : bool :=
  match v with At _ _ => true | _ => false end.

(** [v.IsNil()]; [None] is its panic (zero Value, or a kind without nil). *)
Definition IsNil (h : heap) (v : Value) : option bool :=
  match load h v with
  | Some (Pointer None) => Some true
  | Some (Pointer (Some _)) => Some false
  | _ => None
  end.

(** [reflect.New(T)]: a fresh cell holding the zero value of [T], and the
    pointer to it. *)
Definition New (h : heap) (T : reflect.type) : heap * Value :=
  (h ++ [mkCell T (zeroContent T)],
   Held (reflect.PtrTo T) (Pointer (Some (length h)))).

(** [v.Set(x)]; [None] is its panic. *)
Definition Set_ (h : heap) (v x : Value) : option heap :=
  match v, load h x with
  | At T l, Some c => Some (<[l := mkCell T c]> h)
  | _, _ => None
  end.

(** [v.Elem()] of a pointer: the variable pointed at, or the zero Value
    for a nil pointer. *)
Definition Elem (h : heap) (E : reflect.type) (v : Value) : Value :=
  match load h v with
  | Some (Pointer (Some l)) => At E l
  | _ => Zero
  end.

(** [sync.Map], keyed by type identity: the latest [Store] wins. *)
Abbreviation cache := (list (reflect.type * TypeInfo)).

Fixpoint Load (c : cache) (T : reflect.type) : option TypeInfo :=
  match c with
  | [] => None
  | (T', rv) :: rest => if reflect.type_eqb T' T then Some rv else Load rest T
  end.

Definition Store (c : cache) (T : reflect.type) (rv : TypeInfo) : cache :=
  (T, rv) :: c.

(** The loop [for K == reflect.Ptr] of [StatType]. [K] is the kind of [T]
    at every test, so the loop runs while [T] is a pointer type, and
    [T.Elem()] is the argument of [PtrTo]. [None] is a panic. *)
Fixpoint resolve (h : heap) (T : reflect.type) (V : Value)
  : option (heap * reflect.type * Value) :=
  match T with
  | reflect.PtrTo E =>
      match IsNil h V with
      | None => None
      | Some isnil =>
          let h1 :=
            if isnil && CanSet V then
              let '(h', ptr) := New h E in Set_ h' V ptr
            else Some h in
          match h1 with
          | None => None
          | Some h1 => resolve h1 E (Elem h1 E V)
          end
      end
  | _ => Some (h, T, V)
  end.

(** [typeInfoCache.StatType], on a store and a cache. *)
Definition StatType (h : heap) (c : cache) (T : option reflect.type)
  : option (heap * cache * TypeInfo) :=
  match T with
  | None => Some (h, c, zeroTypeInfo)
  | Some T =>
      match Load c T with
      | Some rv => Some (h, c, rv)
      | None =>
          let origT := T in
          let '(h1, V) := New h T in
          let T := reflect.PtrTo T in
          match resolve h1 T V with
          | None => None
          | Some (h2, T, V) =>
              let K := reflect.KindOf T in
              let rv := describe K T in
              Some (h2, Store c origT rv, rv)
          end
      end
  end.

(** An interface value as [Stat] receives it: nil, or a dynamic type with
    the value held. *)
Definition iface := option (reflect.type * content).

(** [reflect.TypeOf]. *)
Definition TypeOf (a : iface) : option reflect.type := fst <$> a.

(** [typeInfoCache.Stat]. *)
Definition Stat (h : heap) (c : cache) (a : iface)
  : option (heap * cache * TypeInfo) :=
  let t := TypeOf a in
  StatType h c t.

(** The cells a cache miss on [T] appends to a store of length [l]: one
    variable per level of the pointer chain of [T], each pointer of the chain
    set to the next variable. *)
Fixpoint scratch (l : loc) (T : reflect.type) : list cell :=
  match T with
  | reflect.PtrTo E => mkCell T (Pointer (Some (S l))) :: scratch (S l) E
  | _ => [mkCell T Plain]
  end.

(** The cells a call of [StatType] appends: none for the nil type and on a
    cache hit. *)
Definition allocated (h : heap) (c : cache) (T : option reflect.type) : list cell :=
  match T with
  | None => []
  | Some T => match Load c T with Some _ => [] | None => scratch (length h) T end
  end.

(** Every entry of the cache is the descriptor of its key. *)
Definition cacheOk (c : cache) : Prop :=
  Forall (fun e => snd e = statInfo (Some (fst e))) c.

End store.

(** ** Value: the wrapper *)

(** The argument of [V], kept in [original]: an interface holding a value,
    or holding a [reflect.Value] (the one foreign type [V] asserts). *)
Inductive any : Type :=
| AnyIface (a : reflect.iface)
| AnyValue (v : reflect.Value).

(** A run-time panic: a nil pointer dereference, or one raised by package
    reflect. *)
Inductive panic : Set := NilDereference | ReflectPanic.

(** The errors the package returns. [errors.Go] only adds the caller's frame
    to an error and is the identity here. *)
Inductive error : Type :=
| ErrNilReceiver
| ErrUnsupported (method : string) (original : any)
| ErrNotAssignable
| ErrZeroLengthIndex
| ErrNotStruct (T : option reflect.type)
| ErrIndexOutOfBounds (len : nat) (n : Z)
| ErrCoerce (T : option reflect.type) (data : reflect.value)
| ErrNotFillable (getName fieldName : string)
| ErrRecovered (p : panic).

(** How a call that returns [error] ends: nil, an error, a panic, or, for
    the functions defined with a recursion bound, the bound reached. *)
Inductive outcome : Type :=
| Done
| Fail (e : error)
| Panicked (p : panic)
| Unfinished.

(** How a call that returns a result and an error ends. *)
Inductive ret (A : Type) : Type :=
| Ret (a : A)
| RetErr (e : error)
| RetPanic (p : panic).
Arguments Ret {A} _.
Arguments RetErr {A} _.
Arguments RetPanic {A} _.

(** The implementations a method slot is bound to. *)
Inductive AppendMethod : Set := AppendSupported | AppendUnsupported.
Inductive FieldsMethod : Set := FieldsSupported | FieldsUnsupported.
Inductive FieldsByTagMethod : Set := FieldsByTagSupported | FieldsByTagUnsupported.
Inductive NewElemMethod : Set := NewElemSupported | NewElemUnsupported.
Inductive ZeroMethod : Set := ZeroSupported | ZeroUnsupported.

(** [Value]. The embedded [TypeInfo] is the field [info], and a coercion
    gives the wrapper its fields as in Go. [TopValue] holds the storage the
    wrapper works on, and [WriteValue] is the variable at the end of its
    pointer chain. *)
Record Value : Type := mkValue {
  info :> TypeInfo;
  CanWrite : bool;
  TopValue : reflect.Value;
  WriteValue : reflect.Value;
  ElemTypeInfo : TypeInfo;
  original : any;
  methodAppend : AppendMethod;
  methodFields : FieldsMethod;
  methodFieldsByTag : FieldsByTagMethod;
  methodNewElem : NewElemMethod;
  methodZero : ZeroMethod
}.

(** [TypeCache.StatType] and [TypeCache.Stat], without the store: the
    descriptor is a function of the type, and the storage [StatType]
    allocates is its own. *)
Definition StatType (T : option reflect.type) : TypeInfo := statInfo T.

Definition Stat (a : reflect.iface) : TypeInfo :=
  let t := reflect.TypeOf a in
  StatType t.

(** Walking a pointer chain of static type [T] and giving every nil pointer
    that can be set a fresh zero variable. *)
Fixpoint instantiate (T : reflect.type) (canset ro : bool) (v : reflect.value)
  : reflect.value :=
  match T, v with
  | reflect.PtrTo E, reflect.VPtr E' None =>
      if canset
      then reflect.VPtr E' (Some (instantiate E (negb ro) ro (reflect.zero E)))
      else v
  | reflect.PtrTo E, reflect.VPtr E' (Some x) =>
      reflect.VPtr E' (Some (instantiate E (negb ro) ro x))
  | _, _ => v
  end.

(** The variable at the end of a pointer chain; the zero Value when the
    chain ends in nil. *)
Fixpoint chainValue (addr ro : bool) (v : reflect.value) : reflect.Value :=
  match v with
  | reflect.VPtr _ None => reflect.Zero
  | reflect.VPtr _ (Some x) => chainValue true ro x
  | _ => reflect.Val v addr ro
  end.

(** The chain with the variable at its end holding [x]. *)
Fixpoint chainStore (v x : reflect.value) : reflect.value :=
  match v with
  | reflect.VPtr E (Some y) => reflect.VPtr E (Some (chainStore y x))
  | reflect.VPtr _ None => v
  | _ => x
  end.

(** Modelled from the spec: [Writable], which [V] calls and whose source is
    not given. It resolves the pointer chain of its argument,
    allocating storage for each nil pointer that is settable, and reports
    the variable at the end of the chain, the descriptor of the argument's
    type, and whether that variable is settable. The first component is the
    argument with the allocations done. A chain that ends in a nil pointer
    which cannot be set has no variable at its end and is not writable. *)
Definition Writable (v : reflect.Value)
  : reflect.Value * reflect.Value * TypeInfo * bool :=
  match v with
  | reflect.Zero => (reflect.Zero, reflect.Zero, zeroTypeInfo, false)
  | reflect.Val x addr ro =>
      let x' := instantiate (reflect.typeof x) (addr && negb ro) ro x in
      let w := chainValue addr ro x' in
      (reflect.Val x' addr ro, w, StatType (Some (reflect.typeof x)), reflect.CanSet w)
  end.

(** [V]. *)
Definition V (arg : any) : Value :=
  let v := match arg with
           | AnyValue argReflectValue => argReflectValue
           | AnyIface a => reflect.ValueOf a
           end in
  let '(top, w, ti, canWrite) := Writable v in
  let container := IsMap ti || IsSlice ti in
  {| info := ti;
     CanWrite := canWrite;
     TopValue := top;
     WriteValue := w;
     ElemTypeInfo := if container then StatType (ElemType ti) else zeroTypeInfo;
     original := arg;
     methodAppend := if IsSlice ti then AppendSupported else AppendUnsupported;
     methodFields := if IsStruct ti then FieldsSupported else FieldsUnsupported;
     methodFieldsByTag :=
       if IsStruct ti then FieldsByTagSupported else FieldsByTagUnsupported;
     methodNewElem := if container then NewElemSupported else NewElemUnsupported;
     methodZero := if canWrite then ZeroSupported else ZeroUnsupported |}.

(** The effect of [me.WriteValue.Set(...)] on the wrapper: [WriteValue] is
    the end of the chain of [TopValue], so both see the new content. *)
Definition setWriteValue (me : Value) (w : reflect.Value) : Value :=
  let top :=
    match TopValue me, w with
    | reflect.Val t addr ro, reflect.Val x _ _ =>
        reflect.Val (chainStore t x) addr ro
    | t, _ => t
    end in
  {| info := info me; CanWrite := CanWrite me; TopValue := top; WriteValue := w;
     ElemTypeInfo := ElemTypeInfo me; original := original me;
     methodAppend := methodAppend me; methodFields := methodFields me;
     methodFieldsByTag := methodFieldsByTag me;
     methodNewElem := methodNewElem me; methodZero := methodZero me |}.

(** A call into package reflect that may panic. *)
Definition reflectCall {A : Type} (me : Value) (o : option A)
  (k : A -> Value * outcome) : Value * outcome :=
  match o with
  | Some a => k a
  | None => (me, Panicked ReflectPanic)
  end.

Notation "'let?' x := o 'orPanic' me 'in' k" :=
  (reflectCall me o (fun x => k))
  (at level 10, x name, o at level 100, me at level 9, k at level 200).

(** [errorUnsupported]: the message names the method and the type of
    [original]; the error keeps both. *)
Definition errorUnsupported (me : Value) (method : string) : error :=
  ErrUnsupported method (original me).

(** [zeroSupported], [zeroUnsupported] and the call through the slot. *)
Definition zeroSupported (me : Value) : Value * outcome :=
  let? z := reflect.ZeroV (Typ me) orPanic me in
  let? w := reflect.SetV (WriteValue me) z orPanic me in
  (setWriteValue me w, Done).

Definition zeroUnsupported (me : Value) : Value * outcome :=
  (me, Fail (errorUnsupported me "Zero")).

Definition callZero (me : Value) : Value * outcome :=
  match methodZero me with
  | ZeroSupported => zeroSupported me
  | ZeroUnsupported => zeroUnsupported me
  end.

(** [Zero], on a receiver that may be nil. *)
Definition Zero (me : option Value) : option Value * outcome :=
  match me with
  | None => (None, Fail ErrNilReceiver)
  | Some me => let '(me', o) := callZero me in (Some me', o)
  end.

(** ** Value: coercing assignment and append *)

Section Coercion.

(** Modelled from the spec: [coerce], the coercion primitive [To] delegates
    to (its file is not among the sources). It converts a resolved source
    value to the type of the destination, or fails with a coercion fault;
    the destination is written with the converted value only. *)
Variable coerce : reflect.type -> reflect.value -> option reflect.value.

(** The loop that takes the source to the end of its pointer chain; [None]
    when it meets a nil pointer. *)
Fixpoint resolveData (v : reflect.value) : option reflect.value :=
  match v with
  | reflect.VPtr _ None => None
  | reflect.VPtr _ (Some x) => resolveData x
  | _ => Some v
  end.

(** The slice branch of [To]: the loop over the indices [ks] of [slice].
    [elemTo] is [To] on the element wrapper. *)
Fixpoint toSlice (elemTo : Value -> reflect.iface -> Value * outcome)
  (slice : reflect.Value) (ks : list nat) (me : Value) : Value * outcome :=
  match ks with
  | [] => (me, Done)
  | k :: ks =>
      let? p := reflect.New (ElemType me) orPanic me in
      let? pi := reflect.InterfaceV p orPanic me in
      let elem := V (AnyIface pi) in
      let? x := reflect.Index slice k orPanic me in
      let? xi := reflect.InterfaceV x orPanic me in
      match elemTo elem xi with
      | (elem, Done) =>
          let? s := reflect.Append (WriteValue me) (WriteValue elem) orPanic me in
          let? w := reflect.SetV (WriteValue me) s orPanic me in
          toSlice elemTo slice ks (setWriteValue me w)
      | (_, Fail err) => (fst (callZero me), Fail err)
      | (_, o) => (me, o)
      end
  end.

(** The statements of [To] after the destination is zeroed. [to] is [To]
    itself, for the calls on an element wrapper and on the last element. *)
Definition toAssign (to : Value -> reflect.iface -> Value * outcome)
  (dataTypeInfo : TypeInfo) (me : Value) (arg : reflect.iface) : Value * outcome :=
  if bool_decide (arg = None) || bool_decide (Kind dataTypeInfo = reflect.Invalid)
  then (me, Done)
  else
    let? dT := Typ dataTypeInfo orPanic me in
    let? meT := Typ me orPanic me in
    if reflect.AssignableTo dT meT && negb (bool_decide (Kind me = reflect.Slice))
    then
      let? w := reflect.SetV (WriteValue me) (reflect.ValueOf arg) orPanic me in
      (setWriteValue me w, Done)
    else
      match arg ≫= resolveData with
      | None => (me, Done)
      | Some data =>
          let dataValue := reflect.Val data false false in
          if IsSlice me then
            let arg' :=
              if negb (IsSlice dataTypeInfo)
              then Some (reflect.VSlice reflect.InterfaceT [reflect.VIface arg])
              else arg in
            let slice := reflect.ValueOf arg' in
            let? size := reflect.Len slice orPanic me in
            toSlice to slice (seq 0 size) me
          else if bool_decide (Kind dataTypeInfo = reflect.Slice) then
            let? len := reflect.Len dataValue orPanic me in
            if (0 <? len)%nat then
              let? x := reflect.Index dataValue (len - 1) orPanic me in
              let? xi := reflect.InterfaceV x orPanic me in
              to me xi
            else (me, Done)
          else
            let? dst := reflect.TypeV (WriteValue me) orPanic me in
            match coerce dst data with
            | None => (me, Fail (ErrCoerce (Some dst) data))
            | Some r =>
                let? w := reflect.SetV (WriteValue me) (reflect.Val r false false)
                          orPanic me in
                (setWriteValue me w, Done)
            end
      end.

(** [To] on a receiver that is not nil, with a bound on the depth of its
    recursion. *)
Fixpoint To_fuel (fuel : nat) (me : Value) (arg : reflect.iface) {struct fuel}
  : Value * outcome :=
  match fuel with
  | O => (me, Unfinished)
  | S fuel =>
      let dataTypeInfo := Stat arg in
      match original me with
      | AnyIface None => (me, Fail (errorUnsupported me "To"))
      | _ =>
          match callZero me with
          | (me, Done) => toAssign (To_fuel fuel) dataTypeInfo me arg
          | (me, err) => (me, err)
          end
      end
  end.

Definition otsize (T : option reflect.type) : nat :=
  match T with None => O | Some T => reflect.tsize T end.

Definition isize (a : reflect.iface) : nat :=
  match a with None => O | Some v => reflect.vsize v end.

(** A bound that the recursion of [To] on [me] and [arg] stays under: each
    call on an element wrapper has a smaller element type and a source no
    larger, each call on a last element has the same wrapper and a smaller
    source. *)
Definition toBound (me : Value) (arg : reflect.iface) : nat :=
  S (otsize (ElemType me) + isize arg).

(** [To]. On a nil receiver the first access to [me.original] panics. *)
Definition To (me : option Value) (arg : reflect.iface) : option Value * outcome :=
  match me with
  | None => (None, Panicked NilDereference)
  | Some me =>
      let '(me', o) := To_fuel (toBound me arg) me arg in (Some me', o)
  end.

(** The loop of [appendSupported]: the coerced elements are collected in
    [zero], a slice of its own; the loop stops at the first item [To]
    rejects. *)
Fixpoint appendItems (me : Value) (items : list reflect.iface) (zero : reflect.Value)
  : reflect.Value + outcome :=
  match items with
  | [] => inl zero
  | item :: items =>
      match reflect.New (ElemType me) with
      | None => inr (Panicked ReflectPanic)
      | Some elem =>
          let elemAsValue := V (AnyValue elem) in
          match To (Some elemAsValue) item with
          | (Some elemAsValue, Done) =>
              match reflect.Indirect (TopValue elemAsValue) ≫= reflect.Append zero with
              | None => inr (Panicked ReflectPanic)
              | Some zero => appendItems me items zero
              end
          | (_, o) => inr o
          end
      end
  end.

(** [appendSupported]: the deferred function turns a panic into an error;
    [me.WriteValue] is set once, after the loop. *)
Definition appendSupported (me : Value) (items : list reflect.iface)
  : Value * outcome :=
  match reflect.ZeroV (Typ me) with
  | None => (me, Fail (ErrRecovered ReflectPanic))
  | Some zero =>
      match appendItems me items zero with
      | inr (Panicked r) => (me, Fail (ErrRecovered r))
      | inr o => (me, o)
      | inl zero =>
          match reflect.AppendSlice (WriteValue me) zero
                ≫= reflect.SetV (WriteValue me) with
          | None => (me, Fail (ErrRecovered ReflectPanic))
          | Some w => (setWriteValue me w, Done)
          end
      end
  end.

Definition appendUnsupported (me : Value) (items : list reflect.iface)
  : Value * outcome :=
  (me, Fail (errorUnsupported me "Append")).

(** [Append]. *)
Definition Append (me : option Value) (items : list reflect.iface)
  : option Value * outcome :=
  match me with
  | None => (None, Fail ErrNilReceiver)
  | Some me =>
      let '(me', o) :=
        match methodAppend me with
        | AppendSupported => appendSupported me items
        | AppendUnsupported => appendUnsupported me items
        end in
      (Some me', o)
  end.

End Coercion.

(** [newElemSupported], [newElemUnsupported], [NewElem]. *)
Definition newElemSupported (me : Value) : ret Value :=
  match reflect.New (ElemType me) with
  | None => RetPanic ReflectPanic
  | Some p => Ret (V (AnyValue p))
  end.

Definition newElemUnsupported (me : Value) : ret Value :=
  RetErr (errorUnsupported me "NewElem").

Definition NewElem (me : option Value) : ret Value :=
  match me with
  | None => RetErr ErrNilReceiver
  | Some me =>
      match methodNewElem me with
      | NewElemSupported => newElemSupported me
      | NewElemUnsupported => newElemUnsupported me
      end
  end.

(** ** What the statements below are about *)

(** The destination of a wrapper holds the zero value of its type. *)
Definition atZero (me : Value) : Prop :=
  exists T addr ro,
    Typ me = Some T /\ WriteValue me = reflect.Val (reflect.zero T) addr ro.

(** What [V] establishes for a wrapper and [To] keeps: the zero
    slot follows [CanWrite], [CanWrite] is [WriteValue.CanSet()], a wrapper
    that can be written was not made from nil, and the descriptor is the one
    of the type of the variable in [WriteValue]. *)
Record Wrapper (me : Value) : Prop := mkWrapper {
  wrapper_zero :
    methodZero me = if CanWrite me then ZeroSupported else ZeroUnsupported;
  wrapper_canset : CanWrite me = reflect.CanSet (WriteValue me);
  wrapper_original : CanWrite me = true -> original me <> AnyIface None;
  wrapper_info :
    forall x addr ro,
      WriteValue me = reflect.Val x addr ro ->
      info me = describe (reflect.KindOf (reflect.typeof x)) (reflect.typeof x)
}.

(** How many elements [To] takes from a source for a slice destination:
    none when the source is nil or resolves to a nil pointer, the length of
    the source when it is classified as a slice, and one otherwise. *)
Definition sourceLen (arg : reflect.iface) : nat :=
  match arg ≫= resolveData with
  | None => O
  | Some _ =>
      if IsSlice (Stat arg) then default O (reflect.Len (reflect.ValueOf arg))
      else 1%nat
  end.

(** A pointer chain whose pointers point at variables of their element
    type, as every Go value does. *)
Fixpoint chainTyped (v : reflect.value) : Prop :=
  match v with
  | reflect.VPtr E (Some x) => reflect.typeof x = E /\ chainTyped x
  | _ => True
  end.

Definition anyTyped (arg : any) : Prop :=
  match arg with
  | AnyIface (Some x) | AnyValue (reflect.Val x _ _) => chainTyped x
  | _ => True
  end.

(** ** Value: struct fields *)

(** Modelled from the spec: [Field], the pairing of the wrapper of a field,
    the field's descriptor and the value of its tag (its declaration is not
    among the sources). [FSlot] is not a Go field: it is the position of the
    field in its struct and stands for the storage the field's wrapper
    shares with the struct. *)
Record Field : Type := mkFieldOf {
  FValue : Value;
  FField : reflect.StructField;
  TagValue : string;
  FSlot : nat
}.

(** The struct in [me.WriteValue] and the wrapper of its field [k] share the
    storage of the field: what that wrapper holds is what the struct holds
    in field [k]. *)
Definition storeField (me : Value) (k : nat) (field : reflect.Value) : Value :=
  match WriteValue me, field with
  | reflect.Val (reflect.VStruct fs vals) addr ro, reflect.Val x _ _ =>
      setWriteValue me (reflect.Val (reflect.VStruct fs (<[k := x]> vals)) addr ro)
  | _, _ => me
  end.

(** The loop of [fieldsSupported] over the field numbers [ks]. [V] on a
    field allocates the nil pointers of the field that can be set, inside
    the struct. *)
Fixpoint fieldsLoop (T : reflect.type) (ks : list nat) (me : Value) (rv : list Field)
  : Value * ret (list Field) :=
  match ks with
  | [] => (me, Ret rv)
  | k :: ks =>
      match reflect.FieldV (WriteValue me) (Z.of_nat k), reflect.Fields T !! k with
      | Some v, Some f =>
          let sub := V (AnyValue v) in
          fieldsLoop T ks (storeField me k (TopValue sub))
            (rv ++ [mkFieldOf sub f "" k])
      | _, _ => (me, RetPanic ReflectPanic)
      end
  end.

(** [fieldsSupported]; the receiver may be nil. *)
Definition fieldsSupported (me : option Value) : option Value * ret (list Field) :=
  match me with
  | None => (None, Ret [])
  | Some me =>
      if IsStruct me then
        match Typ me with
        | None => (Some me, RetPanic NilDereference)
        | Some T =>
            let '(me', r) := fieldsLoop T (seq 0 (reflect.NumField T)) me [] in
            (Some me', r)
        end
      else (Some me, Ret [])
  end.

Definition fieldsUnsupported (me : option Value) : option Value * ret (list Field) :=
  (me, Ret []).

(** [Fields]: the access to the slot dereferences the receiver. *)
Definition Fields (me : option Value) : option Value * ret (list Field) :=
  match me with
  | None => (None, RetPanic NilDereference)
  | Some v =>
      match methodFields v with
      | FieldsSupported => fieldsSupported me
      | FieldsUnsupported => fieldsUnsupported me
      end
  end.

(** [fieldsByTagSupported], [fieldsByTagUnsupported], [FieldsByTag]. *)
Definition fieldsByTagSupported (me : option Value) (key : string)
  : option Value * ret (list Field) :=
  match Fields me with
  | (me, Ret all) =>
      (me, Ret (foldl (fun rv f =>
                         match reflect.TagLookup (reflect.Tag (FField f)) key with
                         | Some value =>
                             rv ++ [mkFieldOf (FValue f) (FField f) value (FSlot f)]
                         | None => rv
                         end) [] all))
  | r => r
  end.

Definition fieldsByTagUnsupported (me : option Value) (key : string)
  : option Value * ret (list Field) :=
  (me, Ret []).

Definition FieldsByTag (me : option Value) (key : string)
  : option Value * ret (list Field) :=
  match me with
  | None => (None, RetPanic NilDereference)
  | Some v =>
      match methodFieldsByTag v with
      | FieldsByTagSupported => fieldsByTagSupported me key
      | FieldsByTagUnsupported => fieldsByTagUnsupported me key
      end
  end.

(** The loop of [FieldByIndex] that instantiates a pointer chain, on a
    variable of static type [T] holding [x]: the content with the
    allocations made, and the Value at the end of the chain. A nil pointer
    that cannot be set makes [v.Elem()] the zero Value, on which [v.Type()]
    panics ([None]). A pointer the loop allocates is not read only. *)
Fixpoint followChain (T : reflect.type) (x : reflect.value) (addr ro : bool)
  : option (reflect.value * reflect.Value) :=
  match T, x with
  | reflect.PtrTo E, reflect.VPtr E' None =>
      if addr && negb ro then
        (fun r => (reflect.VPtr E' (Some (fst r)), snd r))
          <$> followChain E (reflect.zero E) true false
      else None
  | reflect.PtrTo E, reflect.VPtr E' (Some y) =>
      (fun r => (reflect.VPtr E' (Some (fst r)), snd r)) <$> followChain E y true ro
  | _, _ => Some (x, reflect.Val x addr ro)
  end.

(** The struct in [v] with its field [n] holding [x]. *)
Definition putField (v : reflect.Value) (n : Z) (x : reflect.value) : reflect.Value :=
  match v with
  | reflect.Val (reflect.VStruct fs vals) addr ro =>
      reflect.Val (reflect.VStruct fs (<[Z.to_nat n := x]> vals)) addr ro
  | _ => v
  end.

Definition contentOr (v : reflect.Value) (x : reflect.value) : reflect.value :=
  match v with reflect.Val y _ _ => y | reflect.Zero => x end.

(** The loop of [FieldByIndex] over the path: [v] with the allocations made
    below it, and the Value the path leads to. *)
Fixpoint walk (index : list Z) (v : reflect.Value) : reflect.Value * ret reflect.Value :=
  match index with
  | [] => (v, Ret v)
  | n :: index =>
      if negb (bool_decide (reflect.KindV v = reflect.Struct)) then
        (v, RetErr (ErrNotStruct (reflect.TypeV v)))
      else
        match reflect.NumFieldV v with
        | None => (v, RetPanic ReflectPanic)
        | Some num =>
            if (Z.of_nat num <? n)%Z then (v, RetErr (ErrIndexOutOfBounds num n))
            else
              match reflect.FieldV v n with
              | Some (reflect.Val x addr ro) =>
                  match followChain (reflect.typeof x) x addr ro with
                  | None => (v, RetPanic ReflectPanic)
                  | Some (x', e) =>
                      let '(e', r) := walk index e in
                      (putField v n (chainStore x' (contentOr e' x')), r)
                  end
              | _ => (v, RetPanic ReflectPanic)
              end
        end
  end.

(** [FieldByIndex]. *)
Definition FieldByIndex (me : option Value) (index : list Z)
  : option Value * ret Value :=
  let size := length index in
  match me with
  | None => (None, RetErr ErrNilReceiver)
  | Some me =>
      if negb (CanWrite me) then (Some me, RetErr ErrNotAssignable)
      else if bool_decide (size = O) then (Some me, RetErr ErrZeroLengthIndex)
      else
        let '(w, r) := walk index (WriteValue me) in
        (Some (setWriteValue me w),
         match r with
         | Ret v => Ret (V (AnyValue v))
         | RetErr e => RetErr e
         | RetPanic p => RetPanic p
         end)
  end.

(** ** Value: filling a struct from a getter *)

(** Modelled from the spec: what [Getter.Get] returns, as the type switch of
    [fill] sees it: a getter, a slice of getters, or anything else. *)
Inductive GetResult (G : Type) : Type :=
| GotGetter (g : G)
| GotGetters (gs : list G)
| GotOther (a : reflect.iface).
Arguments GotGetter {G} _.
Arguments GotGetters {G} _.
Arguments GotOther {G} _.

(** Modelled from the spec: [Getter], a function from a key to a result
    (the interface is declared in a file that is not among the sources). A
    getter here is a finite tree: one that returns itself is left out. *)
Inductive Getter : Type :=
| MkGetter (Get : string -> GetResult Getter).

Definition Get (getter : Getter) (name : string) : GetResult Getter :=
  match getter with MkGetter get => get name end.

Section Filling.

Variable coerce : reflect.type -> reflect.value -> option reflect.value.

(** [field.Value.Zero()], [field.Value.To(got)] and [field.Value.Append(x)]
    on the wrapper of a field, which is never nil. *)
Definition fieldZero (v : Value) : Value * outcome := callZero v.

Definition fieldTo (v : Value) (got : reflect.iface) : Value * outcome :=
  match To coerce (Some v) got with
  | (Some v', o) => (v', o)
  | (None, o) => (v, o)
  end.

Definition fieldAppend (v : Value) (x : reflect.iface) : Value * outcome :=
  match Append coerce (Some v) [x] with
  | (Some v', o) => (v', o)
  | (None, o) => (v, o)
  end.

(** One element of a slice of structs: a new element is made, filled, and
    appended; the error of [Append] is dropped. *)
Definition fillElem (fillFunc : Value -> Getter -> Value * outcome)
  (v : Value) (g : Getter) : Value * outcome :=
  let? p := reflect.New (Typ (ElemTypeInfo v)) orPanic v in
  let elem := V (AnyValue p) in
  match fillFunc elem g with
  | (elem, Done) =>
      let? x := reflect.InterfaceV (WriteValue elem) orPanic v in
      match fieldAppend v x with
      | (v, Panicked p) => (v, Panicked p)
      | (v, Unfinished) => (v, Unfinished)
      | (v, _) => (v, Done)
      end
  | (_, o) => (v, o)
  end.

(** The loop over a slice of getters. *)
Definition fillElems (fillFunc : Value -> Getter -> Value * outcome)
  : Value -> list Getter -> Value * outcome :=
  fix loop (v : Value) (gs : list Getter) {struct gs} : Value * outcome :=
    match gs with
    | [] => (v, Done)
    | g :: gs =>
        match fillElem fillFunc v g with
        | (v, Done) => loop v gs
        | r => r
        end
    end.

(** [fillFunc(field.Value, got[size-1])] when [size > 0]. *)
Definition fillLast (fillFunc : Value -> Getter -> Value * outcome) (v : Value)
  : list Getter -> Value * outcome :=
  fix loop (gs : list Getter) {struct gs} : Value * outcome :=
    match gs with
    | [] => (v, Done)
    | [g] => fillFunc v g
    | _ :: gs => loop gs
    end.

(** The body of the loop of [fill], for one field. *)
Definition fillField (getter : Getter) (keyFunc : Field -> string)
  (fillFunc : Value -> Getter -> Value * outcome) (field : Field) : Value * outcome :=
  let getName := keyFunc field in
  let v := FValue field in
  match Get getter getName with
  | GotGetter got =>
      if IsStruct v then fillFunc v got
      else if IsSlice v && IsStruct (ElemTypeInfo v) then
        match fieldZero v with
        | (v, Done) => fillElem fillFunc v got
        | r => r
        end
      else (v, Fail (ErrNotFillable getName (reflect.Name (FField field))))
  | GotGetters got =>
      if IsSlice v && IsStruct (ElemTypeInfo v) then
        match fieldZero v with
        | (v, Done) => fillElems fillFunc v got
        | r => r
        end
      else if IsStruct v then fillLast fillFunc v got
      else (v, Fail (ErrNotFillable getName (reflect.Name (FField field))))
  | GotOther got => fieldTo v got
  end.

(** [fill]: the fields with the wrappers as the loop leaves them, and the
    first error. *)
Definition fill (getter : Getter) (keyFunc : Field -> string)
  (fillFunc : Value -> Getter -> Value * outcome)
  : list Field -> list Field * outcome :=
  fix loop (fields : list Field) {struct fields} : list Field * outcome :=
    match fields with
    | [] => ([], Done)
    | field :: fields =>
        let '(v, o) := fillField getter keyFunc fillFunc field in
        let field := mkFieldOf v (FField field) (TagValue field) (FSlot field) in
        match o with
        | Done => let '(fields, o) := loop fields in (field :: fields, o)
        | _ => (field :: fields, o)
        end
    end.

(** The struct of [me] once the wrappers of its fields have been written. *)
Definition storeFields (me : Value) (fields : list Field) : Value :=
  foldl (fun me f => storeField me (FSlot f) (TopValue (FValue f))) me fields.

(** [Fill]. The recursion follows the getter. *)
Fixpoint Fill (getter : Getter) (me : option Value) {struct getter}
  : option Value * outcome :=
  match Fields me with
  | (Some me, Ret fields) =>
      let '(fields, o) :=
        fill getter (fun field : Field => reflect.Name (FField field))
          (fun (value : Value) (getter : Getter) =>
             match Fill getter (Some value) with
             | (Some value', o) => (value', o)
             | (None, o) => (value, o)
             end)
          fields in
      (Some (storeFields me fields), o)
  | (me, Ret _) => (me, Done)
  | (me, RetErr e) => (me, Fail e)
  | (me, RetPanic p) => (me, Panicked p)
  end.

(** [FillByTag]. *)
Fixpoint FillByTag (key : string) (getter : Getter) (me : option Value) {struct getter}
  : option Value * outcome :=
  match FieldsByTag me key with
  | (Some me, Ret fields) =>
      let '(fields, o) :=
        fill getter (fun field : Field => TagValue field)
          (fun (value : Value) (getter : Getter) =>
             match FillByTag key getter (Some value) with
             | (Some value', o) => (value', o)
             | (None, o) => (value, o)
             end)
          fields in
      (Some (storeFields me fields), o)
  | (me, Ret _) => (me, Done)
  | (me, RetErr e) => (me, Fail e)
  | (me, RetPanic p) => (me, Panicked p)
  end.

End Filling.

(** What [fieldsLoop] appends for field number [k] of the fields [fs]: the
    descriptor of that field, with a wrapper that cannot be written when the
    field is not exported. *)
Definition fieldOf (fs : list reflect.StructField) (f : Field) (k : nat) : Prop :=
  fs !! k = Some (FField f)
  /\ (reflect.exported (FField f) = false ->
      CanWrite (FValue f) = false /\ methodZero (FValue f) = ZeroUnsupported
      /\ original (FValue f) <> AnyIface None).

(** ** The coercion of strings to integers *)

Definition isSigned (t : reflect.basic) : bool :=
  match t with
  | reflect.TInt | reflect.TInt8 | reflect.TInt16 | reflect.TInt32
  | reflect.TInt64 => true
  | _ => false
  end.

Definition isUnsigned (t : reflect.basic) : bool :=
  match t with
  | reflect.TUint | reflect.TUint8 | reflect.TUint16 | reflect.TUint32
  | reflect.TUint64 | reflect.TUintptr => true
  | _ => false
  end.

(** The value of a decimal digit. *)
Definition digit (c : ascii) : option Z :=
  let n := Z.of_nat (nat_of_ascii c) in
  if ((48 <=? n) && (n <=? 57))%Z then Some (n - 48) else None.

(** The number a string of decimal digits denotes, read after [acc]. *)
Fixpoint readDigits (s : string) (acc : Z) : option Z :=
  match s with
  | EmptyString => Some acc
  | String c rest =>
      match digit c with
      | Some d => readDigits rest (10 * acc + d)
      | None => None
      end
  end.

(** A leading sign, and the rest of the string. *)
Definition splitSign (s : string) : bool * string :=
  match s with
  | String "-"%char rest => (true, rest)
  | String "+"%char rest => (false, rest)
  | _ => (false, s)
  end.

(** The part of a string before its first ['.'], and the part after it when
    there is one. *)
Fixpoint splitPoint (s : string) : string * option string :=
  match s with
  | EmptyString => (EmptyString, None)
  | String "."%char rest => (EmptyString, Some rest)
  | String c rest => let '(i, f) := splitPoint rest in (String c i, f)
  end.

(** Modelled from the spec: the standard decimal grammar of an integer, an
    optional sign and one digit or more. *)
Definition parseInt (s : string) : option Z :=
  let '(neg, body) := splitSign s in
  match body with
  | EmptyString => None
  | _ => (fun n => if neg then - n else n) <$> readDigits body 0
  end.

(** Modelled from the spec: the standard decimal grammar of a float, an
    optional sign, digits, and an optional point followed by digits, with a
    digit on one side of the point at least. The float is the rational the
    text denotes; exponents and the rounding to binary are left out. *)
Definition parseFloat (s : string) : option Q :=
  let '(neg, body) := splitSign s in
  let '(ip, fp) := splitPoint body in
  let fp := default EmptyString fp in
  match (String.length ip + String.length fp)%nat with
  | O => None
  | _ =>
      match readDigits ip 0, readDigits fp 0 with
      | Some i, Some f =>
          let scale := Pos.pow 10 (Pos.of_nat (String.length fp)) in
          let scale := match fp with EmptyString => 1%positive | _ => scale end in
          let n := i * Z.pos scale + f in
          Some (Qmake (if neg then - n else n) scale)
      | _, _ => None
      end
  end.

(** Truncation toward zero. *)
Definition truncate (q : Q) : Z := Z.quot (Qnum q) (Z.pos (Qden q)).

(** Modelled from the spec: the coercion of a string to an integer type
    (section 4.4 and the truncation scenario; the coercion primitives are
    not among the sources). The string is parsed as an integer; one that
    does not parse as an integer but parses as a float is parsed as a float
    and truncated toward zero; a negative number gives 0 for an unsigned
    type; a string that parses as neither is a coercion fault. The width of
    the integer type is not modelled. *)
Definition coerceStringToInt (t : reflect.basic) (s : string) : option reflect.value :=
  let n := match parseInt s with
           | Some n => Some n
           | None => truncate <$> parseFloat s
           end in
  (fun n => reflect.VInt t (if isUnsigned t && (n <? 0)%Z then 0 else n)) <$> n.

(** Modelled from the spec: [coerce], with the coercion of strings to
    integers as the spec gives it and every other coercion left to
    [other]. *)
Definition coerceWith (other : reflect.type -> reflect.value -> option reflect.value)
  (T : reflect.type) (data : reflect.value) : option reflect.value :=
  match T, data with
  | reflect.Basic t, reflect.VString s =>
      if isSigned t || isUnsigned t then coerceStringToInt t s else other T data
  | _, _ => other T data
  end.

(** ** Values used in the examples *)

Definition intT : reflect.type := reflect.Basic reflect.TInt.
Definition stringT : reflect.type := reflect.Basic reflect.TString.
Definition vint (n : Z) : reflect.value := reflect.VInt reflect.TInt n.

(** [&x] for a variable holding [x]. *)
Definition addressOf (x : reflect.value) : any :=
  AnyIface (Some (reflect.VPtr (reflect.typeof x) (Some x))).

(** A coercion that rejects everything. *)
Definition noCoerce : reflect.type -> reflect.value -> option reflect.value :=
  fun _ _ => None.

(** [var n int = 7; V(&n)]. *)
Definition intVar : Value := V (addressOf (vint 7)).

(** [s := []int{9}; V(&s)]. *)
Definition sliceVar : Value := V (addressOf (reflect.VSlice intT [vint 9])).

(** [var x interface{}; V(&x)]. *)
Definition ifaceVar : Value := V (addressOf (reflect.VIface None)).

(** [var c chan int; V(&c)], and a channel made with [make(chan int)]. *)
Definition chanVar : Value := V (addressOf (reflect.VChan intT None)).
Definition someChan : reflect.value := reflect.VChan intT (Some 1%nat).

(** [var u uint32; V(&u)]. *)
Definition uint32Var : Value := V (addressOf (reflect.VInt reflect.TUint32 0)).

(** [m := map[string]int{}; V(&m)]. *)
Definition mapVar : Value := V (addressOf (reflect.VMap stringT intT [])).

(** [[]int{1, 2, 3}] and [[]interface{}{1, "a"}]. *)
Definition threeInts : reflect.value := reflect.VSlice intT [vint 1; vint 2; vint 3].
Definition intThenString : reflect.value :=
  reflect.VSlice reflect.InterfaceT
    [reflect.VIface (Some (vint 1)); reflect.VIface (Some (reflect.VString "a"))].

(** [y] is what [appendSupported] appends for [item] to a slice of element
    type [E]: the variable a fresh pointer to the element type points at,
    once [To] has accepted the item for it. *)
Definition appended (coerce : reflect.type -> reflect.value -> option reflect.value)
  (me : Value) (E : reflect.type) (item : reflect.iface) (y : reflect.value) : Prop :=
  exists elem elemAsValue x addr ro,
    reflect.New (ElemType me) = Some elem
    /\ To coerce (Some (V (AnyValue elem))) item = (Some elemAsValue, Done)
    /\ reflect.Indirect (TopValue elemAsValue) = Some (reflect.Val x addr ro)
    /\ y = reflect.stored (reflect.zero E) x.

(** [type person struct { Name string; age int }], declared in a package
    [p]: the second field is not exported. *)
Definition personFields : list reflect.StructField :=
  [reflect.mkField "Name" "" stringT []; reflect.mkField "age" "p" intT []].
Definition personT : reflect.type := reflect.StructOf personFields.
Definition person : reflect.value :=
  reflect.VStruct personFields [reflect.VString ""; vint 0].

(** [var x person; V(&x)]. *)
Definition personVar : Value := V (addressOf person).

(** A getter with a value for each of the two names. *)
Definition personGetter : Getter :=
  MkGetter (fun name =>
    if String.eqb name "Name" then GotOther (Some (reflect.VString "Bob"))
    else if String.eqb name "age" then GotOther (Some (vint 42))
    else GotOther None).

(** ** What the further properties are about *)

(** The wrapper [me] with other storage: everything but [TopValue] and
    [WriteValue] is as in [me]. *)
Definition withStorage (me : Value) (top w : reflect.Value) : Value :=
  {| info := info me; CanWrite := CanWrite me; TopValue := top; WriteValue := w;
     ElemTypeInfo := ElemTypeInfo me; original := original me;
     methodAppend := methodAppend me; methodFields := methodFields me;
     methodFieldsByTag := methodFieldsByTag me;
     methodNewElem := methodNewElem me; methodZero := methodZero me |}.

(** [n := 7; V(n)]: the wrapper of a copy, which cannot be written. *)
Definition intCopy : Value := V (AnyIface (Some (vint 7))).

(** [type account struct { ID int `json:"id"`; Owner *person; note *int }],
    declared in package [p], and [var a account; V(&a)]. *)
Definition accountFields : list reflect.StructField :=
  [reflect.mkField "ID" "" intT [("json", "id")];
   reflect.mkField "Owner" "" (reflect.PtrTo personT) [];
   reflect.mkField "note" "p" (reflect.PtrTo intT) []].
Definition account : reflect.value :=
  reflect.VStruct accountFields
    [vint 0; reflect.VPtr personT None; reflect.VPtr intT None].
Definition accountVar : Value := V (addressOf account).

(** What a nil pointer to [E] points at once every level of its chain has
    been given a fresh zero variable. *)
Fixpoint newChain (E : reflect.type) : reflect.value :=
  match E with
  | reflect.PtrTo E' => reflect.VPtr E' (Some (newChain E'))
  | _ => reflect.zero E
  end.

(** The entry of [Fields] for field number [k] of a struct held with the
    flags [addr] and [ro]: the wrapper of [WriteValue.Field(k)] beside
    [Type.Field(k)]. *)
Definition fieldEntry (fs : list reflect.StructField) (vals : list reflect.value)
  (addr ro : bool) (fld : Field) (k : nat) : Prop :=
  exists f x,
    fs !! k = Some f /\ vals !! k = Some x
    /\ fld = mkFieldOf
               (V (AnyValue (reflect.Val x addr (ro || negb (reflect.exported f)))))
               f "" k.

(** How [fill] leaves a field it has visited: the wrapper as the visit left
    it, beside the same descriptor, tag value and position. *)
Definition visited (f : Field) (v : Value) : Field :=
  mkFieldOf v (FField f) (TagValue f) (FSlot f).



(** A getter that answers every key with a plain value, [get] of the key. *)
Definition valueGetter (get : string -> reflect.value) : Getter :=
  MkGetter (fun name => GotOther (Some (get name))).

(** What [Fill] needs of a field to assign it the getter's value directly:
    the field is exported, it is neither a pointer, a slice nor an
    interface, and the getter's value for its name has the field's type. *)
Definition assignable (get : string -> reflect.value) (f : reflect.StructField)
  : Prop :=
  reflect.exported f = true
  /\ reflect.KindOf (reflect.Typ f) <> reflect.Ptr
  /\ reflect.KindOf (reflect.Typ f) <> reflect.Slice
  /\ reflect.KindOf (reflect.Typ f) <> reflect.Interface
  /\ reflect.typeof (get (reflect.Name f)) = reflect.Typ f.

(** [x.Interface()] for an element [x] of a slice that was not reached
    through an unexported field. *)
Definition asIface (x : reflect.value) : reflect.iface :=
  match x with reflect.VIface d => d | _ => Some x end.

(** The sources [To] takes, in order, for a slice destination: none for a
    nil source or one that resolves to a nil pointer, the elements of a
    slice source, and otherwise the source itself. *)
Definition sourceItems (arg : reflect.iface) : list reflect.iface :=
  match arg ≫= resolveData with
  | None => []
  | Some _ =>
      if IsSlice (Stat arg) then
        match arg with
        | Some (reflect.VSlice _ l) => asIface <$> l
        | _ => []
        end
      else [arg]
  end.

(** [y] is the element the slice branch of [To] appends for the source
    [item] to a slice of element type [E], on a wrapper with [ElemType]
    [T]: what [To] leaves in the wrapper of a new [T] for [item]. *)
Definition converted (coerce : reflect.type -> reflect.value -> option reflect.value)
  (T : option reflect.type) (E : reflect.type) (item : reflect.iface)
  (y : reflect.value) : Prop :=
  exists p pi elem x a r,
    reflect.New T = Some p /\ reflect.InterfaceV p = Some pi
    /\ To coerce (Some (V (AnyIface pi))) item = (Some elem, Done)
    /\ WriteValue elem = reflect.Val x a r
    /\ y = reflect.stored (reflect.zero E) x.




(** * Properties *)

(** ** Types *)

Section TypeFacts.
Import reflect.

(** Induction on types that reaches the field types of a struct. *)
Lemma type_nested_ind (P : type -> Prop)
  (HBasic : forall k, P (Basic k))
  (HPtr : forall t, P t -> P (PtrTo t))
  (HSlice : forall t, P t -> P (SliceOf t))
  (HArray : forall n t, P t -> P (ArrayOf n t))
  (HMap : forall k v, P k -> P v -> P (MapOf k v))
  (HChan : forall t, P t -> P (ChanOf t))
  (HFunc : P FuncT)
  (HIface : P InterfaceT)
  (HStruct : forall fs, Forall (fun f => P (Typ f)) fs -> P (StructOf fs)) :
  forall t, P t.
Proof.
  fix IH 1. intros [k|t|t|n t|k v|t| | |fs].
  - apply HBasic.
  - apply HPtr, IH.
  - apply HSlice, IH.
  - apply HArray, IH.
  - apply HMap; apply IH.
  - apply HChan, IH.
  - apply HFunc.
  - apply HIface.
  - apply HStruct.
    revert fs. fix IHfs 1. intros [|f r].
    + constructor.
    + constructor; [destruct f as [n p t g]; apply IH | apply IHfs].
Qed.

Lemma type_eqb_refl (T : type) : type_eqb T T = true.
Proof.
  induction T using type_nested_ind; simpl;
    rewrite ?bool_decide_eq_true_2, ?Nat.eqb_refl by reflexivity;
    try reflexivity; try assumption.
  - rewrite IHT1, IHT2. reflexivity.
  - induction H as [|f r Hf Hr IHr]; [reflexivity|]. simpl.
    rewrite !String.eqb_refl, bool_decide_eq_true_2 by reflexivity.
    rewrite Hf, IHr. reflexivity.
Qed.

Lemma type_eqb_eq (A B : type) : type_eqb A B = true -> A = B.
Proof.
  revert B. induction A using type_nested_ind; intros [] HE; simpl in HE;
    try discriminate; try reflexivity.
  - apply bool_decide_eq_true_1 in HE. congruence.
  - f_equal; auto.
  - f_equal; auto.
  - apply andb_prop in HE as [Hn Ht]. apply Nat.eqb_eq in Hn. f_equal; auto.
  - apply andb_prop in HE as [Hk Hv]. f_equal; auto.
  - f_equal; auto.
  - f_equal. revert fs0 HE.
    induction H as [|f r Hf Hr IHr]; intros [|f' r'] HE; try discriminate;
      [reflexivity|].
    simpl in HE. apply andb_prop in HE as [HE Hrest].
    apply andb_prop in HE as [HE Ht]. apply andb_prop in HE as [HE Hg].
    apply andb_prop in HE as [Hn Hp].
    destruct f as [n p t g], f' as [n' p' t' g']; simpl in *.
    apply String.eqb_eq in Hn. apply String.eqb_eq in Hp.
    apply bool_decide_eq_true_1 in Hg. apply Hf in Ht.
    f_equal; [congruence | apply IHr; assumption].
Qed.

Lemma AssignableTo_refl (T : type) : AssignableTo T T = true.
Proof. unfold AssignableTo. rewrite type_eqb_refl. reflexivity. Qed.

End TypeFacts.

(** ** The cache on a store *)

Section StoreFacts.
Import store.

Lemma describe_fields (T : reflect.type) :
  StructFields (describe reflect.Struct T) = reflect.Fields T.
Proof.
  unfold describe. simpl. unfold reflect.NumField.
  generalize (reflect.Fields T). intros fs.
  assert (H : forall (pre l : list reflect.StructField) acc,
             foldl (fun acc k => acc ++ option_list ((pre ++ l) !! k)) acc
                   (seq (length pre) (length l)) = acc ++ l).
  { intros pre l. revert pre. induction l as [|f l IH]; intros pre acc; simpl.
    - rewrite app_nil_r. reflexivity.
    - rewrite list_lookup_middle by reflexivity. simpl.
      replace (pre ++ f :: l) with ((pre ++ [f]) ++ l) by (rewrite <- app_assoc; reflexivity).
      replace (S (length pre)) with (length (pre ++ [f])) by (rewrite length_app; simpl; lia).
      rewrite IH, <- app_assoc. reflexivity. }
  apply (H [] fs []).
Qed.

Lemma scratch_no_nil (T : reflect.type) (l : loc) :
  Forall (fun c => cellVal c <> Pointer None) (scratch l T).
Proof.
  revert l. induction T; intros l; simpl; repeat constructor; simpl;
    try discriminate; auto.
Qed.

Lemma load_last (h0 : heap) (T : reflect.type) (c : content) :
  load (h0 ++ [mkCell T c]) (At T (length h0)) = Some c.
Proof. unfold load. rewrite list_lookup_middle by reflexivity. reflexivity. Qed.

Lemma resolve_at (T : reflect.type) (h0 : heap) :
  exists V, resolve (h0 ++ [mkCell T (zeroContent T)]) T (At T (length h0))
            = Some (h0 ++ scratch (length h0) T, chainEnd T, V).
Proof.
  revert h0. induction T; intros h0; try (eexists; reflexivity).
  cbn [resolve zeroContent scratch chainEnd].
  unfold IsNil. rewrite load_last. cbn [CanSet andb New Set_ load].
  set (h1 := h0 ++ [mkCell (reflect.PtrTo T) (Pointer (Some (S (length h0))))]).
  assert (E : <[length h0:=mkCell (reflect.PtrTo T)
                  (Pointer (Some (length (h0 ++ [mkCell (reflect.PtrTo T) (Pointer None)]))))]>
                ((h0 ++ [mkCell (reflect.PtrTo T) (Pointer None)]) ++ [mkCell T (zeroContent T)])
              = h1 ++ [mkCell T (zeroContent T)]).
  { unfold h1. rewrite <- !app_assoc.
    rewrite (insert_app_r_alt h0) by lia. rewrite Nat.sub_diag.
    rewrite length_app. simpl. repeat f_equal. lia. }
  rewrite E. clear E.
  assert (EL : Elem (h1 ++ [mkCell T (zeroContent T)]) T (At (reflect.PtrTo T) (length h0))
               = At T (length h1)).
  { unfold Elem, h1, load. rewrite <- app_assoc. cbn [app].
    rewrite list_lookup_middle by reflexivity. cbn [fmap option_fmap option_map cellVal].
    rewrite length_app. simpl. f_equal. lia. }
  rewrite EL. destruct (IHT h1) as [V HV]. rewrite HV. exists V.
  unfold h1. rewrite <- app_assoc, length_app. simpl.
  replace (length h0 + 1)%nat with (S (length h0)) by lia. reflexivity.
Qed.

Lemma Load_cacheOk (c : cache) (T : reflect.type) (rv : TypeInfo) :
  cacheOk c -> Load c T = Some rv -> rv = statInfo (Some T).
Proof.
  unfold cacheOk. induction 1 as [|[T' rv'] c He Hc IH]; simpl; [discriminate|].
  destruct (reflect.type_eqb T' T) eqn:E; [|exact IH].
  intros [= <-]. apply type_eqb_eq in E. subst T'. exact He.
Qed.

(** [StatType] always returns; it only appends cells to the store. *)
Lemma StatType_run (h : heap) (c : cache) (T : option reflect.type) :
  exists c' rv, StatType h c T = Some (h ++ allocated h c T, c', rv)
    /\ (cacheOk c -> rv = statInfo T /\ cacheOk c').
Proof.
  destruct T as [T|]; simpl.
  2:{ exists c, zeroTypeInfo. rewrite app_nil_r. split; [reflexivity|]. intros H; split; [reflexivity|exact H]. }
  destruct (Load c T) as [rv|] eqn:EL.
  - exists c, rv. rewrite app_nil_r. split; [reflexivity|].
    intros H. split; [eapply Load_cacheOk; eassumption | exact H].
  - unfold IsNil. simpl.
    unfold Elem. simpl.
    destruct (resolve_at T h) as [V HV]. rewrite HV.
    eexists _, _. split; [reflexivity|].
    intros H. split; [reflexivity|]. constructor; [reflexivity | exact H].
Qed.

(** C7, as the code has it. [Stat] reads the dynamic type of its argument
    and nothing else: it always returns, every cell of the caller's store is
    after the call what it was before (a nil pointer the caller holds stays
    nil), and the only storage it allocates is for the value it creates
    itself with [reflect.New] on a cache miss, where every pointer of that
    fresh chain is nil and settable and is therefore set. On a cache hit and
    for a nil argument nothing is allocated. *)
Theorem Stat_allocates_only_its_own_chain
  (h : heap) (c : cache) (a : iface) :
  exists c' rv,
    Stat h c a = Some (h ++ allocated h c (TypeOf a), c', rv)
    /\ (forall l x, h !! l = Some x -> (h ++ allocated h c (TypeOf a)) !! l = Some x)
    /\ Forall (fun x => cellVal x <> Pointer None) (allocated h c (TypeOf a)).
Proof.
  unfold Stat. destruct (StatType_run h c (TypeOf a)) as (c' & rv & HS & _).
  exists c', rv. split; [exact HS|]. split.
  - intros l x Hl. rewrite lookup_app_l; [exact Hl|].
    eapply lookup_lt_Some; eassumption.
  - unfold allocated. destruct (TypeOf a) as [T|]; [|constructor].
    destruct (Load c T); [constructor | apply scratch_no_nil].
Qed.

(** C7 fails as stated. The caller holds [var p *int] (nil, addressable, so
    settable) in cell 0 and calls [Stat(&p)] on an empty cache: were the
    caller's chain allocated, [p] would be non-nil afterwards. It is still
    nil. *)
Lemma Stat_caller_pointer_stays_nil :
  let intT := reflect.Basic reflect.TInt in
  let h := [mkCell (reflect.PtrTo intT) (Pointer None)] in
  let a : iface := Some (reflect.PtrTo (reflect.PtrTo intT), Pointer (Some 0%nat)) in
  ~ (forall h' c' rv,
       Stat h [] a = Some (h', c', rv) ->
       IsNil h' (At (reflect.PtrTo intT) 0) = Some false).
Proof.
  intros intT h a H.
  specialize (H _ _ _ eq_refl). vm_compute in H. discriminate H.
Qed.

End StoreFacts.

(** ** Values and variables *)

Lemma typeof_zero (T : reflect.type) : reflect.typeof (reflect.zero T) = T.
Proof.
  destruct T as [[]| | | | | | | |]; simpl; try reflexivity.
  rewrite length_replicate. reflexivity.
Qed.

Lemma Interface_kind (T : reflect.type) :
  reflect.KindOf T = reflect.Interface -> T = reflect.InterfaceT.
Proof. destruct T as [[]| | | | | | | |]; simpl; intros H; congruence. Qed.

Lemma stored_typeof (old new : reflect.value) :
  reflect.AssignableTo (reflect.typeof new) (reflect.typeof old) = true ->
  reflect.typeof (reflect.stored old new) = reflect.typeof old.
Proof.
  unfold reflect.AssignableTo. intros H.
  apply orb_prop in H as [H|H].
  - apply type_eqb_eq in H. destruct old; simpl in *; try exact H.
    destruct new; simpl in *; congruence.
  - apply bool_decide_eq_true_1, Interface_kind in H.
    destruct old; simpl in H; try discriminate. destruct new; reflexivity.
Qed.

Lemma stored_zero (old : reflect.value) :
  reflect.stored old (reflect.zero (reflect.typeof old))
  = reflect.zero (reflect.typeof old).
Proof. destruct old; simpl; try reflexivity; destruct t; reflexivity. Qed.

Lemma SetV_inv (v x w : reflect.Value) :
  reflect.SetV v x = Some w ->
  exists old new addr ro a r,
    v = reflect.Val old addr ro /\ x = reflect.Val new a r
    /\ reflect.CanSet v = true
    /\ reflect.AssignableTo (reflect.typeof new) (reflect.typeof old) = true
    /\ w = reflect.Val (reflect.stored old new) addr ro.
Proof.
  destruct v as [|old addr ro], x as [|new a r]; try discriminate.
  unfold reflect.SetV.
  destruct (reflect.CanSet (reflect.Val old addr ro)) eqn:EC; [|discriminate].
  destruct (reflect.AssignableTo _ _) eqn:EA; [|discriminate].
  intros [= <-]. exists old, new, addr, ro, a, r. repeat split; assumption.
Qed.

(** ** Wrappers *)

Lemma describe_Typ (K : reflect.Kind) (T : reflect.type) :
  Typ (describe K T) = Some T.
Proof. reflexivity. Qed.

Lemma describe_Kind (K : reflect.Kind) (T : reflect.type) :
  Kind (describe K T) = K.
Proof. reflexivity. Qed.

Lemma setWriteValue_WriteValue (me : Value) (w : reflect.Value) :
  WriteValue (setWriteValue me w) = w.
Proof. reflexivity. Qed.

Lemma setWriteValue_Wrapper (me : Value) (x y : reflect.value) (addr ro : bool) :
  Wrapper me ->
  WriteValue me = reflect.Val x addr ro ->
  reflect.typeof y = reflect.typeof x ->
  Wrapper (setWriteValue me (reflect.Val y addr ro)).
Proof.
  intros [Hz Hc Ho Hi] Hw Ht. constructor; simpl.
  - exact Hz.
  - rewrite Hc, Hw. reflexivity.
  - exact Ho.
  - intros x' a' r' [= <- <- <-]. rewrite Ht. eapply Hi. exact Hw.
Qed.

Lemma Wrapper_writable (me : Value) :
  Wrapper me -> CanWrite me = true ->
  exists x addr ro,
    WriteValue me = reflect.Val x addr ro
    /\ reflect.CanSet (WriteValue me) = true
    /\ Typ me = Some (reflect.typeof x).
Proof.
  intros [Hz Hc Ho Hi] Hw. rewrite Hc in Hw.
  destruct (WriteValue me) as [|x addr ro] eqn:E; [discriminate|].
  exists x, addr, ro. repeat split; [assumption|].
  rewrite (Hi _ _ _ eq_refl). reflexivity.
Qed.

(** On a wrapper that can be written, the call of the zero slot succeeds and
    leaves the zero value of the destination's type. *)
Lemma callZero_writable (me : Value) :
  Wrapper me -> CanWrite me = true ->
  exists x addr ro,
    WriteValue me = reflect.Val x addr ro
    /\ callZero me
       = (setWriteValue me (reflect.Val (reflect.zero (reflect.typeof x)) addr ro), Done).
Proof.
  intros HW Hw. destruct (Wrapper_writable me HW Hw) as (x & addr & ro & Ex & Hc & HT).
  exists x, addr, ro. split; [exact Ex|].
  unfold callZero. rewrite (wrapper_zero me HW), Hw.
  unfold zeroSupported. rewrite HT. simpl. rewrite Ex in *.
  unfold reflect.SetV. rewrite Hc, typeof_zero, AssignableTo_refl, stored_zero.
  reflexivity.
Qed.

Lemma callZero_atZero (me : Value) :
  Wrapper me -> CanWrite me = true ->
  Wrapper (fst (callZero me)) /\ CanWrite (fst (callZero me)) = true
  /\ atZero (fst (callZero me)) /\ snd (callZero me) = Done
  /\ ElemType (fst (callZero me)) = ElemType me.
Proof.
  intros HW Hw. destruct (callZero_writable me HW Hw) as (x & addr & ro & Ex & ->).
  cbn [fst snd].
  split; [|split; [|split; [|split]]]; try reflexivity; try exact Hw.
  - eapply setWriteValue_Wrapper; [exact HW | exact Ex | apply typeof_zero].
  - exists (reflect.typeof x), addr, ro. split; [|reflexivity].
    destruct (Wrapper_writable me HW Hw) as (x' & a' & r' & Ex' & _ & HT).
    simpl. rewrite HT. congruence.
Qed.

Lemma SetV_Wrapper (me : Value) (x w : reflect.Value) :
  Wrapper me -> reflect.SetV (WriteValue me) x = Some w ->
  Wrapper (setWriteValue me w).
Proof.
  intros HW HS.
  destruct (SetV_inv _ _ _ HS) as (old & new & addr & ro & a & r & Ev & -> & _ & HA & ->).
  eapply setWriteValue_Wrapper; [exact HW | exact Ev | apply stored_typeof, HA].
Qed.

Lemma chainStore_zero (T : reflect.type) :
  chainStore (reflect.zero T) (reflect.zero T) = reflect.zero T.
Proof. destruct T as [[]| | | | | | | |]; reflexivity. Qed.

Lemma chainStore_zero_idem (T : reflect.type) : forall t : reflect.value,
  chainStore (chainStore t (reflect.zero T)) (reflect.zero T)
  = chainStore t (reflect.zero T).
Proof.
  fix IH 1. intros t.
  destruct t; simpl; try apply chainStore_zero.
  destruct p as [y|]; simpl; [rewrite IH|]; reflexivity.
Qed.

Lemma chainValue_typeof (T : reflect.type) : forall x addr cs ro y a r,
  reflect.typeof x = T -> chainTyped x ->
  chainValue addr ro (instantiate T cs ro x) = reflect.Val y a r ->
  reflect.typeof y = chainEnd T.
Proof.
  induction T; intros x addr cs ro y a r HT Hc;
    try (destruct x; simpl in HT; try discriminate; simpl; intros [= <- <- <-];
         simpl; congruence).
  destruct x as [| | | | |E p| | | | | | |]; simpl in HT; try discriminate.
  injection HT as ->. simpl. destruct p as [z|].
  - destruct Hc as [Hz Hc]. simpl. apply IHT; assumption.
  - destruct cs; simpl; [|discriminate].
    apply IHT; [apply typeof_zero|]. destruct T as [[]| | | | | | | |]; exact I.
Qed.

(** [V] makes a wrapper. *)
Lemma V_Wrapper (arg : any) : anyTyped arg -> Wrapper (V arg).
Proof.
  intros Ht.
  assert (H : forall x addr ro, chainTyped x ->
            (arg = AnyIface (Some x) /\ addr = false /\ ro = false
             \/ arg = AnyValue (reflect.Val x addr ro)) ->
            Wrapper (V arg)).
  { intros x addr ro Hc Harg.
    assert (EV : V arg =
      let '(top, w, ti, canWrite) := Writable (reflect.Val x addr ro) in
      let container := IsMap ti || IsSlice ti in
      {| info := ti; CanWrite := canWrite; TopValue := top; WriteValue := w;
         ElemTypeInfo := if container then StatType (ElemType ti) else zeroTypeInfo;
         original := arg;
         methodAppend := if IsSlice ti then AppendSupported else AppendUnsupported;
         methodFields := if IsStruct ti then FieldsSupported else FieldsUnsupported;
         methodFieldsByTag :=
           if IsStruct ti then FieldsByTagSupported else FieldsByTagUnsupported;
         methodNewElem := if container then NewElemSupported else NewElemUnsupported;
         methodZero := if canWrite then ZeroSupported else ZeroUnsupported |}).
    { destruct Harg as [(-> & -> & ->)| ->]; reflexivity. }
    rewrite EV. cbn [Writable]. constructor; cbn.
    - reflexivity.
    - reflexivity.
    - intros _. destruct Harg as [(-> & _)| ->]; discriminate.
    - intros y a r Hy. apply chainValue_typeof in Hy; [|reflexivity|exact Hc].
      rewrite Hy. reflexivity. }
  destruct arg as [[x|]|[|x addr ro]].
  - apply (H x false false Ht). left. auto.
  - constructor; cbn; try reflexivity; discriminate.
  - constructor; cbn; try reflexivity; discriminate.
  - apply (H x addr ro Ht). right. reflexivity.
Qed.

(** ** Coercing assignment *)

Section ToFacts.

Variable coerce : reflect.type -> reflect.value -> option reflect.value.

Lemma toSlice_fail_zero to slice ks : forall me me' e,
  Wrapper me -> CanWrite me = true ->
  toSlice to slice ks me = (me', Fail e) -> atZero me'.
Proof.
  induction ks as [|k ks IH]; intros me me' e HW Hw; simpl; [discriminate|].
  unfold reflectCall.
  destruct (reflect.New (ElemType me)) as [p|]; [|discriminate].
  destruct (reflect.InterfaceV p) as [pi|]; [|discriminate].
  destruct (reflect.Index slice k) as [x|]; [|discriminate].
  destruct (reflect.InterfaceV x) as [xi|]; [|discriminate].
  destruct (to (V (AnyIface pi)) xi) as [elem [|err|pn|]]; try discriminate.
  - destruct (reflect.Append (WriteValue me) (WriteValue elem)) as [s|]; [|discriminate].
    destruct (reflect.SetV (WriteValue me) s) as [w|] eqn:ES; [|discriminate].
    apply IH; [eapply SetV_Wrapper; eassumption | exact Hw].
  - intros [= <- <-]. apply callZero_atZero; assumption.
Qed.

Lemma toAssign_fail_zero to dti me arg me' e :
  Wrapper me -> CanWrite me = true -> atZero me ->
  (forall a me2 e2, to me a = (me2, Fail e2) -> atZero me2) ->
  toAssign coerce to dti me arg = (me', Fail e) -> atZero me'.
Proof.
  intros HW Hw HZ Hto. unfold toAssign, reflectCall.
  destruct (_ || _); [discriminate|].
  destruct (Typ dti) as [dT|]; [|discriminate].
  destruct (Typ me) as [meT|]; [|discriminate].
  destruct (_ && _).
  { destruct (reflect.SetV _ _); discriminate. }
  destruct (arg ≫= resolveData) as [data|]; [|discriminate].
  destruct (IsSlice me).
  { destruct (reflect.Len _) as [size|]; [|discriminate].
    apply toSlice_fail_zero; assumption. }
  destruct (bool_decide _).
  { destruct (reflect.Len _) as [len|]; [|discriminate].
    destruct (0 <? len)%nat; [|discriminate].
    destruct (reflect.Index _ _) as [x|]; [|discriminate].
    destruct (reflect.InterfaceV x) as [xi|]; [|discriminate].
    apply Hto. }
  destruct (reflect.TypeV _) as [dst|]; [|discriminate].
  destruct (coerce dst data) as [r|].
  - destruct (reflect.SetV _ _); discriminate.
  - intros [= <- <-]. exact HZ.
Qed.

(** An error from [To] leaves the destination at zero, whatever the bound. *)
Lemma To_fuel_fail_zero n : forall me arg me' e,
  Wrapper me -> CanWrite me = true ->
  To_fuel coerce n me arg = (me', Fail e) -> atZero me'.
Proof.
  induction n as [|n IH]; intros me arg me' e HW Hw; simpl; [discriminate|].
  pose proof (wrapper_original me HW Hw) as Ho.
  destruct (callZero_atZero me HW Hw) as (HW1 & Hw1 & HZ1 & Hd & _).
  destruct (callZero me) as [me1 o]. simpl in *. subst o.
  destruct (original me) as [[a|]|rv]; try congruence.
  - apply toAssign_fail_zero; try assumption.
    intros a' me2 e2. apply IH; assumption.
  - apply toAssign_fail_zero; try assumption.
    intros a' me2 e2. apply IH; assumption.
Qed.


(** *** The recursion bound of [To] *)

Lemma statInfo_elem_size (T : reflect.type) :
  (otsize (ElemType (statInfo (Some T))) < reflect.tsize T)%nat.
Proof.
  induction T as [b| | | | | | | |]; simpl in *; try lia.
  destruct b; simpl; lia.
Qed.

Lemma V_info (x : reflect.value) :
  info (V (AnyIface (Some x))) = statInfo (Some (reflect.typeof x)).
Proof. reflexivity. Qed.

Lemma elem_bound (T : option reflect.type) (p : reflect.Value) (pi : reflect.iface) :
  reflect.New T = Some p -> reflect.InterfaceV p = Some pi ->
  (otsize (ElemType (V (AnyIface pi))) < otsize T)%nat.
Proof.
  destruct T as [E|]; [|discriminate]. intros [= <-] [= <-].
  rewrite V_info. apply (statInfo_elem_size E).
Qed.

Lemma vsize_lookup (l : list reflect.value) (k : nat) (y : reflect.value) :
  l !! k = Some y -> (reflect.vsize y <= list_sum (map reflect.vsize l))%nat.
Proof.
  revert k. induction l as [|z l IH]; intros [|k]; simpl; try discriminate.
  - intros [= ->]. lia.
  - intros H. apply IH in H. lia.
Qed.

Lemma Index_Interface_size v a r k x xi :
  reflect.Index (reflect.Val v a r) k = Some x ->
  reflect.InterfaceV x = Some xi ->
  (isize xi < reflect.vsize v)%nat.
Proof.
  destruct v; simpl; try discriminate;
    (destruct (l !! k) as [y|] eqn:Hk; [|discriminate]);
    intros [= <-]; simpl; destruct r; try discriminate;
    intros [= <-]; apply vsize_lookup in Hk;
    destruct y as [| | | | | | | | | | |[d|]|]; simpl in *; lia.
Qed.

Lemma resolveData_size : forall v data : reflect.value,
  resolveData v = Some data -> (reflect.vsize data <= reflect.vsize v)%nat.
Proof.
  fix IH 1. intros v data.
  destruct v; simpl; try (intros [= <-]; simpl; lia).
  destruct p as [x|]; [|discriminate].
  intros H. apply IH in H. lia.
Qed.


Lemma callZero_info (me : Value) :
  info (fst (callZero me)) = info me.
Proof.
  unfold callZero, zeroSupported, zeroUnsupported, reflectCall.
  destruct (methodZero me); [|reflexivity].
  destruct (reflect.ZeroV (Typ me)); [|reflexivity].
  destruct (reflect.SetV _ _); reflexivity.
Qed.

Lemma callZero_finished (me : Value) : snd (callZero me) <> Unfinished.
Proof.
  unfold callZero, zeroSupported, zeroUnsupported, reflectCall.
  destruct (methodZero me); [|discriminate].
  destruct (reflect.ZeroV (Typ me)); [|discriminate].
  destruct (reflect.SetV _ _); discriminate.
Qed.

Lemma toSlice_stable f g slice ks B : forall me : Value,
  (forall me' a, (toBound me' a <= B)%nat ->
                 f me' a = g me' a /\ snd (g me' a) <> Unfinished) ->
  (forall k x xi, reflect.Index slice k = Some x -> reflect.InterfaceV x = Some xi ->
                  (otsize (ElemType me) + isize xi <= B)%nat) ->
  toSlice f slice ks me = toSlice g slice ks me
  /\ snd (toSlice g slice ks me) <> Unfinished.
Proof.
  induction ks as [|k ks IH]; intros me Hfg Hsz; simpl; [split; [reflexivity|discriminate]|].
  unfold reflectCall.
  destruct (reflect.New (ElemType me)) as [p|] eqn:Ep; [|split; [reflexivity|discriminate]].
  destruct (reflect.InterfaceV p) as [pi|] eqn:Epi; [|split; [reflexivity|discriminate]].
  destruct (reflect.Index slice k) as [x|] eqn:Ex; [|split; [reflexivity|discriminate]].
  destruct (reflect.InterfaceV x) as [xi|] eqn:Exi; [|split; [reflexivity|discriminate]].
  assert (HB : (toBound (V (AnyIface pi)) xi <= B)%nat).
  { unfold toBound. pose proof (elem_bound _ _ _ Ep Epi).
    pose proof (Hsz _ _ _ Ex Exi). lia. }
  destruct (Hfg _ _ HB) as [Efg Hfin]. rewrite Efg.
  destruct (g (V (AnyIface pi)) xi) as [elem [|err|pn|]]; simpl in Hfin;
    try (split; [reflexivity|discriminate]); [|congruence].
  destruct (reflect.Append _ _) as [sl|]; [|split; [reflexivity|discriminate]].
  destruct (reflect.SetV _ _) as [w|]; [|split; [reflexivity|discriminate]].
  apply IH; assumption.
Qed.

Lemma toAssign_stable f g dti (me : Value) arg B :
  (forall me' a, (toBound me' a <= B)%nat ->
                 f me' a = g me' a /\ snd (g me' a) <> Unfinished) ->
  (toBound me arg <= S B)%nat ->
  toAssign coerce f dti me arg = toAssign coerce g dti me arg
  /\ snd (toAssign coerce g dti me arg) <> Unfinished.
Proof.
  intros Hfg HB. unfold toAssign, reflectCall.
  destruct (_ || _); [split; [reflexivity|discriminate]|].
  destruct (Typ dti) as [dT|]; [|split; [reflexivity|discriminate]].
  destruct (Typ me) as [meT|]; [|split; [reflexivity|discriminate]].
  destruct (_ && _).
  { destruct (reflect.SetV _ _); split; try reflexivity; discriminate. }
  destruct arg as [v|]; [|split; [reflexivity|discriminate]].
  cbn [mbind option_bind].
  destruct (resolveData v) as [data|] eqn:Ed; [|split; [reflexivity|discriminate]].
  unfold toBound in HB. cbn [isize] in HB.
  destruct (IsSlice me).
  { destruct (reflect.Len _) as [size|]; [|split; [reflexivity|discriminate]].
    apply toSlice_stable with (B := B); [exact Hfg|].
    intros k x xi Hx Hxi.
    destruct (negb (IsSlice dti)).
    - destruct k as [|k]; simpl in Hx; [|discriminate].
      injection Hx as <-. simpl in Hxi. injection Hxi as <-. simpl. lia.
    - pose proof (Index_Interface_size _ _ _ _ _ _ Hx Hxi). lia. }
  destruct (bool_decide _).
  { destruct (reflect.Len _) as [len|]; [|split; [reflexivity|discriminate]].
    destruct (0 <? len)%nat; [|split; [reflexivity|discriminate]].
    destruct (reflect.Index _ _) as [x|] eqn:Hx; [|split; [reflexivity|discriminate]].
    destruct (reflect.InterfaceV x) as [xi|] eqn:Hxi; [|split; [reflexivity|discriminate]].
    apply Hfg. unfold toBound.
    pose proof (Index_Interface_size _ _ _ _ _ _ Hx Hxi).
    pose proof (resolveData_size _ _ Ed). lia. }
  destruct (reflect.TypeV _) as [dst|]; [|split; [reflexivity|discriminate]].
  destruct (coerce dst data) as [r|]; [|split; [reflexivity|discriminate]].
  destruct (reflect.SetV _ _); split; try reflexivity; discriminate.
Qed.

(** With the bound [toBound] or more, [To] finishes, and with the same
    result whatever the bound. *)
Lemma To_fuel_stable n : forall me arg,
  (toBound me arg <= n)%nat ->
  (forall m, (n <= m)%nat -> To_fuel coerce m me arg = To_fuel coerce n me arg)
  /\ snd (To_fuel coerce n me arg) <> Unfinished.
Proof.
  induction n as [|n IH]; intros me arg HB; [unfold toBound in HB; lia|].
  assert (Hstep : forall m, (n <= m)%nat ->
            To_fuel coerce (S m) me arg = To_fuel coerce (S n) me arg
            /\ snd (To_fuel coerce (S n) me arg) <> Unfinished).
  { intros m Hm. simpl.
    pose proof (callZero_info me) as Hi.
    destruct (callZero me) as [me1 o] eqn:Ez. simpl in Hi.
    assert (HA : toAssign coerce (To_fuel coerce m) (Stat arg) me1 arg
                 = toAssign coerce (To_fuel coerce n) (Stat arg) me1 arg
                 /\ snd (toAssign coerce (To_fuel coerce n) (Stat arg) me1 arg) <> Unfinished).
    { apply toAssign_stable with (B := n).
      - intros me' a Ha. destruct (IH me' a Ha) as [E F]. split; [apply E; exact Hm | exact F].
      - unfold toBound in *. rewrite Hi. exact HB. }
    pose proof (callZero_finished me) as Hf. rewrite Ez in Hf. simpl in Hf.
    destruct (original me) as [[a|]|rv]; destruct o; simpl;
      try (split; [reflexivity|discriminate]); try exact HA; congruence. }
  split.
  - intros [|m] Hm; [lia|]. apply Hstep. lia.
  - apply (Hstep n). lia.
Qed.

Lemma To_finishes (me : option Value) (arg : reflect.iface) :
  snd (To coerce me arg) <> Unfinished.
Proof.
  destruct me as [me|]; [|simpl; discriminate]. unfold To.
  pose proof (proj2 (To_fuel_stable (toBound me arg) me arg (Nat.le_refl _))) as H.
  destruct (To_fuel coerce (toBound me arg) me arg). exact H.
Qed.

Lemma To_fuel_To (n : nat) (me : Value) (arg : reflect.iface) :
  (toBound me arg <= n)%nat ->
  To_fuel coerce n me arg = To_fuel coerce (toBound me arg) me arg.
Proof.
  intros H. apply (proj1 (To_fuel_stable (toBound me arg) me arg (Nat.le_refl _))).
  exact H.
Qed.


(** *** The destination is zeroed first *)

Lemma To_fuel_S (n : nat) (me : Value) (arg : reflect.iface) :
  To_fuel coerce (S n) me arg =
  match original me with
  | AnyIface None => (me, Fail (errorUnsupported me "To"))
  | _ =>
      match callZero me with
      | (me, Done) => toAssign coerce (To_fuel coerce n) (Stat arg) me arg
      | (me, err) => (me, err)
      end
  end.
Proof. reflexivity. Qed.

Lemma callZero_idem (me : Value) :
  Wrapper me -> CanWrite me = true ->
  callZero (fst (callZero me)) = callZero me.
Proof.
  intros HW Hw.
  destruct (callZero_atZero me HW Hw) as (HW1 & Hw1 & _ & _ & _).
  destruct (callZero_writable me HW Hw) as (x & addr & ro & Ex & Ez).
  rewrite Ez in *. cbn [fst] in *.
  destruct (callZero_writable _ HW1 Hw1) as (x1 & a1 & r1 & Ex1 & Ez1).
  rewrite Ez1. simpl in Ex1. injection Ex1 as <- <- <-.
  rewrite typeof_zero. f_equal.
  unfold setWriteValue. simpl. f_equal.
  destruct (TopValue me) as [|t a r]; [reflexivity|].
  rewrite chainStore_zero_idem. reflexivity.
Qed.

Lemma To_fuel_zero_first (n : nat) (me : Value) (arg : reflect.iface) :
  Wrapper me -> CanWrite me = true ->
  To_fuel coerce (S n) (fst (callZero me)) arg = To_fuel coerce (S n) me arg.
Proof.
  intros HW Hw. rewrite !To_fuel_S. rewrite (callZero_idem me HW Hw).
  destruct (callZero_writable me HW Hw) as (x & addr & ro & Ex & Ez).
  rewrite Ez. cbn [fst setWriteValue original].
  pose proof (wrapper_original me HW Hw) as Ho.
  destruct (original me) as [[a|]|rv]; [reflexivity | congruence | reflexivity].
Qed.

(** *** [To] keeps the wrapper a wrapper *)

Lemma callZero_Wrapper (me : Value) :
  Wrapper me ->
  Wrapper (fst (callZero me)) /\ CanWrite (fst (callZero me)) = CanWrite me.
Proof.
  intros HW. unfold callZero, zeroSupported, zeroUnsupported, reflectCall.
  destruct (methodZero me); [|split; [exact HW | reflexivity]].
  destruct (reflect.ZeroV (Typ me)) as [z|]; [|split; [exact HW | reflexivity]].
  destruct (reflect.SetV (WriteValue me) z) as [w|] eqn:ES;
    [|split; [exact HW | reflexivity]].
  split; [eapply SetV_Wrapper; eassumption | reflexivity].
Qed.

Lemma toSlice_Wrapper to slice ks : forall me me' o,
  Wrapper me -> toSlice to slice ks me = (me', o) ->
  Wrapper me' /\ CanWrite me' = CanWrite me.
Proof.
  induction ks as [|k ks IH]; intros me me' o HW; simpl.
  - intros [= <- <-]. auto.
  - unfold reflectCall.
    destruct (reflect.New (ElemType me)) as [p|]; [|intros [= <- <-]; auto].
    destruct (reflect.InterfaceV p) as [pi|]; [|intros [= <- <-]; auto].
    destruct (reflect.Index slice k) as [x|]; [|intros [= <- <-]; auto].
    destruct (reflect.InterfaceV x) as [xi|]; [|intros [= <- <-]; auto].
    destruct (to (V (AnyIface pi)) xi) as [elem [|err|pn|]];
      try (intros [= <- <-]; auto).
    + destruct (reflect.Append (WriteValue me) (WriteValue elem)) as [s|];
        [|intros [= <- <-]; auto].
      destruct (reflect.SetV (WriteValue me) s) as [w|] eqn:ES;
        [|intros [= <- <-]; auto].
      intros H. apply IH in H; [exact H | eapply SetV_Wrapper; eassumption].
    + apply callZero_Wrapper. exact HW.
Qed.

Lemma toAssign_Wrapper to dti me arg me' o :
  Wrapper me ->
  (forall a me2 o2, to me a = (me2, o2) ->
                    Wrapper me2 /\ CanWrite me2 = CanWrite me) ->
  toAssign coerce to dti me arg = (me', o) ->
  Wrapper me' /\ CanWrite me' = CanWrite me.
Proof.
  intros HW Hto. unfold toAssign, reflectCall.
  destruct (_ || _); [intros [= <- <-]; auto|].
  destruct (Typ dti) as [dT|]; [|intros [= <- <-]; auto].
  destruct (Typ me) as [meT|]; [|intros [= <- <-]; auto].
  destruct (_ && _).
  { destruct (reflect.SetV _ _) as [w|] eqn:ES; intros [= <- <-]; [|auto].
    split; [eapply SetV_Wrapper; eassumption | reflexivity]. }
  destruct (arg ≫= resolveData) as [data|]; [|intros [= <- <-]; auto].
  destruct (IsSlice me).
  { destruct (reflect.Len _) as [size|]; [|intros [= <- <-]; auto].
    apply toSlice_Wrapper. exact HW. }
  destruct (bool_decide _).
  { destruct (reflect.Len _) as [len|]; [|intros [= <- <-]; auto].
    destruct (0 <? len)%nat; [|intros [= <- <-]; auto].
    destruct (reflect.Index _ _) as [x|]; [|intros [= <- <-]; auto].
    destruct (reflect.InterfaceV x) as [xi|]; [|intros [= <- <-]; auto].
    apply Hto. }
  destruct (reflect.TypeV _) as [dst|]; [|intros [= <- <-]; auto].
  destruct (coerce dst data) as [r|]; [|intros [= <- <-]; auto].
  destruct (reflect.SetV _ _) as [w|] eqn:ES; intros [= <- <-]; [|auto].
  split; [eapply SetV_Wrapper; eassumption | reflexivity].
Qed.

Lemma To_fuel_Wrapper n : forall me arg me' o,
  Wrapper me -> To_fuel coerce n me arg = (me', o) ->
  Wrapper me' /\ CanWrite me' = CanWrite me.
Proof.
  induction n as [|n IH]; intros me arg me' o HW.
  - intros [= <- <-]. auto.
  - rewrite To_fuel_S.
    destruct (callZero_Wrapper me HW) as [HW1 Hc1].
    destruct (callZero me) as [me1 o1]. cbn [fst] in *.
    assert (HA : toAssign coerce (To_fuel coerce n) (Stat arg) me1 arg = (me', o) ->
                 Wrapper me' /\ CanWrite me' = CanWrite me).
    { intros H. apply toAssign_Wrapper in H; [|exact HW1|].
      - destruct H as [H1 H2]. split; [exact H1 | congruence].
      - intros a me2 o2. apply IH. exact HW1. }
    destruct (original me) as [[a|]|rv]; destruct o1;
      try exact HA; intros [= <- <-]; auto.
Qed.

(** A wrapper is still a wrapper, as writable as before, after [To]. *)
Lemma To_Wrapper (me me' : Value) (arg : reflect.iface) (o : outcome) :
  Wrapper me -> To coerce (Some me) arg = (Some me', o) ->
  Wrapper me' /\ CanWrite me' = CanWrite me.
Proof.
  intros HW. unfold To.
  destruct (To_fuel coerce (toBound me arg) me arg) as [m o'] eqn:E.
  intros [= <- <-]. eapply To_fuel_Wrapper; eassumption.
Qed.

(** *** A slice destination receives every element *)

Lemma toSlice_done to slice ks : forall me me' E l addr ro,
  toSlice to slice ks me = (me', Done) ->
  WriteValue me = reflect.Val (reflect.VSlice E l) addr ro ->
  exists l', WriteValue me' = reflect.Val (reflect.VSlice E (l ++ l')) addr ro
             /\ length l' = length ks.
Proof.
  induction ks as [|k ks IH]; intros me me' E l addr ro; simpl.
  - intros [= <-] Hw. exists []. rewrite app_nil_r. auto.
  - unfold reflectCall.
    destruct (reflect.New (ElemType me)) as [p|]; [|discriminate].
    destruct (reflect.InterfaceV p) as [pi|]; [|discriminate].
    destruct (reflect.Index slice k) as [x|]; [|discriminate].
    destruct (reflect.InterfaceV x) as [xi|]; [|discriminate].
    destruct (to (V (AnyIface pi)) xi) as [elem [|err|pn|]]; try discriminate.
    intros H Hw. rewrite Hw in H.
    destruct (WriteValue elem) as [|e ea er]; [discriminate|].
    simpl in H. destruct (reflect.AssignableTo (reflect.typeof e) E); [|discriminate].
    simpl in H.
    destruct (addr && negb ro && reflect.AssignableTo (reflect.SliceOf E) (reflect.SliceOf E));
      [|discriminate].
    eapply IH in H; [|reflexivity].
    destruct H as (l' & Hl' & Hlen). rewrite <- app_assoc in Hl'.
    eexists. split; [exact Hl'|]. simpl. lia.
Qed.

Lemma Stat_valid (v : reflect.value) : Kind (Stat (Some v)) <> reflect.Invalid.
Proof.
  unfold Stat, StatType, statInfo. simpl.
  destruct (chainEnd (reflect.typeof v)) as [[]| | | | | | | |]; simpl; discriminate.
Qed.

Lemma toAssign_done_slice to (me me' : Value) arg E addr ro :
  Wrapper me -> IsSlice me = true ->
  WriteValue me = reflect.Val (reflect.VSlice E []) addr ro ->
  toAssign coerce to (Stat arg) me arg = (me', Done) ->
  exists l, WriteValue me' = reflect.Val (reflect.VSlice E l) addr ro
            /\ length l = sourceLen arg.
Proof.
  intros HW HS Hw. unfold toAssign, reflectCall, sourceLen.
  destruct arg as [v|]; cbn [mbind option_bind].
  2:{ simpl. intros [= <-]. exists []. auto. }
  rewrite (bool_decide_eq_false_2 _ (Stat_valid v)).
  rewrite bool_decide_eq_false_2 by discriminate. cbn [orb].
  destruct (Typ (Stat (Some v))) as [dT|]; [|discriminate].
  destruct (Typ me) as [meT|] eqn:EmT; [|discriminate].
  assert (HK : Kind me = reflect.Slice).
  { pose proof (wrapper_info me HW _ _ _ Hw) as Hi. rewrite Hi. reflexivity. }
  rewrite HK, bool_decide_eq_true_2 by reflexivity. rewrite andb_false_r.
  destruct (resolveData v) as [data|].
  2:{ intros [= <-]. exists []. auto. }
  rewrite HS.
  destruct (IsSlice (Stat (Some v))); cbn [negb].
  - destruct (reflect.Len (reflect.ValueOf (Some v))) as [size|]; [|discriminate].
    intros H. eapply toSlice_done in H; [|exact Hw].
    destruct H as (l' & Hl & Hlen). exists l'. rewrite length_seq in Hlen. auto.
  - cbn [reflect.ValueOf reflect.Len length].
    intros H. eapply toSlice_done in H; [|exact Hw].
    destruct H as (l' & Hl & Hlen). exists l'. auto.
Qed.


Lemma Slice_kind (T : reflect.type) :
  reflect.KindOf T = reflect.Slice -> exists E, T = reflect.SliceOf E.
Proof.
  destruct T as [[]| |E| | | | | |]; simpl; intros H; try discriminate.
  exists E. reflexivity.
Qed.

(** C1. On a wrapper that can be written, [To] finishes; its result is the
    result it has on the zeroed destination, so nothing of the previous
    content survives; when it returns an error, the destination holds the
    zero value of its type (in the slice branch, the elements appended
    before the failing one are gone); and when it returns nil on a slice
    destination, the destination holds one element per element of the
    source, that is, the whole of it. The statement is about the calls that
    return: a panic raised inside package reflect is neither nil nor an
    error. *)
Theorem To_commits_or_zero (me : Value) (arg : reflect.iface) :
  Wrapper me -> CanWrite me = true ->
  exists me' o,
    To coerce (Some me) arg = (Some me', o)
    /\ To coerce (Some (fst (callZero me))) arg = (Some me', o)
    /\ o <> Unfinished
    /\ (forall e, o = Fail e -> atZero me')
    /\ (o = Done -> IsSlice me = true ->
        exists E l addr ro,
          WriteValue me' = reflect.Val (reflect.VSlice E l) addr ro
          /\ length l = sourceLen arg).
Proof.
  intros HW Hw. unfold To.
  assert (HB : toBound (fst (callZero me)) arg = toBound me arg).
  { unfold toBound. rewrite callZero_info. reflexivity. }
  rewrite HB.
  destruct (To_fuel coerce (toBound me arg) me arg) as [me' o] eqn:ET.
  exists me', o. split; [reflexivity|].
  change (toBound me arg) with (S (otsize (ElemType me) + isize arg)) in *.
  split; [rewrite To_fuel_zero_first, ET by assumption; reflexivity|].
  split.
  { pose proof (proj2 (To_fuel_stable _ me arg (Nat.le_refl _))) as H.
    unfold toBound in H. rewrite ET in H. exact H. }
  split.
  { intros e ->. eapply To_fuel_fail_zero; eassumption. }
  intros -> HS. rewrite To_fuel_S in ET.
  pose proof (wrapper_original me HW Hw) as Ho.
  destruct (callZero_atZero me HW Hw) as (HW1 & _ & _ & _ & _).
  destruct (callZero_writable me HW Hw) as (x & addr & ro & Ex & Ez).
  rewrite Ez in ET, HW1. cbn [fst] in HW1.
  pose proof (wrapper_info me HW _ _ _ Ex) as Hi.
  assert (HK : reflect.KindOf (reflect.typeof x) = reflect.Slice).
  { rewrite Hi in HS. simpl in HS. apply bool_decide_eq_true_1 in HS. exact HS. }
  destruct (Slice_kind _ HK) as [E HE].
  assert (HA : toAssign coerce (To_fuel coerce (otsize (ElemType me) + isize arg))
                 (Stat arg)
                 (setWriteValue me (reflect.Val (reflect.zero (reflect.typeof x)) addr ro))
                 arg = (me', Done)).
  { destruct (original me) as [[a|]|rv]; [exact ET | congruence | exact ET]. }
  rewrite HE in HA, HW1. cbn [reflect.zero] in HA, HW1.
  eapply toAssign_done_slice in HA; [| exact HW1 | exact HS | reflexivity].
  destruct HA as (l & Hl & Hlen). exists E, l, addr, ro. auto.
Qed.


(** C3, as the code has it. For a destination that can be written and is
    not a slice, and a source that resolves to a sequence and whose type is
    not directly assignable to the destination's type (so that the direct
    assignment of [To] does not apply): [To] on a non-empty sequence is [To]
    on its last element, with the same result and the same destination
    afterwards; [To] on an empty sequence returns nil and leaves the
    destination at zero. *)
Theorem To_collapses_to_last (me : Value) (s : reflect.value)
  (E : reflect.type) (l : list reflect.value) :
  Wrapper me -> CanWrite me = true -> IsSlice me = false ->
  Kind (Stat (Some s)) = reflect.Slice ->
  resolveData s = Some (reflect.VSlice E l) ->
  (forall meT, Typ me = Some meT ->
               reflect.AssignableTo (chainEnd (reflect.typeof s)) meT = false) ->
  (forall x xi, last l = Some x ->
                reflect.InterfaceV (reflect.Val x true false) = Some xi ->
                To coerce (Some me) (Some s) = To coerce (Some me) xi)
  /\ (l = [] ->
      exists me', To coerce (Some me) (Some s) = (Some me', Done) /\ atZero me').
Proof.
  intros HW Hw HS HK Hd HA.
  pose proof (wrapper_original me HW Hw) as Ho.
  destruct (callZero_atZero me HW Hw) as (HW1 & Hw1 & HZ1 & _ & _).
  destruct (callZero_writable me HW Hw) as (x0 & addr & ro & Ex & Ez).
  destruct (Wrapper_writable me HW Hw) as (x0' & a' & r' & Ex' & _ & HT).
  assert (Hstep : forall k,
    To_fuel coerce (S k) me (Some s) =
    if (0 <? length l)%nat
    then match l !! (length l - 1)%nat with
         | Some x =>
             match reflect.InterfaceV (reflect.Val x true false) with
             | Some xi => To_fuel coerce k (fst (callZero me)) xi
             | None => (fst (callZero me), Panicked ReflectPanic)
             end
         | None => (fst (callZero me), Panicked ReflectPanic)
         end
    else (fst (callZero me), Done)).
  { intros k. rewrite To_fuel_S, Ez. cbn [fst].
    assert (HB : toAssign coerce (To_fuel coerce k) (Stat (Some s))
                   (setWriteValue me (reflect.Val (reflect.zero (reflect.typeof x0)) addr ro))
                   (Some s) =
                 if (0 <? length l)%nat
                 then match l !! (length l - 1)%nat with
                      | Some x =>
                          match reflect.InterfaceV (reflect.Val x true false) with
                          | Some xi => To_fuel coerce k
                                         (setWriteValue me (reflect.Val (reflect.zero (reflect.typeof x0)) addr ro)) xi
                          | None => (setWriteValue me (reflect.Val (reflect.zero (reflect.typeof x0)) addr ro),
                                     Panicked ReflectPanic)
                          end
                      | None => (setWriteValue me (reflect.Val (reflect.zero (reflect.typeof x0)) addr ro),
                                 Panicked ReflectPanic)
                      end
                 else (setWriteValue me (reflect.Val (reflect.zero (reflect.typeof x0)) addr ro), Done)).
    { unfold toAssign, reflectCall.
      rewrite (bool_decide_eq_false_2 _ (Stat_valid s)).
      rewrite bool_decide_eq_false_2 by discriminate. cbn [orb].
      change (Typ (Stat (Some s))) with (Some (chainEnd (reflect.typeof s))).
      change (Typ (setWriteValue me _)) with (Typ me). rewrite HT.
      rewrite (HA _ HT). cbn [andb mbind option_bind]. rewrite Hd.
      change (IsSlice (setWriteValue me _)) with (IsSlice me). rewrite HS.
      rewrite HK, bool_decide_eq_true_2 by reflexivity.
      cbn [reflect.Len reflect.Index].
      destruct (0 <? length l)%nat; [|reflexivity].
      destruct (l !! (length l - 1)%nat) as [x|]; reflexivity. }
    destruct (original me) as [[a|]|rv]; [exact HB | congruence | exact HB]. }
  split.
  - intros x xi Hl Hxi. unfold To.
    change (toBound me (Some s)) with (S (otsize (ElemType me) + isize (Some s))).
    rewrite Hstep. rewrite last_lookup in Hl.
    replace (length l - 1)%nat with (pred (length l)) by lia.
    rewrite Hl, Hxi.
    assert (Hlen : (0 < length l)%nat) by (destruct l; [discriminate | simpl; lia]).
    apply Nat.ltb_lt in Hlen. rewrite Hlen.
    assert (Hsz : (isize xi < isize (Some s))%nat).
    { pose proof (resolveData_size _ _ Hd) as H1.
      assert (H2 : reflect.Index (reflect.Val (reflect.VSlice E l) false false)
                     (pred (length l)) = Some (reflect.Val x true false)).
      { simpl. rewrite Hl. reflexivity. }
      pose proof (Index_Interface_size _ _ _ _ _ _ H2 Hxi). simpl. lia. }
    destruct (otsize (ElemType me) + isize (Some s))%nat as [|k] eqn:Ek; [lia|].
    rewrite To_fuel_zero_first by assumption.
    rewrite (To_fuel_To (S k) me xi) by (unfold toBound; lia).
    reflexivity.
  - intros ->. unfold To.
    change (toBound me (Some s)) with (S (otsize (ElemType me) + isize (Some s))).
    rewrite Hstep. simpl. eexists. split; [reflexivity | exact HZ1].
Qed.

(** C8, as the code has it. The early return of [To] is taken for the nil
    source and for no other: a nil source makes [To] return nil with the
    destination at zero, and no source that holds a value has the invalid
    kind the test asks for, whatever its classification. *)
Theorem To_nil_source (me : Value) :
  Wrapper me -> CanWrite me = true ->
  (exists me', To coerce (Some me) None = (Some me', Done) /\ atZero me')
  /\ (forall v, Kind (Stat (Some v)) <> reflect.Invalid).
Proof.
  intros HW Hw. split; [|apply Stat_valid].
  pose proof (wrapper_original me HW Hw) as Ho.
  destruct (callZero_atZero me HW Hw) as (_ & _ & HZ1 & _ & _).
  destruct (callZero_writable me HW Hw) as (x0 & addr & ro & Ex & Ez).
  unfold To. change (toBound me None) with (S (otsize (ElemType me) + 0)).
  rewrite To_fuel_S. rewrite Ez in *. cbn [fst] in HZ1.
  eexists. split; [|exact HZ1].
  destruct (original me) as [[a|]|rv]; [reflexivity | congruence | reflexivity].
Qed.


(** *** Append *)

Lemma To_Some (me : Value) (arg : reflect.iface) :
  exists me' o, To coerce (Some me) arg = (Some me', o) /\ o <> Unfinished.
Proof.
  pose proof (To_finishes (Some me) arg) as H. unfold To in *.
  destruct (To_fuel coerce (toBound me arg) me arg) as [me' o].
  exists me', o. split; [reflexivity | exact H].
Qed.

Lemma appendItems_fails (me : Value) items : forall zero o,
  appendItems coerce me items zero = inr o -> o <> Done /\ o <> Unfinished.
Proof.
  induction items as [|item items IH]; intros zero o; cbn [appendItems]; [discriminate|].
  destruct (reflect.New (ElemType me)) as [elem|]; [|intros [= <-]; split; discriminate].
  destruct (To_Some (V (AnyValue elem)) item) as (e' & o' & -> & Hfin).
  destruct o'; try (intros [= <-]; split; congruence).
  destruct (reflect.Indirect (TopValue e') ≫= reflect.Append zero) as [z|];
    [apply IH | intros [= <-]; split; discriminate].
Qed.

Lemma appendItems_collects (me : Value) items : forall zero z' E l' a r,
  appendItems coerce me items zero = inl z' ->
  z' = reflect.Val (reflect.VSlice E l') a r ->
  exists l0 new a0 r0,
    zero = reflect.Val (reflect.VSlice E l0) a0 r0
    /\ l' = l0 ++ new
    /\ Forall2 (appended coerce me E) items new.
Proof.
  induction items as [|item items IH]; intros zero z' E l' a r; cbn [appendItems].
  - intros [= <-] ->. exists l', [], a, r. rewrite app_nil_r.
    repeat split. constructor.
  - destruct (reflect.New (ElemType me)) as [elem|] eqn:En; [|discriminate].
    destruct (To coerce (Some (V (AnyValue elem))) item) as [[e'|] o'] eqn:ET;
      [|discriminate].
    destruct o'; try discriminate.
    destruct (reflect.Indirect (TopValue e')) as [xv|] eqn:Ei; [|discriminate].
    cbn [mbind option_bind].
    destruct (reflect.Append zero xv) as [z|] eqn:Ea; [|discriminate].
    intros H Hz'. destruct (IH _ _ _ _ _ _ H Hz') as (l0 & new & a0 & r0 & -> & -> & HF).
    destruct zero as [|[| | | | | |E0 l00| | | | | |] za zr]; try discriminate.
    destruct xv as [|x xa xr]; [discriminate|].
    simpl in Ea. destruct (reflect.AssignableTo _ _); [|discriminate].
    injection Ea as <- <- <- <-.
    exists l00, (reflect.stored (reflect.zero E0) x :: new), za, zr.
    split; [reflexivity|]. split; [rewrite <- app_assoc; reflexivity|].
    constructor; [|exact HF].
    exists elem, e', x, xa, xr. auto.
Qed.

Lemma zero_slice (T E : reflect.type) (l : list reflect.value) :
  reflect.zero T = reflect.VSlice E l -> l = [].
Proof. destruct T as [[]| | | | | | | |]; simpl; intros [=]; congruence. Qed.

(** C10. [Append] on a wrapper whose append slot is the slice
    implementation finishes, and either returns nil with the destination
    holding its previous elements followed by one coerced element per item,
    in order, or returns an error with the wrapper, and so its destination,
    exactly as it was. *)
Theorem Append_all_or_nothing (me : Value) (items : list reflect.iface) :
  methodAppend me = AppendSupported ->
  exists me' o,
    Append coerce (Some me) items = (Some me', o)
    /\ ((o = Done
         /\ exists E old new addr ro,
              WriteValue me = reflect.Val (reflect.VSlice E old) addr ro
              /\ WriteValue me' = reflect.Val (reflect.VSlice E (old ++ new)) addr ro
              /\ Forall2 (appended coerce me E) items new)
        \/ (exists e, o = Fail e /\ me' = me)).
Proof.
  intros HM. unfold Append. rewrite HM. unfold appendSupported.
  destruct (reflect.ZeroV (Typ me)) as [zero|] eqn:Ez.
  2:{ eexists _, _. split; [reflexivity|]. right. eexists. split; reflexivity. }
  destruct (appendItems coerce me items zero) as [z|o] eqn:Ei.
  2:{ destruct (appendItems_fails _ _ _ _ Ei) as [H1 H2].
      destruct o; try congruence;
        (eexists _, _; split; [reflexivity|]; right; eexists; split; reflexivity). }
  destruct (reflect.AppendSlice (WriteValue me) z) as [sl|] eqn:Ea; cbn [mbind option_bind].
  2:{ eexists _, _. split; [reflexivity|]. right. eexists. split; reflexivity. }
  destruct (reflect.SetV (WriteValue me) sl) as [w|] eqn:Es.
  2:{ eexists _, _. split; [reflexivity|]. right. eexists. split; reflexivity. }
  eexists _, _. split; [reflexivity|]. left. split; [reflexivity|].
  destruct (WriteValue me) as [|[| | | | | |E old| | | | | |] addr ro] eqn:Ew; try discriminate.
  destruct z as [|[| | | | | |E' l'| | | | | |] za zr]; try discriminate.
  simpl in Ea. destruct (reflect.type_eqb E E') eqn:Ee; [|discriminate].
  apply type_eqb_eq in Ee. subst E'. injection Ea as <-.
  destruct (appendItems_collects _ _ _ _ _ _ _ _ Ei eq_refl) as (l0 & new & a0 & r0 & Hz & -> & HF).
  destruct (Typ me) as [T|]; [|discriminate]. injection Ez as <-.
  injection Hz as Hz. apply zero_slice in Hz as Hl0. subst l0.
  simpl in Es.
  destruct (addr && negb ro && _); [|discriminate]. injection Es as <-.
  exists E, old, new, addr, ro. auto.
Qed.


(** *** A string source and a destination of basic type *)

Lemma basic_not_slice (t : reflect.basic) :
  bool_decide (reflect.basicKind t = reflect.Slice) = false.
Proof. destruct t; reflexivity. Qed.

Lemma stored_basic (t : reflect.basic) (r : reflect.value) :
  reflect.stored (reflect.zero (reflect.Basic t)) r = r.
Proof. destruct t; reflexivity. Qed.

Lemma To_string_coerced (me : Value) (t : reflect.basic) (s : string)
  (r : reflect.value) :
  Wrapper me -> CanWrite me = true -> Typ me = Some (reflect.Basic t) ->
  t <> reflect.TString ->
  coerce (reflect.Basic t) (reflect.VString s) = Some r ->
  reflect.typeof r = reflect.Basic t ->
  exists me' addr ro,
    To coerce (Some me) (Some (reflect.VString s)) = (Some me', Done)
    /\ WriteValue me' = reflect.Val r addr ro.
Proof.
  intros HW Hw HT Ht Hc Hr.
  pose proof (wrapper_original me HW Hw) as Ho.
  destruct (callZero_writable me HW Hw) as (x & addr & ro & Ex & Ez).
  destruct (Wrapper_writable me HW Hw) as (x' & a' & r' & Ex' & Hcs & HT').
  rewrite Ex in Ex'. injection Ex' as <- <- <-.
  rewrite HT in HT'. injection HT' as Hx.
  pose proof (wrapper_info me HW _ _ _ Ex) as Hi. rewrite <- Hx in Hi.
  rewrite <- Hx in Ez.
  assert (HS : IsSlice me = false).
  { rewrite Hi. cbn [IsSlice describe reflect.KindOf]. apply basic_not_slice. }
  assert (HKm : bool_decide (Kind me = reflect.Slice) = false).
  { rewrite Hi. cbn [Kind describe reflect.KindOf]. apply basic_not_slice. }
  assert (Hdk : Kind (Stat (Some (reflect.VString s))) = reflect.String) by reflexivity.
  assert (Hdt : Typ (Stat (Some (reflect.VString s)))
                = Some (reflect.Basic reflect.TString)) by reflexivity.
  assert (HN : reflect.AssignableTo (reflect.Basic reflect.TString) (reflect.Basic t)
               = false).
  { unfold reflect.AssignableTo. simpl.
    rewrite bool_decide_eq_false_2 by congruence. destruct t; reflexivity. }
  rewrite Ex in Hcs.
  exists (setWriteValue
            (setWriteValue me (reflect.Val (reflect.zero (reflect.Basic t)) addr ro))
            (reflect.Val r addr ro)), addr, ro.
  split; [|reflexivity].
  unfold To. change (toBound me _) with (S (otsize (ElemType me) + 1)).
  rewrite To_fuel_S, Ez.
  assert (HA : toAssign coerce (To_fuel coerce (otsize (ElemType me) + 1))
                 (Stat (Some (reflect.VString s)))
                 (setWriteValue me (reflect.Val (reflect.zero (reflect.Basic t)) addr ro))
                 (Some (reflect.VString s))
               = (setWriteValue
                    (setWriteValue me (reflect.Val (reflect.zero (reflect.Basic t)) addr ro))
                    (reflect.Val r addr ro), Done)).
  { unfold toAssign, reflectCall.
    change (Typ (setWriteValue me _)) with (Typ me).
    change (IsSlice (setWriteValue me _)) with (IsSlice me).
    change (Kind (setWriteValue me _)) with (Kind me).
    change (WriteValue (setWriteValue me _))
      with (reflect.Val (reflect.zero (reflect.Basic t)) addr ro).
    rewrite Hdk, Hdt, HT, HN, HS.
    rewrite !bool_decide_eq_false_2 by discriminate. cbn [orb andb].
    cbn [mbind option_bind resolveData reflect.TypeV].
    rewrite typeof_zero, Hc.
    unfold reflect.SetV. cbn [reflect.CanSet] in *.
    rewrite Hcs, Hr, typeof_zero, AssignableTo_refl.
    cbn [andb]. rewrite stored_basic. reflexivity. }
  destruct (original me) as [[a|]|rv];
    [rewrite HA; reflexivity | congruence | rewrite HA; reflexivity].
Qed.

End ToFacts.

(** ** The examples are wrappers *)

Lemma intVar_Wrapper : Wrapper intVar.
Proof.
  constructor;
    [reflexivity | reflexivity | intros _; discriminate
    | intros x a r [= <- <- <-]; reflexivity].
Qed.

Lemma sliceVar_Wrapper : Wrapper sliceVar.
Proof.
  constructor;
    [reflexivity | reflexivity | intros _; discriminate
    | intros x a r [= <- <- <-]; reflexivity].
Qed.

Lemma ifaceVar_Wrapper : Wrapper ifaceVar.
Proof.
  constructor;
    [reflexivity | reflexivity | intros _; discriminate
    | intros x a r [= <- <- <-]; reflexivity].
Qed.

(** ** Coercing assignment on the examples *)

Lemma To_commits_or_zero_witness :
  Wrapper sliceVar /\ CanWrite sliceVar = true /\
  exists me' o,
    To noCoerce (Some sliceVar) (Some intThenString) = (Some me', o)
    /\ To noCoerce (Some (fst (callZero sliceVar))) (Some intThenString) = (Some me', o)
    /\ o <> Unfinished
    /\ (forall e, o = Fail e -> atZero me')
    /\ (o = Done -> IsSlice sliceVar = true ->
        exists E l addr ro,
          WriteValue me' = reflect.Val (reflect.VSlice E l) addr ro
          /\ length l = sourceLen (Some intThenString)).
Proof.
  split; [exact sliceVar_Wrapper|]. split; [reflexivity|].
  exact (To_commits_or_zero noCoerce sliceVar (Some intThenString)
           sliceVar_Wrapper eq_refl).
Defined.

(** [[]interface{}{1, "a"}] into [[]int{9}]: the second element is
    rejected, and the destination is empty afterwards, not [[1]]. *)
Example To_slice_rejected :
  exists me' e,
    To noCoerce (Some sliceVar) (Some intThenString) = (Some me', Fail e)
    /\ WriteValue me' = reflect.Val (reflect.VSlice intT []) true false.
Proof. eexists _, _. split; reflexivity. Qed.

(** A call that does not return: the second element is a pointer whose
    resolved type is assignable to [int], the direct assignment hands the
    pointer itself to [Set], and package reflect panics. *)
Example To_slice_panics :
  exists me',
    To noCoerce (Some sliceVar)
      (Some (reflect.VSlice reflect.InterfaceT
               [reflect.VIface (Some (vint 1));
                reflect.VIface (Some (reflect.VPtr intT (Some (vint 2))))]))
    = (Some me', Panicked ReflectPanic).
Proof. eexists. reflexivity. Qed.

Lemma To_collapses_to_last_witness :
  Wrapper intVar /\ CanWrite intVar = true /\ IsSlice intVar = false
  /\ Kind (Stat (Some threeInts)) = reflect.Slice
  /\ resolveData threeInts = Some threeInts
  /\ (forall x xi, last [vint 1; vint 2; vint 3] = Some x ->
                   reflect.InterfaceV (reflect.Val x true false) = Some xi ->
                   To noCoerce (Some intVar) (Some threeInts)
                   = To noCoerce (Some intVar) xi)
  /\ ([vint 1; vint 2; vint 3] = [] ->
      exists me', To noCoerce (Some intVar) (Some threeInts) = (Some me', Done)
                  /\ atZero me').
Proof.
  split; [exact intVar_Wrapper|]. repeat (split; [reflexivity|]).
  refine (To_collapses_to_last noCoerce intVar threeInts intT
            [vint 1; vint 2; vint 3] intVar_Wrapper eq_refl eq_refl eq_refl eq_refl _).
  intros meT [= <-]. reflexivity.
Defined.

(** C3 fails as stated. [var x interface{}] is a destination that can be
    written and is not a slice, and [[]int{1, 2, 3}] is a non-empty
    sequence; [V(&x).To] of it stores the whole slice in [x], not the last
    element 3, and differs from [To] of the last element. *)
Lemma To_interface_destination_keeps_sequence :
  CanWrite ifaceVar = true /\ IsSlice ifaceVar = false
  /\ Kind (Stat (Some threeInts)) = reflect.Slice
  /\ resolveData threeInts = Some threeInts
  /\ exists me',
       To noCoerce (Some ifaceVar) (Some threeInts) = (Some me', Done)
       /\ WriteValue me' = reflect.Val (reflect.VIface (Some threeInts)) true false
       /\ To noCoerce (Some ifaceVar) (Some threeInts)
          <> To noCoerce (Some ifaceVar) (Some (vint 3)).
Proof.
  repeat (split; [reflexivity|]). eexists. split; [reflexivity|].
  split; [reflexivity|]. vm_compute. discriminate.
Qed.

Lemma chanVar_Wrapper : Wrapper chanVar.
Proof.
  constructor;
    [reflexivity | reflexivity | intros _; discriminate
    | intros x a r [= <- <- <-]; reflexivity].
Qed.

Lemma To_nil_source_witness :
  Wrapper intVar /\ CanWrite intVar = true
  /\ (exists me', To noCoerce (Some intVar) None = (Some me', Done) /\ atZero me')
  /\ (forall v, Kind (Stat (Some v)) <> reflect.Invalid).
Proof.
  split; [exact intVar_Wrapper|]. split; [reflexivity|].
  exact (To_nil_source noCoerce intVar intVar_Wrapper eq_refl).
Defined.

(** C8 fails as stated. A channel is classified as neither scalar, map,
    slice nor struct; [To] of a channel on [var c chan int] returns nil and
    [c] is that channel, not the zero value (nil) of its type. *)
Lemma To_channel_source_is_assigned :
  IsScalar (Stat (Some someChan)) = false /\ IsMap (Stat (Some someChan)) = false
  /\ IsSlice (Stat (Some someChan)) = false /\ IsStruct (Stat (Some someChan)) = false
  /\ Wrapper chanVar /\ CanWrite chanVar = true
  /\ exists me',
       To noCoerce (Some chanVar) (Some someChan) = (Some me', Done)
       /\ WriteValue me' = reflect.Val someChan true false
       /\ ~ atZero me'.
Proof.
  repeat (split; [reflexivity|]). split; [exact chanVar_Wrapper|].
  split; [reflexivity|]. eexists. split; [reflexivity|]. split; [reflexivity|].
  intros (T & a & r & HT & Hw). vm_compute in HT. injection HT as <-.
  vm_compute in Hw. discriminate Hw.
Qed.

Lemma Append_all_or_nothing_witness :
  methodAppend sliceVar = AppendSupported /\
  exists me' o,
    Append noCoerce (Some sliceVar) [Some (vint 1); Some (reflect.VString "a")]
    = (Some me', o)
    /\ ((o = Done
         /\ exists E old new addr ro,
              WriteValue sliceVar = reflect.Val (reflect.VSlice E old) addr ro
              /\ WriteValue me' = reflect.Val (reflect.VSlice E (old ++ new)) addr ro
              /\ Forall2 (appended noCoerce sliceVar E)
                   [Some (vint 1); Some (reflect.VString "a")] new)
        \/ (exists e, o = Fail e /\ me' = sliceVar)).
Proof.
  split; [reflexivity|].
  exact (Append_all_or_nothing noCoerce sliceVar
           [Some (vint 1); Some (reflect.VString "a")] eq_refl).
Defined.

(** Two items of which the second is rejected: the slice is still [[9]]. *)
Example Append_rejected :
  exists e,
    Append noCoerce (Some sliceVar) [Some (vint 1); Some (reflect.VString "a")]
    = (Some sliceVar, Fail e).
Proof. eexists. reflexivity. Qed.

(** Two items that are accepted: the slice is [[9, 1, 2]]. *)
Example Append_accepted :
  exists me',
    Append noCoerce (Some sliceVar) [Some (vint 1); Some (vint 2)] = (Some me', Done)
    /\ WriteValue me'
       = reflect.Val (reflect.VSlice intT [vint 9; vint 1; vint 2]) true false.
Proof. eexists. split; reflexivity. Qed.

(** ** Strings into integer destinations *)

Lemma uint32Var_Wrapper : Wrapper uint32Var.
Proof.
  constructor;
    [reflexivity | reflexivity | intros _; discriminate
    | intros x a r [= <- <- <-]; reflexivity].
Qed.

(** C4. With the coercion of strings to integers as the spec gives it, and
    whatever the other coercions are: on a destination of integer type that
    can be written, [To("1.59")] returns nil and the destination holds 1;
    on a destination of unsigned integer type, [To("-3.14")] returns nil
    and the destination holds 0. *)
Theorem To_string_to_integer
  (other : reflect.type -> reflect.value -> option reflect.value)
  (me : Value) (t : reflect.basic) :
  Wrapper me -> CanWrite me = true -> Typ me = Some (reflect.Basic t) ->
  (isSigned t || isUnsigned t = true ->
   exists me' addr ro,
     To (coerceWith other) (Some me) (Some (reflect.VString "1.59")) = (Some me', Done)
     /\ WriteValue me' = reflect.Val (reflect.VInt t 1) addr ro)
  /\ (isUnsigned t = true ->
      exists me' addr ro,
        To (coerceWith other) (Some me) (Some (reflect.VString "-3.14")) = (Some me', Done)
        /\ WriteValue me' = reflect.Val (reflect.VInt t 0) addr ro).
Proof.
  intros HW Hw HT. split; intros Hk;
    (apply (To_string_coerced (coerceWith other) me t); try assumption;
     [ destruct t; discriminate
     | destruct t; try discriminate; reflexivity
     | reflexivity ]).
Qed.

Lemma To_string_to_integer_witness :
  Wrapper uint32Var /\ CanWrite uint32Var = true
  /\ Typ uint32Var = Some (reflect.Basic reflect.TUint32)
  /\ (isSigned reflect.TUint32 || isUnsigned reflect.TUint32 = true ->
      exists me' addr ro,
        To (coerceWith noCoerce) (Some uint32Var) (Some (reflect.VString "1.59"))
        = (Some me', Done)
        /\ WriteValue me' = reflect.Val (reflect.VInt reflect.TUint32 1) addr ro)
  /\ (isUnsigned reflect.TUint32 = true ->
      exists me' addr ro,
        To (coerceWith noCoerce) (Some uint32Var) (Some (reflect.VString "-3.14"))
        = (Some me', Done)
        /\ WriteValue me' = reflect.Val (reflect.VInt reflect.TUint32 0) addr ro).
Proof.
  split; [exact uint32Var_Wrapper|]. split; [reflexivity|]. split; [reflexivity|].
  exact (To_string_to_integer noCoerce uint32Var reflect.TUint32
           uint32Var_Wrapper eq_refl eq_refl).
Defined.

(** The lines of [ExampleUint_Set_string], on a [uint32]: "1", "-1",
    "1.59", "-3.14" and "999" give 1, 0, 1, 0 and 999. *)
Example Uint_Set_string :
  map (fun s => WriteValue <$> fst (To (coerceWith noCoerce) (Some uint32Var)
                                      (Some (reflect.VString s))))
      ["1"; "-1"; "1.59"; "-3.14"; "999"]
  = map (fun n => Some (reflect.Val (reflect.VInt reflect.TUint32 n) true false))
        [1; 0; 1; 0; 999].
Proof. reflexivity. Qed.

(** ** The capabilities [V] binds *)

Lemma V_info_cases (arg : any) :
  info (V arg) = zeroTypeInfo \/ exists K T, info (V arg) = describe K T.
Proof.
  destruct arg as [[x|]|[|x addr ro]]; cbn; auto; right; eexists _, _; reflexivity.
Qed.

(** C5, as the code has it. For a location classified as a map or a slice,
    the wrapper [V] returns has the element descriptor attached and the
    element-construction slot enabled; the append slot is enabled exactly
    for a slice, and [Append] on a map wrapper returns the
    unsupported-capability error and changes nothing. *)
Theorem V_container_capabilities
  (coerce : reflect.type -> reflect.value -> option reflect.value) (arg : any) :
  (IsMap (V arg) || IsSlice (V arg) = true ->
   ElemTypeInfo (V arg) = StatType (ElemType (V arg))
   /\ methodNewElem (V arg) = NewElemSupported)
  /\ (methodAppend (V arg) = AppendSupported <-> IsSlice (V arg) = true)
  /\ (IsMap (V arg) = true ->
      forall items,
        Append coerce (Some (V arg)) items
        = (Some (V arg), Fail (ErrUnsupported "Append" arg))).
Proof.
  assert (HE : V arg =
    let '(top, w, ti, canWrite) :=
      Writable match arg with
               | AnyValue rv => rv
               | AnyIface a => reflect.ValueOf a
               end in
    let container := IsMap ti || IsSlice ti in
    {| info := ti; CanWrite := canWrite; TopValue := top; WriteValue := w;
       ElemTypeInfo := if container then StatType (ElemType ti) else zeroTypeInfo;
       original := arg;
       methodAppend := if IsSlice ti then AppendSupported else AppendUnsupported;
       methodFields := if IsStruct ti then FieldsSupported else FieldsUnsupported;
       methodFieldsByTag :=
         if IsStruct ti then FieldsByTagSupported else FieldsByTagUnsupported;
       methodNewElem := if container then NewElemSupported else NewElemUnsupported;
       methodZero := if canWrite then ZeroSupported else ZeroUnsupported |})
    by reflexivity.
  destruct (Writable _) as [[[top w] ti] cw] eqn:EW. cbn beta iota zeta in HE.
  assert (Hex : IsMap ti = true -> IsSlice ti = false).
  { destruct (V_info_cases arg) as [H|(K & T & H)]; rewrite HE in H; cbn in H;
      subst ti; cbn; [discriminate|].
    intros HM. apply bool_decide_eq_true_1 in HM. subst K. reflexivity. }
  rewrite HE. cbn. split; [|split].
  - intros ->. split; reflexivity.
  - destruct (IsSlice ti); split; intros H; try reflexivity; discriminate.
  - intros HM items. rewrite (Hex HM). reflexivity.
Qed.

(** C5 fails as stated: [m] is a map, and [V(&m).Append()] fails with the
    unsupported-capability error. *)
Lemma Append_on_map_unsupported :
  IsMap mapVar = true
  /\ methodAppend mapVar = AppendUnsupported
  /\ Append noCoerce (Some mapVar) [Some (vint 1)]
     = (Some mapVar, Fail (ErrUnsupported "Append" (original mapVar))).
Proof. repeat split. Qed.

(** ** Operations on a nil wrapper *)

(** C9, evaluated on the nil receiver. [Append], [Zero], [NewElem] and
    [FieldByIndex] test the receiver and return the nil-receiver error.
    [Fields], [FieldsByTag], [To], [Fill] and [FillByTag] read a field of
    the receiver first ([me.methodFields], [me.methodFieldsByTag],
    [me.original]) and panic with a nil pointer dereference. *)
Theorem nil_receiver_outcomes
  (coerce : reflect.type -> reflect.value -> option reflect.value)
  (items : list reflect.iface) (index : list Z) (key : string)
  (arg : reflect.iface) (getter : Getter) :
  Append coerce None items = (None, Fail ErrNilReceiver)
  /\ Zero None = (None, Fail ErrNilReceiver)
  /\ NewElem None = RetErr ErrNilReceiver
  /\ FieldByIndex None index = (None, RetErr ErrNilReceiver)
  /\ Fields None = (None, RetPanic NilDereference)
  /\ FieldsByTag None key = (None, RetPanic NilDereference)
  /\ To coerce None arg = (None, Panicked NilDereference)
  /\ Fill coerce getter None = (None, Panicked NilDereference)
  /\ FillByTag coerce key getter None = (None, Panicked NilDereference).
Proof. destruct getter. repeat split. Qed.

(** ** Navigation by index *)

Lemma followChain_plain (x : reflect.value) (addr ro : bool) :
  reflect.KindOf (reflect.typeof x) <> reflect.Ptr ->
  followChain (reflect.typeof x) x addr ro = Some (x, reflect.Val x addr ro).
Proof. destruct x; simpl; try reflexivity. congruence. Qed.

(** C6, evaluated where the bounds test of [FieldByIndex] lets an index
    through. The test is [n > v.NumField()]: on a struct wrapper that can be
    written, an index above the number of fields is answered with the
    index error, but the index equal to the number of fields and every
    negative index pass the test and [v.Field(n)] panics. A path that goes
    on through a field that is neither a struct nor a pointer is answered
    with the shape error. *)
Theorem FieldByIndex_bounds (me : Value) (fs : list reflect.StructField)
  (vals : list reflect.value) (addr ro : bool) :
  CanWrite me = true ->
  WriteValue me = reflect.Val (reflect.VStruct fs vals) addr ro ->
  snd (FieldByIndex (Some me) [Z.of_nat (length fs)]) = RetPanic ReflectPanic
  /\ (forall n, (n < 0)%Z ->
                snd (FieldByIndex (Some me) [n]) = RetPanic ReflectPanic)
  /\ (forall n, (Z.of_nat (length fs) < n)%Z ->
                snd (FieldByIndex (Some me) [n])
                = RetErr (ErrIndexOutOfBounds (length fs) n))
  /\ (forall k f x n rest,
        fs !! k = Some f -> vals !! k = Some x ->
        reflect.KindOf (reflect.typeof x) <> reflect.Struct ->
        reflect.KindOf (reflect.typeof x) <> reflect.Ptr ->
        snd (FieldByIndex (Some me) (Z.of_nat k :: n :: rest))
        = RetErr (ErrNotStruct (Some (reflect.typeof x)))).
Proof.
  intros Hw Ew.
  assert (H : forall n rest,
    snd (FieldByIndex (Some me) (n :: rest)) =
    match snd (walk (n :: rest) (WriteValue me)) with
    | Ret v => Ret (V (AnyValue v))
    | RetErr e => RetErr e
    | RetPanic p => RetPanic p
    end).
  { intros n rest. unfold FieldByIndex. rewrite Hw. cbn [negb length].
    rewrite bool_decide_eq_false_2 by discriminate.
    destruct (walk (n :: rest) (WriteValue me)) as [w r]. reflexivity. }
  rewrite Ew in H. split; [|split; [|split]].
  - rewrite H. cbn [walk reflect.KindV reflect.typeof reflect.KindOf
      reflect.NumFieldV reflect.FieldV].
    rewrite bool_decide_eq_true_2 by reflexivity. cbn [negb].
    rewrite Z.ltb_irrefl.
    destruct (Z.of_nat (length fs) <? 0)%Z; [reflexivity|].
    rewrite Nat2Z.id, lookup_ge_None_2 by lia. reflexivity.
  - intros n Hn. rewrite H. cbn [walk reflect.KindV reflect.typeof reflect.KindOf
      reflect.NumFieldV reflect.FieldV].
    rewrite bool_decide_eq_true_2 by reflexivity. cbn [negb].
    replace (Z.of_nat (length fs) <? n)%Z with false by (symmetry; apply Z.ltb_ge; lia).
    replace (n <? 0)%Z with true by (symmetry; apply Z.ltb_lt; lia).
    reflexivity.
  - intros n Hn. rewrite H. cbn [walk reflect.KindV reflect.typeof reflect.KindOf
      reflect.NumFieldV].
    rewrite bool_decide_eq_true_2 by reflexivity. cbn [negb].
    replace (Z.of_nat (length fs) <? n)%Z with true by (symmetry; apply Z.ltb_lt; lia).
    reflexivity.
  - intros k f x n rest Hf Hx HnS HnP. rewrite H.
    pose proof (lookup_lt_Some _ _ _ Hf) as Hk.
    cbn [walk reflect.KindV reflect.typeof reflect.KindOf
      reflect.NumFieldV reflect.FieldV].
    rewrite bool_decide_eq_true_2 by reflexivity. cbn [negb].
    replace (Z.of_nat (length fs) <? Z.of_nat k)%Z with false
      by (symmetry; apply Z.ltb_ge; lia).
    replace (Z.of_nat k <? 0)%Z with false by (symmetry; apply Z.ltb_ge; lia).
    rewrite Nat2Z.id, Hf, Hx, followChain_plain by exact HnP.
    rewrite bool_decide_eq_false_2 by exact HnS. reflexivity.
Qed.

Lemma FieldByIndex_bounds_witness :
  CanWrite personVar = true
  /\ WriteValue personVar = reflect.Val person true false
  /\ snd (FieldByIndex (Some personVar) [Z.of_nat (length personFields)])
     = RetPanic ReflectPanic
  /\ (forall n, (n < 0)%Z ->
                snd (FieldByIndex (Some personVar) [n]) = RetPanic ReflectPanic)
  /\ (forall n, (Z.of_nat (length personFields) < n)%Z ->
                snd (FieldByIndex (Some personVar) [n])
                = RetErr (ErrIndexOutOfBounds (length personFields) n))
  /\ (forall k f x n rest,
        personFields !! k = Some f ->
        [reflect.VString ""; vint 0] !! k = Some x ->
        reflect.KindOf (reflect.typeof x) <> reflect.Struct ->
        reflect.KindOf (reflect.typeof x) <> reflect.Ptr ->
        snd (FieldByIndex (Some personVar) (Z.of_nat k :: n :: rest))
        = RetErr (ErrNotStruct (Some (reflect.typeof x)))).
Proof.
  split; [reflexivity|]. split; [reflexivity|].
  exact (FieldByIndex_bounds personVar personFields
           [reflect.VString ""; vint 0] true false eq_refl eq_refl).
Defined.

(** [person] has two fields: the path [[2]] panics, [[3]] is an error, and
    a path through the string field is a shape error. *)
Example FieldByIndex_person :
  snd (FieldByIndex (Some personVar) [2]) = RetPanic ReflectPanic
  /\ snd (FieldByIndex (Some personVar) [-1]) = RetPanic ReflectPanic
  /\ snd (FieldByIndex (Some personVar) [3]) = RetErr (ErrIndexOutOfBounds 2 3)
  /\ snd (FieldByIndex (Some personVar) [0; 1])
     = RetErr (ErrNotStruct (Some stringT)).
Proof. repeat split. Qed.

(** ** Struct fields *)

Lemma chainValue_ro : forall (x : reflect.value) (addr : bool),
  reflect.CanSet (chainValue addr true x) = false.
Proof.
  fix IH 1. intros x addr.
  destruct x; simpl; try apply andb_false_r.
  destruct p as [y|]; [apply IH | reflexivity].
Qed.

Lemma V_read_only (x : reflect.value) (addr : bool) :
  let sub := V (AnyValue (reflect.Val x addr true)) in
  CanWrite sub = false /\ methodZero sub = ZeroUnsupported
  /\ original sub <> AnyIface None.
Proof.
  cbn. rewrite chainValue_ro. repeat split. discriminate.
Qed.

Lemma To_unwritable
  (coerce : reflect.type -> reflect.value -> option reflect.value)
  (me : Value) (arg : reflect.iface) :
  methodZero me = ZeroUnsupported -> original me <> AnyIface None ->
  To coerce (Some me) arg = (Some me, Fail (ErrUnsupported "Zero" (original me))).
Proof.
  intros Hz Ho. unfold To.
  change (toBound me arg) with (S (otsize (ElemType me) + isize arg)).
  rewrite To_fuel_S. unfold callZero. rewrite Hz.
  unfold zeroUnsupported, errorUnsupported.
  destruct (original me) as [[a|]|rv]; [reflexivity | congruence | reflexivity].
Qed.

Lemma storeField_struct (me : Value) (k : nat) (field : reflect.Value)
  (fs : list reflect.StructField) :
  (exists vals addr ro,
     WriteValue me = reflect.Val (reflect.VStruct fs vals) addr ro
     /\ length vals = length fs) ->
  exists vals addr ro,
    WriteValue (storeField me k field) = reflect.Val (reflect.VStruct fs vals) addr ro
    /\ length vals = length fs.
Proof.
  intros (vals & addr & ro & Ew & Hl). unfold storeField. rewrite Ew.
  destruct field as [|x a r].
  - exists vals, addr, ro. auto.
  - eexists _, addr, ro. split; [reflexivity|]. rewrite length_insert. exact Hl.
Qed.

Lemma fieldsLoop_all (fs : list reflect.StructField) (ks : list nat) :
  forall (me : Value) (rv : list Field),
    Forall (fun k => (k < length fs)%nat) ks ->
    (exists vals addr ro,
       WriteValue me = reflect.Val (reflect.VStruct fs vals) addr ro
       /\ length vals = length fs) ->
    exists me' new,
      fieldsLoop (reflect.StructOf fs) ks me rv = (me', Ret (rv ++ new))
      /\ Forall2 (fieldOf fs) new ks.
Proof.
  induction ks as [|k ks IH]; intros me rv Hks Hme; simpl.
  - exists me, []. rewrite app_nil_r. split; [reflexivity | constructor].
  - apply Forall_cons in Hks as [Hk Hks].
    pose proof Hme as (vals & addr & ro & Ew & Hl).
    rewrite Ew. cbn [reflect.FieldV].
    replace (Z.of_nat k <? 0)%Z with false by (symmetry; apply Z.ltb_ge; lia).
    rewrite Nat2Z.id.
    destruct (lookup_lt_is_Some_2 fs k Hk) as [f Hf].
    destruct (lookup_lt_is_Some_2 vals k ltac:(lia)) as [x Hx].
    rewrite Hf, Hx.
    set (sub := V (AnyValue (reflect.Val x addr (ro || negb (reflect.exported f))))).
    destruct (IH (storeField me k (TopValue sub)) (rv ++ [mkFieldOf sub f "" k]) Hks
                (storeField_struct me k _ fs Hme)) as (me' & new & HL & HF).
    exists me', (mkFieldOf sub f "" k :: new).
    rewrite HL, <- app_assoc. split; [reflexivity|].
    constructor; [|exact HF]. split; [exact Hf|].
    cbn [FField FValue]. intros He. unfold sub. rewrite He, orb_true_r.
    apply V_read_only.
Qed.

Lemma fields_in_order {A : Type} (g : A -> reflect.StructField)
  (P : A -> nat -> Prop) (fs : list reflect.StructField) (new : list A) :
  (forall a k, P a k -> fs !! k = Some (g a)) ->
  Forall2 P new (seq 0 (length fs)) -> map g new = fs.
Proof.
  intros HP HF. apply list_eq. intros i.
  pose proof (Forall2_length _ _ _ HF) as Hlen. rewrite length_seq in Hlen.
  rewrite list_lookup_fmap.
  destruct (decide (i < length fs)%nat) as [Hi|Hi].
  - destruct (lookup_lt_is_Some_2 new i ltac:(lia)) as [a Ha].
    rewrite Ha. simpl. symmetry. apply HP.
    eapply Forall2_lookup_lr; [exact HF | exact Ha |].
    rewrite lookup_seq_lt by exact Hi. reflexivity.
  - rewrite (lookup_ge_None_2 new) by lia. rewrite (lookup_ge_None_2 fs) by lia.
    reflexivity.
Qed.

Lemma foldl_tagged (key : string) (all : list Field) : forall acc,
  foldl (fun rv f =>
           match reflect.TagLookup (reflect.Tag (FField f)) key with
           | Some value => rv ++ [mkFieldOf (FValue f) (FField f) value (FSlot f)]
           | None => rv
           end) acc all
  = acc ++ omap (fun f => (fun value => mkFieldOf (FValue f) (FField f) value (FSlot f))
                            <$> reflect.TagLookup (reflect.Tag (FField f)) key) all.
Proof.
  induction all as [|f all IH]; intros acc; simpl.
  - rewrite app_nil_r. reflexivity.
  - rewrite IH. destruct (reflect.TagLookup _ _); simpl;
      [rewrite <- app_assoc|]; reflexivity.
Qed.

Lemma tagged_fields (key : string) (all : list Field) :
  map FField
    (omap (fun f => (fun value => mkFieldOf (FValue f) (FField f) value (FSlot f))
                      <$> reflect.TagLookup (reflect.Tag (FField f)) key) all)
  = filter (fun f => is_Some (reflect.TagLookup (reflect.Tag f) key)) (map FField all).
Proof.
  induction all as [|f all IH]; simpl; [reflexivity|].
  rewrite filter_cons.
  destruct (decide (is_Some (reflect.TagLookup (reflect.Tag (FField f)) key)))
    as [[v Hv]|Hn].
  - rewrite Hv. simpl. f_equal. exact IH.
  - destruct (reflect.TagLookup (reflect.Tag (FField f)) key) eqn:E;
      [exfalso; apply Hn; eauto|].
    simpl. exact IH.
Qed.

(** The step of [fill] on a field whose wrapper cannot be written, when the
    getter has a plain value for it: [To] on that wrapper, which returns the
    error of [Zero]. *)
Lemma fillField_read_only
  (coerce : reflect.type -> reflect.value -> option reflect.value)
  (getter : Getter) (keyFunc : Field -> string)
  (fillFunc : Value -> Getter -> Value * outcome) (f : Field) (a : reflect.iface) :
  methodZero (FValue f) = ZeroUnsupported ->
  original (FValue f) <> AnyIface None ->
  Get getter (keyFunc f) = GotOther a ->
  fillField coerce getter keyFunc fillFunc f
  = (FValue f, Fail (ErrUnsupported "Zero" (original (FValue f)))).
Proof.
  intros Hz Ho HG. unfold fillField. rewrite HG.
  unfold fieldTo. rewrite To_unwritable by assumption. reflexivity.
Qed.

(** C2, as the code has it. For a struct type the descriptor lists every
    declared field, exported or not, in the order of the declaration;
    [Fields] returns one [Field] per declared field in that order, and
    [FieldsByTag] those of them whose tag has the key. The wrapper of a
    field that is not exported cannot be written. *)
Theorem struct_fields_enumerated
  (me : Value) (fs : list reflect.StructField) (vals : list reflect.value)
  (addr ro : bool) (key : string) :
  methodFields me = FieldsSupported ->
  methodFieldsByTag me = FieldsByTagSupported ->
  IsStruct me = true ->
  Typ me = Some (reflect.StructOf fs) ->
  WriteValue me = reflect.Val (reflect.VStruct fs vals) addr ro ->
  length vals = length fs ->
  StructFields (StatType (Some (reflect.StructOf fs))) = fs
  /\ exists me' fields tagged,
       Fields (Some me) = (Some me', Ret fields)
       /\ map FField fields = fs
       /\ FieldsByTag (Some me) key = (Some me', Ret tagged)
       /\ map FField tagged
          = filter (fun f => is_Some (reflect.TagLookup (reflect.Tag f) key)) fs
       /\ Forall (fun f => reflect.exported (FField f) = false ->
                           CanWrite (FValue f) = false) fields.
Proof.
  intros HF HFT HS HT Ew Hl. split; [apply (describe_fields (reflect.StructOf fs))|].
  destruct (fieldsLoop_all fs (seq 0 (length fs)) me []) as (me' & new & HL & H2).
  { apply Forall_seq. intros j Hj. lia. }
  { exists vals, addr, ro. auto. }
  assert (EF : Fields (Some me) = (Some me', Ret new)).
  { unfold Fields. rewrite HF. unfold fieldsSupported. rewrite HS, HT.
    unfold reflect.NumField. cbn [reflect.Fields]. rewrite HL. reflexivity. }
  assert (EM : map FField new = fs).
  { apply (fields_in_order FField (fieldOf fs)); [|exact H2].
    intros a k [H _]. exact H. }
  eexists me', new, _. split; [exact EF|]. split; [exact EM|]. split; [|split].
  - unfold FieldsByTag. rewrite HFT. unfold fieldsByTagSupported. rewrite EF.
    rewrite foldl_tagged. reflexivity.
  - cbn [app]. rewrite tagged_fields, EM. reflexivity.
  - clear -H2. induction H2 as [|f k new ks [_ Hf] _ IH]; constructor; [|exact IH].
    intros He. apply (Hf He).
Qed.

Lemma struct_fields_enumerated_witness :
  methodFields personVar = FieldsSupported
  /\ methodFieldsByTag personVar = FieldsByTagSupported
  /\ IsStruct personVar = true
  /\ Typ personVar = Some (reflect.StructOf personFields)
  /\ WriteValue personVar
     = reflect.Val (reflect.VStruct personFields [reflect.VString ""; vint 0]) true false
  /\ length [reflect.VString ""; vint 0] = length personFields
  /\ StructFields (StatType (Some (reflect.StructOf personFields))) = personFields
  /\ exists me' fields tagged,
       Fields (Some personVar) = (Some me', Ret fields)
       /\ map FField fields = personFields
       /\ FieldsByTag (Some personVar) "db" = (Some me', Ret tagged)
       /\ map FField tagged
          = filter (fun f => is_Some (reflect.TagLookup (reflect.Tag f) "db"))
              personFields
       /\ Forall (fun f => reflect.exported (FField f) = false ->
                           CanWrite (FValue f) = false) fields.
Proof.
  do 6 (split; [reflexivity|]).
  exact (struct_fields_enumerated personVar personFields
           [reflect.VString ""; vint 0] true false "db"
           eq_refl eq_refl eq_refl eq_refl eq_refl eq_refl).
Defined.

(** C2 fails as stated. [person] has the exported field [Name] and the
    unexported field [age]: the descriptor and [Fields] list both, and
    [Fill] goes on to [age] after [Name], where the attempt to set it fails
    with the error of [Zero]. *)
Lemma unexported_field_is_enumerated :
  map reflect.exported (StructFields (StatType (Some personT))) = [true; false]
  /\ (exists me' fields,
        Fields (Some personVar) = (Some me', Ret fields)
        /\ map (fun f => reflect.Name (FField f)) fields = ["Name"; "age"])
  /\ exists me' e,
       Fill noCoerce personGetter (Some personVar) = (Some me', Fail e)
       /\ e = ErrUnsupported "Zero"
                (AnyValue (reflect.Val (vint 0) true true))
       /\ WriteValue me'
          = reflect.Val (reflect.VStruct personFields [reflect.VString "Bob"; vint 0])
              true false.
Proof.
  split; [reflexivity|]. split.
  - eexists _, _. split; reflexivity.
  - eexists _, _. split; [reflexivity|]. split; reflexivity.
Qed.

(** * Further properties of the code *)

(** ** The classification cache *)

Section CacheProperties.
Import store.

Lemma Load_Store (c : cache) (T : reflect.type) (rv : TypeInfo) :
  Load (Store c T rv) T = Some rv.
Proof. unfold Store. simpl. rewrite type_eqb_refl. reflexivity. Qed.

(** X1. Once [StatType] has returned for a type, the descriptor is in the
    cache under that type: every later call for it, on any store, returns
    the same descriptor and leaves the store and the cache as they are. *)
Theorem StatType_second_call_hits (h : heap) (c : cache) (T : reflect.type) :
  exists h1 c1 rv,
    StatType h c (Some T) = Some (h1, c1, rv)
    /\ forall h2, StatType h2 c1 (Some T) = Some (h2, c1, rv).
Proof.
  assert (H : exists h1 c1 rv,
            StatType h c (Some T) = Some (h1, c1, rv) /\ Load c1 T = Some rv).
  { simpl. destruct (Load c T) as [rv|] eqn:EL.
    - exists h, c, rv. auto.
    - unfold IsNil. simpl. unfold Elem. simpl.
      destruct (resolve_at T h) as [V HV]. rewrite HV.
      eexists _, _, _. split; [reflexivity|]. apply Load_Store. }
  destruct H as (h1 & c1 & rv & E & EL). exists h1, c1, rv. split; [exact E|].
  intros h2. unfold StatType. rewrite EL. reflexivity.
Qed.

(** X2. The cache starts empty and [StatType] keeps it consistent (every
    entry is the descriptor of the type it is stored under), so the
    descriptor of a type does not depend on which types were classified
    before, nor on the store: two calls from any two consistent caches
    return the same descriptor. *)
Theorem StatType_deterministic (h1 h2 : heap) (c1 c2 : cache)
  (T : option reflect.type) :
  cacheOk c1 -> cacheOk c2 ->
  exists h1' c1' h2' c2' rv,
    StatType h1 c1 T = Some (h1', c1', rv)
    /\ StatType h2 c2 T = Some (h2', c2', rv)
    /\ cacheOk c1' /\ cacheOk c2'.
Proof.
  intros H1 H2.
  destruct (StatType_run h1 c1 T) as (c1' & rv1 & E1 & K1).
  destruct (StatType_run h2 c2 T) as (c2' & rv2 & E2 & K2).
  destruct (K1 H1) as [-> O1]. destruct (K2 H2) as [-> O2].
  eexists _, c1', _, c2', _. repeat split; eassumption.
Qed.

Lemma StatType_deterministic_witness :
  cacheOk [] /\ cacheOk [(intT, statInfo (Some intT))]
  /\ exists h1' c1' h2' c2' rv,
       StatType [] [] (Some (reflect.PtrTo intT)) = Some (h1', c1', rv)
       /\ StatType [mkCell intT Plain] [(intT, statInfo (Some intT))]
            (Some (reflect.PtrTo intT)) = Some (h2', c2', rv)
       /\ cacheOk c1' /\ cacheOk c2'.
Proof.
  assert (K1 : cacheOk []) by constructor.
  assert (K2 : cacheOk [(intT, statInfo (Some intT))])
    by (constructor; [reflexivity | constructor]).
  split; [exact K1|]. split; [exact K2|].
  exact (StatType_deterministic [] [mkCell intT Plain] []
           [(intT, statInfo (Some intT))] (Some (reflect.PtrTo intT)) K1 K2).
Defined.

Lemma chainEnd_not_ptr (T : reflect.type) :
  reflect.KindOf (chainEnd T) <> reflect.Ptr.
Proof.
  induction T as [b| | | | | | | |]; simpl; try discriminate; try assumption.
  destruct b; discriminate.
Qed.

Lemma KindOf_valid (T : reflect.type) : reflect.KindOf T <> reflect.Invalid.
Proof. destruct T as [[]| | | | | | | |]; discriminate. Qed.

(** X3. What [StatType] returns for a type, from a consistent cache: the
    type and kind at the end of the pointer chain, never a pointer kind and
    never the invalid kind; at most one of the four classifications; the
    element type as declared (a pointer element type is not resolved) for a
    slice or a map and nil for every other kind; and the same descriptor as
    for a pointer to that type. *)
Theorem StatType_classifies (h : heap) (c : cache) (T : reflect.type) :
  cacheOk c ->
  exists h' c' rv,
    StatType h c (Some T) = Some (h', c', rv)
    /\ Typ rv = Some (chainEnd T)
    /\ Kind rv = reflect.KindOf (chainEnd T)
    /\ Kind rv <> reflect.Ptr /\ Kind rv <> reflect.Invalid
    /\ (Nat.b2n (IsScalar rv) + Nat.b2n (IsMap rv) + Nat.b2n (IsSlice rv)
        + Nat.b2n (IsStruct rv) <= 1)%nat
    /\ ElemType rv = match chainEnd T with
                     | reflect.SliceOf E | reflect.MapOf _ E => Some E
                     | _ => None
                     end
    /\ exists h'' c'',
         StatType h c (Some (reflect.PtrTo T)) = Some (h'', c'', rv).
Proof.
  intros HC.
  destruct (StatType_run h c (Some T)) as (c' & rv & E & K).
  destruct (K HC) as [-> _].
  destruct (StatType_run h c (Some (reflect.PtrTo T))) as (c'' & rv' & E' & K').
  destruct (K' HC) as [-> _].
  eexists _, c', _. split; [exact E|].
  unfold statInfo.
  split; [reflexivity|]. split; [reflexivity|].
  split; [apply chainEnd_not_ptr|]. split; [apply KindOf_valid|].
  split; [|split].
  - destruct (chainEnd T) as [[]| | | | | | | |]; simpl; lia.
  - destruct (chainEnd T) as [[]| | | | | | | |]; reflexivity.
  - eexists _, c''. exact E'.
Qed.

Lemma StatType_classifies_witness :
  cacheOk []
  /\ exists h' c' rv,
       StatType [] [] (Some (reflect.PtrTo (reflect.SliceOf (reflect.PtrTo intT))))
       = Some (h', c', rv)
       /\ Typ rv = Some (chainEnd (reflect.PtrTo (reflect.SliceOf (reflect.PtrTo intT))))
       /\ Kind rv
          = reflect.KindOf (chainEnd (reflect.PtrTo (reflect.SliceOf (reflect.PtrTo intT))))
       /\ Kind rv <> reflect.Ptr /\ Kind rv <> reflect.Invalid
       /\ (Nat.b2n (IsScalar rv) + Nat.b2n (IsMap rv) + Nat.b2n (IsSlice rv)
           + Nat.b2n (IsStruct rv) <= 1)%nat
       /\ ElemType rv
          = match chainEnd (reflect.PtrTo (reflect.SliceOf (reflect.PtrTo intT))) with
            | reflect.SliceOf E | reflect.MapOf _ E => Some E
            | _ => None
            end
       /\ exists h'' c'',
            StatType [] []
              (Some (reflect.PtrTo (reflect.PtrTo (reflect.SliceOf (reflect.PtrTo intT)))))
            = Some (h'', c'', rv).
Proof.
  assert (K : cacheOk []) by constructor.
  split; [exact K|].
  exact (StatType_classifies [] []
           (reflect.PtrTo (reflect.SliceOf (reflect.PtrTo intT))) K).
Defined.

(** [*[]*int]: classified as a slice, with element type [*int]. *)
Example StatType_pointer_to_slice :
  exists h' c' rv,
    StatType [] [] (Some (reflect.PtrTo (reflect.SliceOf (reflect.PtrTo intT))))
    = Some (h', c', rv)
    /\ IsSlice rv = true /\ ElemType rv = Some (reflect.PtrTo intT).
Proof. eexists _, _, _. repeat split. Qed.

(** X4. [StatType] only ever adds to the cache: a descriptor that was
    stored stays stored, under every type, whatever is classified next; and
    a call adds at most the one entry of the type it was given. *)
Theorem StatType_keeps_entries (h : heap) (c : cache) (T : option reflect.type) :
  exists h' c' rv,
    StatType h c T = Some (h', c', rv)
    /\ (forall T' rv', Load c T' = Some rv' -> Load c' T' = Some rv')
    /\ (c' = c \/ exists T0, T = Some T0 /\ Load c T0 = None /\ c' = (T0, rv) :: c).
Proof.
  destruct T as [T|]; simpl.
  2:{ exists h, c, zeroTypeInfo. split; [reflexivity|].
      split; [auto|left; reflexivity]. }
  destruct (Load c T) as [rv|] eqn:EL.
  { exists h, c, rv. split; [reflexivity|]. split; [auto|left; reflexivity]. }
  unfold IsNil. simpl. unfold Elem. simpl.
  destruct (resolve_at T h) as [V HV]. rewrite HV.
  eexists _, _, _. split; [reflexivity|]. split.
  - intros T' rv' H. unfold Store. simpl.
    destruct (reflect.type_eqb T T') eqn:E; [|exact H].
    apply type_eqb_eq in E. subst T'. congruence.
  - right. exists T. split; [reflexivity|]. split; [exact EL|reflexivity].
Qed.

End CacheProperties.

(** ** The wrapper *)

Lemma withStorage_self (me : Value) :
  me = withStorage me (TopValue me) (WriteValue me).
Proof. destruct me. reflexivity. Qed.

Lemma withStorage_set (me : Value) (top w w' : reflect.Value) :
  exists top', setWriteValue (withStorage me top w) w' = withStorage me top' w'.
Proof. eexists. reflexivity. Qed.

Lemma callZero_storage (me : Value) (top w : reflect.Value) :
  exists top' w', fst (callZero (withStorage me top w)) = withStorage me top' w'.
Proof.
  unfold callZero, zeroSupported, zeroUnsupported, reflectCall.
  destruct (methodZero _); [|eexists _, _; reflexivity].
  destruct (reflect.ZeroV _); [|eexists _, _; reflexivity].
  destruct (reflect.SetV _ _); eexists _, _; reflexivity.
Qed.

Section WrapperProperties.

Variable coerce : reflect.type -> reflect.value -> option reflect.value.

Lemma toSlice_storage to slice ks (me0 : Value) : forall top w,
  exists top' w',
    fst (toSlice to slice ks (withStorage me0 top w)) = withStorage me0 top' w'.
Proof.
  induction ks as [|k ks IH]; intros top w; simpl; [eexists _, _; reflexivity|].
  unfold reflectCall.
  destruct (reflect.New _); [|eexists _, _; reflexivity].
  destruct (reflect.InterfaceV _); [|eexists _, _; reflexivity].
  destruct (reflect.Index slice k); [|eexists _, _; reflexivity].
  destruct (reflect.InterfaceV _); [|eexists _, _; reflexivity].
  destruct (to _ _) as [elem [|err|pn|]]; try (eexists _, _; reflexivity).
  - destruct (reflect.Append _ _); [|eexists _, _; reflexivity].
    destruct (reflect.SetV _ _) as [w1|]; [|eexists _, _; reflexivity].
    destruct (withStorage_set me0 top w w1) as [top1 ->]. apply IH.
  - apply callZero_storage.
Qed.

Lemma toAssign_storage to dti (me0 : Value) top w arg :
  (forall t1 w1 a, exists top' w',
      fst (to (withStorage me0 t1 w1) a) = withStorage me0 top' w') ->
  exists top' w',
    fst (toAssign coerce to dti (withStorage me0 top w) arg) = withStorage me0 top' w'.
Proof.
  intros Hto. unfold toAssign, reflectCall.
  destruct (_ || _); [eexists _, _; reflexivity|].
  destruct (Typ dti); [|eexists _, _; reflexivity].
  destruct (Typ _); [|eexists _, _; reflexivity].
  destruct (_ && _).
  { destruct (reflect.SetV _ _); eexists _, _; reflexivity. }
  destruct (arg ≫= resolveData); [|eexists _, _; reflexivity].
  destruct (IsSlice _).
  { destruct (reflect.Len _); [|eexists _, _; reflexivity]. apply toSlice_storage. }
  destruct (bool_decide _).
  { destruct (reflect.Len _) as [len|]; [|eexists _, _; reflexivity].
    destruct (0 <? len)%nat; [|eexists _, _; reflexivity].
    destruct (reflect.Index _ _); [|eexists _, _; reflexivity].
    destruct (reflect.InterfaceV _); [|eexists _, _; reflexivity].
    apply Hto. }
  destruct (reflect.TypeV _); [|eexists _, _; reflexivity].
  destruct (coerce _ _); [|eexists _, _; reflexivity].
  destruct (reflect.SetV _ _); eexists _, _; reflexivity.
Qed.

Lemma To_fuel_storage n (me0 : Value) : forall top w arg,
  exists top' w',
    fst (To_fuel coerce n (withStorage me0 top w) arg) = withStorage me0 top' w'.
Proof.
  induction n as [|n IH]; intros top w arg; [eexists _, _; reflexivity|].
  rewrite To_fuel_S.
  destruct (callZero_storage me0 top w) as (t1 & w1 & E1).
  destruct (callZero (withStorage me0 top w)) as [me1 o1]. cbn [fst] in E1. subst me1.
  destruct (toAssign_storage (To_fuel coerce n) (Stat arg) me0 t1 w1 arg IH)
    as (t2 & w2 & E2).
  cbn [original withStorage].
  destruct (original me0) as [[a|]|rv]; destruct o1;
    try (eexists _, _; reflexivity); exists t2, w2; exact E2.
Qed.

(** X5. [To], [Zero] and [Append] change the storage behind a wrapper and
    nothing else of it: the descriptor, the element descriptor, [CanWrite],
    [original] and the five method slots are after the call what they were
    before, whatever the source and however the call ends. *)
Theorem methods_change_storage_only (me : Value) (arg : reflect.iface)
  (items : list reflect.iface) :
  (exists top w o, To coerce (Some me) arg = (Some (withStorage me top w), o))
  /\ (exists top w o, Zero (Some me) = (Some (withStorage me top w), o))
  /\ (exists top w o,
        Append coerce (Some me) items = (Some (withStorage me top w), o)).
Proof.
  split; [|split].
  - unfold To.
    destruct (To_fuel_storage (toBound me arg) me (TopValue me) (WriteValue me) arg)
      as (top & w & E).
    rewrite <- withStorage_self in E.
    destruct (To_fuel coerce (toBound me arg) me arg) as [me' o]. cbn [fst] in E.
    subst me'. exists top, w, o. reflexivity.
  - unfold Zero.
    destruct (callZero_storage me (TopValue me) (WriteValue me)) as (top & w & E).
    rewrite <- withStorage_self in E.
    destruct (callZero me) as [me' o]. cbn [fst] in E. subst me'.
    exists top, w, o. reflexivity.
  - unfold Append, appendSupported, appendUnsupported.
    destruct (methodAppend me).
    + destruct (reflect.ZeroV (Typ me)) as [zero|];
        [|exists (TopValue me), (WriteValue me); rewrite <- withStorage_self;
          eexists; reflexivity].
      destruct (appendItems coerce me items zero) as [z|[| | |]];
        try (exists (TopValue me), (WriteValue me); rewrite <- withStorage_self;
             eexists; reflexivity).
      destruct (reflect.AppendSlice (WriteValue me) z ≫= reflect.SetV (WriteValue me))
        as [w|];
        [|exists (TopValue me), (WriteValue me); rewrite <- withStorage_self;
          eexists; reflexivity].
      eexists _, w, _. reflexivity.
    + exists (TopValue me), (WriteValue me). rewrite <- withStorage_self.
      eexists. reflexivity.
Qed.

(** X6. On a wrapper that can be written, [Zero] returns nil and leaves the
    zero value of the destination's type, and a second [Zero] returns nil
    and changes nothing more. *)
Theorem Zero_idempotent (me : Value) :
  Wrapper me -> CanWrite me = true ->
  exists me1,
    Zero (Some me) = (Some me1, Done) /\ atZero me1
    /\ Zero (Some me1) = (Some me1, Done).
Proof.
  intros HW Hw.
  pose proof (callZero_idem me HW Hw) as Hi.
  destruct (callZero_atZero me HW Hw) as (_ & _ & HZ & Hd & _).
  unfold Zero. destruct (callZero me) as [me1 o] eqn:E. cbn [fst snd] in *.
  subst o. exists me1. split; [reflexivity|]. split; [exact HZ|].
  rewrite Hi. reflexivity.
Qed.

Lemma Zero_idempotent_witness :
  Wrapper intVar /\ CanWrite intVar = true
  /\ exists me1,
       Zero (Some intVar) = (Some me1, Done) /\ atZero me1
       /\ Zero (Some me1) = (Some me1, Done).
Proof.
  split; [exact intVar_Wrapper|]. split; [reflexivity|].
  exact (Zero_idempotent intVar intVar_Wrapper eq_refl).
Defined.

Lemma stored_same_type (T : reflect.type) (x : reflect.value) :
  reflect.typeof x = T -> reflect.stored (reflect.zero T) x = x.
Proof.
  intros <-. destruct x; simpl; try reflexivity; destruct t; reflexivity.
Qed.

Lemma To_direct (me : Value) (x y : reflect.value) (addr ro : bool) :
  Wrapper me -> CanWrite me = true ->
  WriteValue me = reflect.Val y addr ro ->
  reflect.typeof y = reflect.typeof x ->
  reflect.KindOf (reflect.typeof x) <> reflect.Slice ->
  reflect.KindOf (reflect.typeof x) <> reflect.Ptr ->
  To coerce (Some me) (Some x)
  = (Some (setWriteValue
             (setWriteValue me
                (reflect.Val (reflect.zero (reflect.typeof x)) addr ro))
             (reflect.Val x addr ro)), Done).
Proof.
  intros HW Hw Ey Hy HnS HnP.
  pose proof (wrapper_original me HW Hw) as Ho.
  destruct (callZero_writable me HW Hw) as (y' & addr' & ro' & Ey' & Ez).
  rewrite Ey in Ey'. injection Ey' as <- <- <-. rewrite Hy in Ez.
  pose proof (wrapper_canset me HW) as Hcs. rewrite Hw, Ey in Hcs.
  cbn [reflect.CanSet] in Hcs. symmetry in Hcs.
  pose proof (wrapper_info me HW _ _ _ Ey) as Hi. rewrite Hy in Hi.
  assert (HE : chainEnd (reflect.typeof x) = reflect.typeof x).
  { destruct (reflect.typeof x); try reflexivity. simpl in HnP. congruence. }
  set (me1 := setWriteValue me
                (reflect.Val (reflect.zero (reflect.typeof x)) addr ro)) in *.
  unfold To. change (toBound me (Some x)) with (S (otsize (ElemType me) + isize (Some x))).
  rewrite To_fuel_S, Ez.
  assert (HA : toAssign coerce (To_fuel coerce (otsize (ElemType me) + isize (Some x)))
                 (Stat (Some x)) me1 (Some x)
               = (setWriteValue me1 (reflect.Val x addr ro), Done)).
  { unfold toAssign, reflectCall.
    rewrite (bool_decide_eq_false_2 _ (Stat_valid x)).
    rewrite bool_decide_eq_false_2 by discriminate. cbn [orb].
    change (Typ (Stat (Some x))) with (Some (chainEnd (reflect.typeof x))).
    change (Typ me1) with (Typ me). change (Kind me1) with (Kind me).
    rewrite HE, Hi. cbn [Typ Kind describe].
    rewrite AssignableTo_refl.
    rewrite bool_decide_eq_false_2 by exact HnS. cbn [andb negb].
    change (WriteValue me1)
      with (reflect.Val (reflect.zero (reflect.typeof x)) addr ro).
    unfold reflect.SetV. cbn [reflect.ValueOf reflect.CanSet].
    rewrite Hcs, typeof_zero, AssignableTo_refl. cbn [andb].
    rewrite stored_same_type by reflexivity. reflexivity. }
  destruct (original me) as [[a|]|rv];
    [rewrite HA; reflexivity | congruence | rewrite HA; reflexivity].
Qed.

(** X7. A source of exactly the destination's type, when that type is
    neither a slice nor a pointer, is assigned directly: [To] returns nil,
    the destination holds the source as it is, and the coercion is not
    consulted (the result is the same for every [coerce]). *)
Theorem To_same_type (me : Value) (x : reflect.value) :
  Wrapper me -> CanWrite me = true ->
  Typ me = Some (reflect.typeof x) ->
  reflect.KindOf (reflect.typeof x) <> reflect.Slice ->
  reflect.KindOf (reflect.typeof x) <> reflect.Ptr ->
  exists me' addr ro,
    To coerce (Some me) (Some x) = (Some me', Done)
    /\ WriteValue me' = reflect.Val x addr ro.
Proof.
  intros HW Hw HT HnS HnP.
  destruct (Wrapper_writable me HW Hw) as (y & addr & ro & Ey & _ & HT').
  rewrite HT in HT'. injection HT' as Hy.
  eexists _, addr, ro.
  split; [apply (To_direct me x y addr ro); auto|reflexivity].
Qed.

End WrapperProperties.

Lemma To_same_type_witness :
  Wrapper intVar /\ CanWrite intVar = true
  /\ Typ intVar = Some (reflect.typeof (vint 5))
  /\ reflect.KindOf (reflect.typeof (vint 5)) <> reflect.Slice
  /\ reflect.KindOf (reflect.typeof (vint 5)) <> reflect.Ptr
  /\ exists me' addr ro,
       To noCoerce (Some intVar) (Some (vint 5)) = (Some me', Done)
       /\ WriteValue me' = reflect.Val (vint 5) addr ro.
Proof.
  split; [exact intVar_Wrapper|]. split; [reflexivity|]. split; [reflexivity|].
  split; [discriminate|]. split; [discriminate|].
  exact (To_same_type noCoerce intVar (vint 5) intVar_Wrapper eq_refl eq_refl
           ltac:(discriminate) ltac:(discriminate)).
Defined.

(** ** Refusals and edge cases of the wrapper's methods *)

Lemma SetV_unsettable (v x : reflect.Value) :
  reflect.CanSet v = false -> reflect.SetV v x = None.
Proof.
  intros H. destruct v as [|old addr ro]; [reflexivity|].
  destruct x as [|new a r]; [reflexivity|].
  unfold reflect.SetV. rewrite H. reflexivity.
Qed.

Section Refusals.

Variable coerce : reflect.type -> reflect.value -> option reflect.value.


(** X9. A wrapper that cannot be written refuses every write and stays as
    it is: [Zero] reports that Zero is unsupported for the original value,
    [To] reports the same (and that To is unsupported only when the wrapper
    was made from nil), [FieldByIndex] reports that the value is not
    assignable whatever the path, and [Append] returns an error whatever
    the items. *)
Theorem unwritable_wrapper_refuses (me : Value) :
  Wrapper me -> CanWrite me = false ->
  Zero (Some me) = (Some me, Fail (ErrUnsupported "Zero" (original me)))
  /\ (forall arg,
        To coerce (Some me) arg
        = (Some me,
           Fail (ErrUnsupported
                   (match original me with AnyIface None => "To" | _ => "Zero" end)
                   (original me))))
  /\ (forall index,
        FieldByIndex (Some me) index = (Some me, RetErr ErrNotAssignable))
  /\ (forall items, exists e, Append coerce (Some me) items = (Some me, Fail e)).
Proof.
  intros HW Hw.
  pose proof (wrapper_zero me HW) as Hz. rewrite Hw in Hz.
  pose proof (wrapper_canset me HW) as Hc. rewrite Hw in Hc. symmetry in Hc.
  split; [|split; [|split]].
  - unfold Zero, callZero. rewrite Hz. reflexivity.
  - intros arg. unfold To.
    change (toBound me arg) with (S (otsize (ElemType me) + isize arg)).
    rewrite To_fuel_S. unfold callZero. rewrite Hz.
    unfold zeroUnsupported, errorUnsupported.
    destruct (original me) as [[a|]|rv]; reflexivity.
  - intros index. unfold FieldByIndex. rewrite Hw. reflexivity.
  - intros items. unfold Append. destruct (methodAppend me).
    2:{ eexists. reflexivity. }
    unfold appendSupported.
    destruct (reflect.ZeroV (Typ me)) as [zero|]; [|eexists; reflexivity].
    destruct (appendItems coerce me items zero) as [z|o] eqn:E.
    + destruct (reflect.AppendSlice (WriteValue me) z) as [s|]; simpl;
        [rewrite SetV_unsettable by exact Hc|]; eexists; reflexivity.
    + destruct (appendItems_fails coerce me items zero o E) as [Hd Hu].
      destruct o; try congruence; eexists; reflexivity.
Qed.

(** X10. A source that is a pointer chain ending in nil, and whose final
    type does not take the direct assignment, is no data: [To] returns nil
    and the destination holds the zero value of its type. *)
Theorem To_nil_pointer_source (me : Value) (x : reflect.value) (meT : reflect.type) :
  Wrapper me -> CanWrite me = true -> Typ me = Some meT ->
  resolveData x = None ->
  reflect.AssignableTo (chainEnd (reflect.typeof x)) meT
    && negb (bool_decide (Kind me = reflect.Slice)) = false ->
  exists me', To coerce (Some me) (Some x) = (Some me', Done) /\ atZero me'.
Proof.
  intros HW Hw HT Hr Hna.
  pose proof (wrapper_original me HW Hw) as Ho.
  destruct (callZero_atZero me HW Hw) as (_ & _ & HZ & Hd & _).
  destruct (callZero_writable me HW Hw) as (y & addr & ro & Ey & Ez).
  rewrite Ez in HZ. cbn [fst] in HZ.
  set (me1 := setWriteValue me
                (reflect.Val (reflect.zero (reflect.typeof y)) addr ro)) in *.
  exists me1. split; [|exact HZ].
  unfold To. change (toBound me (Some x)) with (S (otsize (ElemType me) + isize (Some x))).
  rewrite To_fuel_S, Ez.
  assert (HA : toAssign coerce (To_fuel coerce (otsize (ElemType me) + isize (Some x)))
                 (Stat (Some x)) me1 (Some x) = (me1, Done)).
  { unfold toAssign, reflectCall.
    rewrite (bool_decide_eq_false_2 _ (Stat_valid x)).
    rewrite bool_decide_eq_false_2 by discriminate. cbn [orb].
    change (Typ (Stat (Some x))) with (Some (chainEnd (reflect.typeof x))).
    change (Typ me1) with (Typ me). change (Kind me1) with (Kind me).
    rewrite HT, Hna. cbn [mbind option_bind]. rewrite Hr. reflexivity. }
  destruct (original me) as [[a|]|rv];
    [rewrite HA; reflexivity | congruence | rewrite HA; reflexivity].
Qed.

End Refusals.

Lemma intCopy_Wrapper : Wrapper intCopy.
Proof. apply V_Wrapper. exact I. Qed.

Lemma unwritable_wrapper_refuses_witness :
  Wrapper intCopy /\ CanWrite intCopy = false
  /\ Zero (Some intCopy)
     = (Some intCopy, Fail (ErrUnsupported "Zero" (original intCopy)))
  /\ (forall arg,
        To noCoerce (Some intCopy) arg
        = (Some intCopy,
           Fail (ErrUnsupported
                   (match original intCopy with
                    | AnyIface None => "To"
                    | _ => "Zero"
                    end)
                   (original intCopy))))
  /\ (forall index,
        FieldByIndex (Some intCopy) index = (Some intCopy, RetErr ErrNotAssignable))
  /\ (forall items,
        exists e, Append noCoerce (Some intCopy) items = (Some intCopy, Fail e)).
Proof.
  split; [exact intCopy_Wrapper|]. split; [reflexivity|].
  exact (unwritable_wrapper_refuses noCoerce intCopy intCopy_Wrapper eq_refl).
Defined.

Lemma To_nil_pointer_source_witness :
  Wrapper intVar /\ CanWrite intVar = true /\ Typ intVar = Some intT
  /\ resolveData (reflect.VPtr stringT None) = None
  /\ reflect.AssignableTo (chainEnd (reflect.typeof (reflect.VPtr stringT None))) intT
       && negb (bool_decide (Kind intVar = reflect.Slice)) = false
  /\ exists me',
       To noCoerce (Some intVar) (Some (reflect.VPtr stringT None)) = (Some me', Done)
       /\ atZero me'.
Proof.
  split; [exact intVar_Wrapper|]. do 4 (split; [reflexivity|]).
  exact (To_nil_pointer_source noCoerce intVar (reflect.VPtr stringT None) intT
           intVar_Wrapper eq_refl eq_refl eq_refl eq_refl).
Defined.

(** ** Struct fields *)

Lemma tagged_sublist {A : Type} (g : Value -> reflect.StructField -> nat -> A)
  (key : string) (all : list Field) :
  sublist
    (map (fun f => g (FValue f) (FField f) (FSlot f))
       (omap (fun f => (fun value => mkFieldOf (FValue f) (FField f) value (FSlot f))
                         <$> reflect.TagLookup (reflect.Tag (FField f)) key) all))
    (map (fun f => g (FValue f) (FField f) (FSlot f)) all).
Proof.
  induction all as [|f all IH]; simpl; [constructor|].
  destruct (reflect.TagLookup (reflect.Tag (FField f)) key); simpl;
    constructor; exact IH.
Qed.

Lemma tagged_values (key : string) (all : list Field) :
  Forall (fun f => reflect.TagLookup (reflect.Tag (FField f)) key = Some (TagValue f))
    (omap (fun f => (fun value => mkFieldOf (FValue f) (FField f) value (FSlot f))
                      <$> reflect.TagLookup (reflect.Tag (FField f)) key) all).
Proof.
  induction all as [|f all IH]; simpl; [constructor|].
  destruct (reflect.TagLookup (reflect.Tag (FField f)) key) eqn:E; simpl;
    [constructor; [exact E|exact IH] | exact IH].
Qed.

(** X11. Whatever [FieldsByTag] returns for a key, every field in it carries
    that key in its tag and has the tag's value in [TagValue]; and the
    fields are those of [Fields], with their wrappers, in the same order. *)
Theorem FieldsByTag_selects (me me' : option Value) (key : string)
  (tagged : list Field) :
  FieldsByTag me key = (me', Ret tagged) ->
  Forall (fun f => reflect.TagLookup (reflect.Tag (FField f)) key = Some (TagValue f))
    tagged
  /\ forall me'' all,
       Fields me = (me'', Ret all) ->
       sublist (map (fun f => (FValue f, FField f, FSlot f)) tagged)
               (map (fun f => (FValue f, FField f, FSlot f)) all).
Proof.
  unfold FieldsByTag. destruct me as [v|]; [|discriminate].
  destruct (methodFieldsByTag v).
  - unfold fieldsByTagSupported.
    destruct (Fields (Some v)) as [m [all| |]] eqn:EF; try discriminate.
    rewrite foldl_tagged. cbn [app]. intros [= <- <-].
    split; [apply tagged_values|].
    intros me'' all' [= <- <-].
    apply (tagged_sublist (fun a b c => (a, b, c))).
  - unfold fieldsByTagUnsupported. intros [= <- <-].
    split; [constructor|]. intros me'' all _. apply sublist_nil_l.
Qed.

Lemma FieldsByTag_selects_witness :
  exists me' tagged,
    FieldsByTag (Some accountVar) "json" = (me', Ret tagged)
    /\ Forall (fun f => reflect.TagLookup (reflect.Tag (FField f)) "json"
                        = Some (TagValue f)) tagged
    /\ forall me'' all,
         Fields (Some accountVar) = (me'', Ret all) ->
         sublist (map (fun f => (FValue f, FField f, FSlot f)) tagged)
                 (map (fun f => (FValue f, FField f, FSlot f)) all).
Proof.
  eexists _, _. split; [reflexivity|].
  exact (FieldsByTag_selects (Some accountVar) _ "json" _ eq_refl).
Defined.

Lemma TopValue_V (x : reflect.value) (a r : bool) :
  exists x', TopValue (V (AnyValue (reflect.Val x a r))) = reflect.Val x' a r.
Proof. eexists. reflexivity. Qed.

Lemma fieldsLoop_wrappers (fs : list reflect.StructField)
  (vals0 : list reflect.value) (addr ro : bool) (ks : list nat) :
  forall (me : Value) (rv : list Field) (vals : list reflect.value),
    NoDup ks ->
    Forall (fun k => is_Some (fs !! k) /\ is_Some (vals0 !! k)) ks ->
    WriteValue me = reflect.Val (reflect.VStruct fs vals) addr ro ->
    (forall j, j ∈ ks -> vals !! j = vals0 !! j) ->
    exists me' new vals',
      fieldsLoop (reflect.StructOf fs) ks me rv = (me', Ret (rv ++ new))
      /\ Forall2 (fieldEntry fs vals0 addr ro) new ks
      /\ WriteValue me' = reflect.Val (reflect.VStruct fs vals') addr ro
      /\ length vals' = length vals.
Proof.
  induction ks as [|k ks IH]; intros me rv vals Hnd Hks Ew Hv; simpl.
  - exists me, [], vals. rewrite app_nil_r.
    split; [reflexivity|]. split; [constructor|]. auto.
  - apply Forall_cons in Hks as [[[f Hf] [x Hx]] Hks].
    apply NoDup_cons in Hnd as [Hk Hnd].
    rewrite Ew. cbn [reflect.FieldV].
    replace (Z.of_nat k <? 0)%Z with false by (symmetry; apply Z.ltb_ge; lia).
    rewrite Nat2Z.id, Hf, (Hv k) by apply list_elem_of_here. rewrite Hx.
    set (sub := V (AnyValue (reflect.Val x addr (ro || negb (reflect.exported f))))).
    destruct (TopValue_V x addr (ro || negb (reflect.exported f))) as [x' Ex'].
    fold sub in Ex'.
    destruct (IH (storeField me k (TopValue sub)) (rv ++ [mkFieldOf sub f "" k])
                (<[k := x']> vals) Hnd Hks) as (me' & new & vals' & HL & HF & Ew' & Hl').
    { unfold storeField. rewrite Ew, Ex'. reflexivity. }
    { intros j Hj. rewrite list_lookup_insert_ne by (intros ->; contradiction).
      apply Hv. apply list_elem_of_further. exact Hj. }
    exists me', (mkFieldOf sub f "" k :: new), vals'.
    rewrite HL, <- app_assoc. split; [reflexivity|].
    split; [|split; [exact Ew'|rewrite Hl'; apply length_insert]].
    constructor; [|exact HF]. exists f, x. auto.
Qed.

Lemma walk_one (fs : list reflect.StructField) (vals : list reflect.value)
  (addr ro : bool) (k : nat) (f : reflect.StructField) (x : reflect.value) :
  fs !! k = Some f -> vals !! k = Some x ->
  walk [Z.of_nat k] (reflect.Val (reflect.VStruct fs vals) addr ro)
  = match followChain (reflect.typeof x) x addr (ro || negb (reflect.exported f)) with
    | None => (reflect.Val (reflect.VStruct fs vals) addr ro, RetPanic ReflectPanic)
    | Some (x', e) =>
        (reflect.Val (reflect.VStruct fs (<[k := chainStore x' (contentOr e x')]> vals))
           addr ro, Ret e)
    end.
Proof.
  intros Hf Hx. pose proof (lookup_lt_Some _ _ _ Hf) as Hk.
  cbn [walk reflect.KindV reflect.typeof reflect.KindOf
    reflect.NumFieldV reflect.FieldV].
  rewrite bool_decide_eq_true_2 by reflexivity. cbn [negb].
  replace (Z.of_nat (length fs) <? Z.of_nat k)%Z with false
    by (symmetry; apply Z.ltb_ge; lia).
  replace (Z.of_nat k <? 0)%Z with false by (symmetry; apply Z.ltb_ge; lia).
  rewrite Nat2Z.id, Hf, Hx.
  destruct (followChain (reflect.typeof x) x addr (ro || negb (reflect.exported f)))
    as [[x' e]|]; [|reflexivity].
  cbn [putField]. rewrite Nat2Z.id. reflexivity.
Qed.

Lemma chainStore_plain (x : reflect.value) :
  reflect.KindOf (reflect.typeof x) <> reflect.Ptr -> chainStore x x = x.
Proof. destruct x; simpl; try reflexivity. congruence. Qed.

(** X12. On a struct wrapper, [Fields] returns one entry per field, in
    declaration order: entry [k] pairs [Type.Field(k)] with the wrapper of
    [WriteValue.Field(k)], and its tag value is empty. For a field that is
    not a pointer, [FieldByIndex] with the path [k] returns that same
    wrapper and leaves the struct as it was. *)
Theorem Fields_wrappers (me : Value) (fs : list reflect.StructField)
  (vals : list reflect.value) (addr ro : bool) :
  methodFields me = FieldsSupported -> IsStruct me = true ->
  Typ me = Some (reflect.StructOf fs) ->
  WriteValue me = reflect.Val (reflect.VStruct fs vals) addr ro ->
  length vals = length fs ->
  exists me' fields,
    Fields (Some me) = (Some me', Ret fields)
    /\ length fields = length fs
    /\ forall k f x,
         fs !! k = Some f -> vals !! k = Some x ->
         let sub := V (AnyValue (reflect.Val x addr (ro || negb (reflect.exported f)))) in
         fields !! k = Some (mkFieldOf sub f "" k)
         /\ (CanWrite me = true ->
             reflect.KindOf (reflect.typeof x) <> reflect.Ptr ->
             exists me'',
               FieldByIndex (Some me) [Z.of_nat k] = (Some me'', Ret sub)
               /\ WriteValue me'' = WriteValue me).
Proof.
  intros Hm Hs HT Ew Hl.
  destruct (fieldsLoop_wrappers fs vals addr ro (seq 0 (length fs)) me [] vals)
    as (me' & new & vals' & HL & HF & _ & _); auto.
  { apply NoDup_seq. }
  { apply Forall_forall. intros k Hk. apply elem_of_seq in Hk.
    split; apply lookup_lt_is_Some_2; lia. }
  exists me', new. split; [|split].
  - unfold Fields. rewrite Hm. unfold fieldsSupported. rewrite Hs, HT.
    unfold reflect.NumField. cbn [reflect.Fields]. rewrite HL. reflexivity.
  - rewrite (Forall2_length _ _ _ HF), length_seq. reflexivity.
  - intros k f x Hf Hx sub. split.
    + pose proof (lookup_lt_Some _ _ _ Hf) as Hk.
      destruct (Forall2_lookup_r _ _ _ k k HF) as (fld & Efld & (f' & x' & Hf' & Hx' & ->)).
      { rewrite lookup_seq_lt by exact Hk. reflexivity. }
      rewrite Hf in Hf'. rewrite Hx in Hx'.
      injection Hf' as <-. injection Hx' as <-. exact Efld.
    + intros Hw HnP. unfold FieldByIndex. rewrite Hw. cbn [negb length].
      rewrite bool_decide_eq_false_2 by discriminate.
      rewrite Ew, (walk_one fs vals addr ro k f x Hf Hx), followChain_plain by exact HnP.
      cbn [contentOr]. rewrite chainStore_plain by exact HnP.
      rewrite list_insert_id by exact Hx.
      eexists. split; [reflexivity|]. reflexivity.
Qed.

Lemma Fields_wrappers_witness :
  methodFields accountVar = FieldsSupported /\ IsStruct accountVar = true
  /\ Typ accountVar = Some (reflect.StructOf accountFields)
  /\ WriteValue accountVar
     = reflect.Val (reflect.VStruct accountFields
                      [vint 0; reflect.VPtr personT None; reflect.VPtr intT None])
         true false
  /\ length [vint 0; reflect.VPtr personT None; reflect.VPtr intT None]
     = length accountFields
  /\ exists me' fields,
       Fields (Some accountVar) = (Some me', Ret fields)
       /\ length fields = length accountFields
       /\ forall k f x,
            accountFields !! k = Some f ->
            [vint 0; reflect.VPtr personT None; reflect.VPtr intT None] !! k = Some x ->
            let sub :=
              V (AnyValue (reflect.Val x true (false || negb (reflect.exported f)))) in
            fields !! k = Some (mkFieldOf sub f "" k)
            /\ (CanWrite accountVar = true ->
                reflect.KindOf (reflect.typeof x) <> reflect.Ptr ->
                exists me'',
                  FieldByIndex (Some accountVar) [Z.of_nat k] = (Some me'', Ret sub)
                  /\ WriteValue me'' = WriteValue accountVar).
Proof.
  do 5 (split; [reflexivity|]).
  exact (Fields_wrappers accountVar accountFields
           [vint 0; reflect.VPtr personT None; reflect.VPtr intT None] true false
           eq_refl eq_refl eq_refl eq_refl eq_refl).
Defined.

Lemma followChain_zero (E : reflect.type) :
  followChain E (reflect.zero E) true false
  = Some (newChain E, reflect.Val (reflect.zero (chainEnd E)) true false).
Proof.
  induction E as [b| E IH | | | | | | |]; try reflexivity.
  cbn [reflect.zero followChain andb negb newChain chainEnd].
  rewrite IH. reflexivity.
Qed.

Lemma chainStore_newChain (E : reflect.type) :
  chainStore (newChain E) (reflect.zero (chainEnd E)) = newChain E.
Proof.
  induction E as [b| E IH | | | | | | |];
    try (cbn [newChain chainEnd]; apply chainStore_zero).
  cbn [newChain chainEnd chainStore]. rewrite IH. reflexivity.
Qed.

Lemma resolveData_newChain (E : reflect.type) :
  resolveData (newChain E) = Some (reflect.zero (chainEnd E)).
Proof.
  induction E as [b| E IH | | | | | | |]; try reflexivity.
  - destruct b; reflexivity.
  - exact IH.
Qed.

(** X13. [FieldByIndex] gives a nil pointer member storage as it passes:
    when the field is exported (and the struct can be set), the pointer in
    the struct afterwards points at a fresh chain that ends in the zero
    value of the final type, and the wrapper returned is the one of that
    final variable. When the field is not exported, the nil pointer cannot
    be set, and the call panics instead of returning an error. *)
Theorem FieldByIndex_nil_pointer_member (me : Value)
  (fs : list reflect.StructField) (vals : list reflect.value)
  (k : nat) (f : reflect.StructField) (E : reflect.type) :
  CanWrite me = true ->
  WriteValue me = reflect.Val (reflect.VStruct fs vals) true false ->
  fs !! k = Some f -> vals !! k = Some (reflect.VPtr E None) ->
  (reflect.exported f = true ->
   exists me',
     FieldByIndex (Some me) [Z.of_nat k]
     = (Some me',
        Ret (V (AnyValue (reflect.Val (reflect.zero (chainEnd E)) true false))))
     /\ WriteValue me'
        = reflect.Val
            (reflect.VStruct fs (<[k := reflect.VPtr E (Some (newChain E))]> vals))
            true false
     /\ resolveData (newChain E) = Some (reflect.zero (chainEnd E)))
  /\ (reflect.exported f = false ->
      snd (FieldByIndex (Some me) [Z.of_nat k]) = RetPanic ReflectPanic).
Proof.
  intros Hw Ew Hf Hx.
  assert (HF : FieldByIndex (Some me) [Z.of_nat k]
               = let '(w, r) := walk [Z.of_nat k] (WriteValue me) in
                 (Some (setWriteValue me w),
                  match r with
                  | Ret v => Ret (V (AnyValue v))
                  | RetErr e => RetErr e
                  | RetPanic p => RetPanic p
                  end)).
  { unfold FieldByIndex. rewrite Hw. cbn [negb length].
    rewrite bool_decide_eq_false_2 by discriminate. reflexivity. }
  rewrite HF, Ew, (walk_one fs vals true false k f _ Hf Hx).
  cbn [reflect.typeof followChain orb andb]. split; intros He; rewrite He.
  - cbn [negb]. rewrite followChain_zero. cbn [fmap option_fmap option_map fst snd].
    cbn [contentOr chainStore]. rewrite chainStore_newChain.
    eexists. split; [reflexivity|]. split; [reflexivity|].
    apply resolveData_newChain.
  - reflexivity.
Qed.

Lemma FieldByIndex_nil_pointer_member_witness :
  CanWrite accountVar = true
  /\ WriteValue accountVar
     = reflect.Val (reflect.VStruct accountFields
                      [vint 0; reflect.VPtr personT None; reflect.VPtr intT None])
         true false
  /\ accountFields !! 1%nat = Some (reflect.mkField "Owner" "" (reflect.PtrTo personT) [])
  /\ [vint 0; reflect.VPtr personT None; reflect.VPtr intT None] !! 1%nat
     = Some (reflect.VPtr personT None)
  /\ exists me',
       FieldByIndex (Some accountVar) [1%Z]
       = (Some me',
          Ret (V (AnyValue (reflect.Val (reflect.zero (chainEnd personT)) true false))))
       /\ WriteValue me'
          = reflect.Val
              (reflect.VStruct accountFields
                 (<[1%nat := reflect.VPtr personT (Some (newChain personT))]>
                    [vint 0; reflect.VPtr personT None; reflect.VPtr intT None]))
              true false
       /\ resolveData (newChain personT) = Some (reflect.zero (chainEnd personT)).
Proof.
  do 4 (split; [reflexivity|]).
  exact (proj1 (FieldByIndex_nil_pointer_member accountVar accountFields
                  [vint 0; reflect.VPtr personT None; reflect.VPtr intT None]
                  1 (reflect.mkField "Owner" "" (reflect.PtrTo personT) []) personT
                  eq_refl eq_refl eq_refl eq_refl) eq_refl).
Defined.

(** ** New elements *)

Lemma instantiate_zero (E : reflect.type) :
  instantiate E true false (reflect.zero E) = newChain E.
Proof.
  induction E as [b| E IH | | | | | | |]; try reflexivity.
  cbn [reflect.zero instantiate negb newChain]. rewrite IH. reflexivity.
Qed.

Lemma chainValue_newChain (E : reflect.type) :
  chainValue true false (newChain E)
  = reflect.Val (reflect.zero (chainEnd E)) true false.
Proof.
  induction E as [b| E IH | | | | | | |]; try reflexivity.
  - destruct b; reflexivity.
  - exact IH.
Qed.

Lemma chainTyped_zero (E : reflect.type) : chainTyped (reflect.zero E).
Proof. destruct E as [b| | | | | | | |]; try exact I. destruct b; exact I. Qed.

(** X14. Where [NewElem] is supported it returns a new wrapper, not the
    receiver's storage: a pointer to a fresh variable of the element type,
    with every level of a pointer element type allocated. The new wrapper
    can be written, describes the type at the end of the element type's
    pointer chain, and holds the zero value of that type. *)
Theorem NewElem_fresh (me : Value) (E : reflect.type) :
  methodNewElem me = NewElemSupported -> ElemType me = Some E ->
  exists elem,
    NewElem (Some me) = Ret elem
    /\ TopValue elem = reflect.Val (reflect.VPtr E (Some (newChain E))) false false
    /\ WriteValue elem = reflect.Val (reflect.zero (chainEnd E)) true false
    /\ CanWrite elem = true
    /\ Typ elem = Some (chainEnd E)
    /\ atZero elem
    /\ Wrapper elem.
Proof.
  intros Hm HE. unfold NewElem, newElemSupported. rewrite Hm, HE.
  cbn [reflect.New]. eexists. split; [reflexivity|].
  assert (HW : Wrapper (V (AnyValue (reflect.Val (reflect.VPtr E (Some (reflect.zero E)))
                                       false false)))).
  { apply V_Wrapper. split; [apply typeof_zero | apply chainTyped_zero]. }
  revert HW. unfold V, Writable.
  cbn [reflect.typeof instantiate andb negb chainValue].
  rewrite instantiate_zero, chainValue_newChain.
  cbn [TopValue WriteValue CanWrite reflect.CanSet andb negb info].
  intros HW. do 4 (split; [reflexivity|]).
  split; [|exact HW]. exists (chainEnd E), true, false. split; reflexivity.
Qed.

Lemma NewElem_fresh_witness :
  methodNewElem sliceVar = NewElemSupported /\ ElemType sliceVar = Some intT
  /\ exists elem,
       NewElem (Some sliceVar) = Ret elem
       /\ TopValue elem
          = reflect.Val (reflect.VPtr intT (Some (newChain intT))) false false
       /\ WriteValue elem = reflect.Val (reflect.zero (chainEnd intT)) true false
       /\ CanWrite elem = true
       /\ Typ elem = Some (chainEnd intT)
       /\ atZero elem
       /\ Wrapper elem.
Proof.
  split; [reflexivity|]. split; [reflexivity|].
  exact (NewElem_fresh sliceVar intT eq_refl eq_refl).
Defined.

(** ** Filling *)

Lemma V_field_slots (arg : any) :
  methodFields (V arg)
  = (if IsStruct (V arg) then FieldsSupported else FieldsUnsupported)
  /\ methodFieldsByTag (V arg)
     = (if IsStruct (V arg) then FieldsByTagSupported else FieldsByTagUnsupported).
Proof.
  unfold V.
  destruct (Writable match arg with
                     | AnyIface a => reflect.ValueOf a
                     | AnyValue argReflectValue => argReflectValue
                     end) as [[[top w] ti] cw].
  split; reflexivity.
Qed.

Section FillProperties.

Variable coerce : reflect.type -> reflect.value -> option reflect.value.

(** X15. On the wrapper of anything but a struct, [Fill] and [FillByTag]
    have no fields to visit: they return nil, whatever the getter, without
    consulting it, and the wrapper is as it was. *)
Theorem Fill_without_fields (getter : Getter) (key : string) (arg : any) :
  IsStruct (V arg) = false ->
  Fill coerce getter (Some (V arg)) = (Some (V arg), Done)
  /\ FillByTag coerce key getter (Some (V arg)) = (Some (V arg), Done).
Proof.
  intros Hs. destruct (V_field_slots arg) as [HF HT]. rewrite Hs in HF, HT.
  destruct getter as [get]. split.
  - cbn [Fill]. unfold Fields. rewrite HF. reflexivity.
  - cbn [FillByTag]. unfold FieldsByTag. rewrite HT. reflexivity.
Qed.

(** X16. [fill] visits the fields in order and stops at the first one whose
    visit does not return nil: its outcome is the outcome of [fill], the
    fields before it were all visited with nil, and the fields after it are
    not visited at all. When every visit returns nil, so does [fill]. The
    descriptors, tag values and positions of the fields are never
    changed. *)
Theorem fill_stops_at_first_error (getter : Getter) (keyFunc : Field -> string)
  (fillFunc : Value -> Getter -> Value * outcome) (fields : list Field) :
  exists fields' o,
    fill coerce getter keyFunc fillFunc fields = (fields', o)
    /\ ((o = Done
         /\ Forall2 (fun f f' =>
                       exists v, fillField coerce getter keyFunc fillFunc f = (v, Done)
                                 /\ f' = visited f v) fields fields')
        \/ (o <> Done
            /\ exists pre pre' f v post,
                 fields = pre ++ f :: post
                 /\ fields' = pre' ++ visited f v :: post
                 /\ Forall2 (fun f f' =>
                               exists v,
                                 fillField coerce getter keyFunc fillFunc f = (v, Done)
                                 /\ f' = visited f v) pre pre'
                 /\ fillField coerce getter keyFunc fillFunc f = (v, o))).
Proof.
  induction fields as [|f fields IH].
  - exists [], Done. split; [reflexivity|]. left. split; [reflexivity|constructor].
  - cbn [fill].
    destruct (fillField coerce getter keyFunc fillFunc f) as [v o] eqn:Ef.
    fold (visited f v).
    assert (Hstop : o <> Done ->
      exists pre pre' f0 v0 post,
        f :: fields = pre ++ f0 :: post
        /\ visited f v :: fields = pre' ++ visited f0 v0 :: post
        /\ Forall2 (fun f f' =>
                      exists v, fillField coerce getter keyFunc fillFunc f = (v, Done)
                                /\ f' = visited f v) pre pre'
        /\ fillField coerce getter keyFunc fillFunc f0 = (v0, o)).
    { intros _. exists [], [], f, v, fields.
      split; [reflexivity|]. split; [reflexivity|]. split; [constructor|exact Ef]. }
    destruct o;
      try (eexists _, _; split; [reflexivity|]; right;
           split; [discriminate | apply Hstop; discriminate]).
    clear Hstop. destruct IH as (fields' & o & E & H).
    change ((fix loop (fields0 : list Field) : list Field * outcome :=
               match fields0 with
               | [] => ([], Done)
               | field :: fields1 =>
                   let '(v0, o0) := fillField coerce getter keyFunc fillFunc field in
                   let field0 :=
                     mkFieldOf v0 (FField field) (TagValue field) (FSlot field) in
                   match o0 with
                   | Done => let '(fields2, o1) := loop fields1 in (field0 :: fields2, o1)
                   | _ => (field0 :: fields1, o0)
                   end
               end) fields)
      with (fill coerce getter keyFunc fillFunc fields).
    rewrite E. exists (visited f v :: fields'), o. split; [reflexivity|].
    destruct H as [[-> HF] | [Hn (pre & pre' & f0 & v0 & post & -> & -> & HF & E0)]].
    + left. split; [reflexivity|]. constructor; [|exact HF]. exists v. auto.
    + right. split; [exact Hn|].
      exists (f :: pre), (visited f v :: pre'), f0, v0, post.
      split; [reflexivity|]. split; [reflexivity|]. split; [|exact E0].
      constructor; [|exact HF]. exists v. auto.
Qed.



End FillProperties.

Lemma Fill_without_fields_witness :
  IsStruct (V (addressOf (vint 7))) = false
  /\ Fill noCoerce personGetter (Some (V (addressOf (vint 7))))
     = (Some (V (addressOf (vint 7))), Done)
  /\ FillByTag noCoerce "json" personGetter (Some (V (addressOf (vint 7))))
     = (Some (V (addressOf (vint 7))), Done).
Proof.
  split; [reflexivity|].
  exact (Fill_without_fields noCoerce personGetter "json" (addressOf (vint 7)) eq_refl).
Defined.


(** ** Filling a struct with values of its fields' types *)

Lemma V_plain (v : reflect.value) (a r : bool) :
  reflect.KindOf (reflect.typeof v) <> reflect.Ptr ->
  TopValue (V (AnyValue (reflect.Val v a r))) = reflect.Val v a r
  /\ WriteValue (V (AnyValue (reflect.Val v a r))) = reflect.Val v a r
  /\ CanWrite (V (AnyValue (reflect.Val v a r))) = a && negb r
  /\ Wrapper (V (AnyValue (reflect.Val v a r))).
Proof.
  intros Hp.
  assert (HW : Wrapper (V (AnyValue (reflect.Val v a r)))).
  { apply V_Wrapper. destruct v; try exact I. simpl in Hp. congruence. }
  split; [|split; [|split; [|exact HW]]];
    destruct v; try reflexivity; simpl in Hp; congruence.
Qed.

Lemma chainStore_nonptr (v x : reflect.value) :
  reflect.KindOf (reflect.typeof v) <> reflect.Ptr -> chainStore v x = x.
Proof. destruct v; simpl; try reflexivity. congruence. Qed.

Section FillAssign.

Variable coerce : reflect.type -> reflect.value -> option reflect.value.

Lemma fieldTo_direct (v x : reflect.value) :
  reflect.KindOf (reflect.typeof v) <> reflect.Ptr ->
  reflect.KindOf (reflect.typeof v) <> reflect.Slice ->
  reflect.typeof x = reflect.typeof v ->
  exists sub',
    fieldTo coerce (V (AnyValue (reflect.Val v true false))) (Some x) = (sub', Done)
    /\ TopValue sub' = reflect.Val x true false.
Proof.
  intros Hp Hs Hx.
  destruct (V_plain v true false Hp) as (Et & Ew & Ec & HW).
  unfold fieldTo.
  rewrite (To_direct coerce _ x v true false HW Ec Ew (eq_sym Hx))
    by (rewrite Hx; assumption).
  eexists. split; [reflexivity|].
  unfold setWriteValue. cbn [TopValue]. rewrite Et.
  rewrite (chainStore_nonptr v) by exact Hp.
  rewrite chainStore_nonptr; [reflexivity|].
  rewrite typeof_zero, Hx. exact Hp.
Qed.

Lemma fill_direct (fs : list reflect.StructField) (vals : list reflect.value)
  (get : string -> reflect.value)
  (fillFunc : Value -> Getter -> Value * outcome) :
  (forall k f v, fs !! k = Some f -> vals !! k = Some v ->
                 reflect.typeof v = reflect.Typ f) ->
  Forall (assignable get) fs ->
  forall fields ks,
    Forall2 (fieldEntry fs vals true false) fields ks ->
    exists fields',
      fill coerce (valueGetter get) (fun field => reflect.Name (FField field))
        fillFunc fields = (fields', Done)
      /\ Forall2 (fun F' k =>
                    exists f, fs !! k = Some f /\ FSlot F' = k
                              /\ TopValue (FValue F')
                                 = reflect.Val (get (reflect.Name f)) true false)
           fields' ks.
Proof.
  intros Hty Hok. induction 1 as [|F k fields ks (f & v & Hf & Hv & ->) HF IH].
  - exists []. split; [reflexivity|constructor].
  - destruct IH as (fields' & E & HF').
    pose proof (proj1 (Forall_lookup _ _) Hok k f Hf) as (He & Hp & Hs & Hi & Hg).
    pose proof (Hty k f v Hf Hv) as Hv'.
    destruct (fieldTo_direct v (get (reflect.Name f))) as (sub' & Eto & Etop);
      [rewrite Hv'; exact Hp | rewrite Hv'; exact Hs | congruence |].
    cbn [fill]. unfold fillField at 1.
    cbn [Get valueGetter FValue FField TagValue FSlot].
    rewrite He. cbn [orb negb]. rewrite Eto.
    change ((fix loop (fields0 : list Field) : list Field * outcome :=
               match fields0 with
               | [] => ([], Done)
               | field :: fields1 =>
                   let '(v0, o0) :=
                     fillField coerce (valueGetter get)
                       (fun field0 => reflect.Name (FField field0)) fillFunc field in
                   let field0 :=
                     mkFieldOf v0 (FField field) (TagValue field) (FSlot field) in
                   match o0 with
                   | Done => let '(fields2, o1) := loop fields1 in (field0 :: fields2, o1)
                   | _ => (field0 :: fields1, o0)
                   end
               end) fields)
      with (fill coerce (valueGetter get) (fun field => reflect.Name (FField field))
              fillFunc fields).
    rewrite E. eexists. split; [reflexivity|].
    constructor; [|exact HF']. exists f. auto.
Qed.

Lemma storeFields_slots (fs : list reflect.StructField)
  (get : string -> reflect.value) (a r : bool) :
  forall fields' ks,
    Forall2 (fun F' k =>
               exists f, fs !! k = Some f /\ FSlot F' = k
                         /\ TopValue (FValue F')
                            = reflect.Val (get (reflect.Name f)) true false)
      fields' ks ->
    forall me vals,
      WriteValue me = reflect.Val (reflect.VStruct fs vals) a r ->
      exists vals',
        WriteValue (storeFields me fields') = reflect.Val (reflect.VStruct fs vals') a r
        /\ length vals' = length vals
        /\ (forall k f, k ∈ ks -> fs !! k = Some f -> (k < length vals)%nat ->
                        vals' !! k = Some (get (reflect.Name f))).
Proof.
  induction 1 as [|F' k fields' ks (f & Hf & Hk & Etop) HF IH]; intros me vals Ew.
  - exists vals. split; [exact Ew|]. split; [reflexivity|].
    intros k f Hk. inversion Hk.
  - unfold storeFields. cbn [foldl]. fold (storeFields (storeField me (FSlot F')
                                   (TopValue (FValue F'))) fields').
    destruct (IH (storeField me (FSlot F') (TopValue (FValue F')))
                (<[k := get (reflect.Name f)]> vals)) as (vals' & Ew' & Hl & Hall).
    { unfold storeField. rewrite Ew, Etop, Hk. reflexivity. }
    assert (Hkeep : forall fields' ks,
      Forall2 (fun F' k =>
                 exists f, fs !! k = Some f /\ FSlot F' = k
                           /\ TopValue (FValue F')
                              = reflect.Val (get (reflect.Name f)) true false)
        fields' ks ->
      forall me vals j,
        WriteValue me = reflect.Val (reflect.VStruct fs vals) a r ->
        j ∉ ks ->
        exists vals', WriteValue (storeFields me fields')
                      = reflect.Val (reflect.VStruct fs vals') a r
                      /\ vals' !! j = vals !! j).
    { clear. induction 1 as [|F' k fields' ks (f & Hf & Hk & Etop) HF IH];
        intros me vals j Ew Hj.
      - exists vals. auto.
      - apply not_elem_of_cons in Hj as [Hjk Hj].
        unfold storeFields. cbn [foldl].
        fold (storeFields (storeField me (FSlot F') (TopValue (FValue F'))) fields').
        destruct (IH (storeField me (FSlot F') (TopValue (FValue F')))
                    (<[k := get (reflect.Name f)]> vals) j) as (vals' & Ew' & Hv');
          [unfold storeField; rewrite Ew, Etop, Hk; reflexivity | exact Hj |].
        exists vals'. split; [exact Ew'|].
        rewrite Hv'. apply list_lookup_insert_ne. congruence. }
    exists vals'. split; [exact Ew'|].
    split; [rewrite Hl; apply length_insert|].
    intros k0 f0 Hk0 Hf0 Hlt.
    destruct (decide (k0 ∈ ks)) as [Hin|Hnin].
    + apply (Hall k0 f0 Hin Hf0). rewrite length_insert. exact Hlt.
    + apply elem_of_cons in Hk0 as [->|Hin]; [|contradiction].
      rewrite Hf in Hf0. injection Hf0 as <-.
      destruct (Hkeep fields' ks HF
                  (storeField me (FSlot F') (TopValue (FValue F')))
                  (<[k := get (reflect.Name f)]> vals) k) as (vals'' & Ew'' & Hv'');
        [unfold storeField; rewrite Ew, Etop, Hk; reflexivity | exact Hnin |].
      rewrite Ew' in Ew''. injection Ew'' as <-.
      rewrite Hv''. apply list_lookup_insert_eq. exact Hlt.
Qed.

(** X18. Filling a struct from a getter that has, for every field name, a
    value of the field's type: when every field is exported and is neither
    a pointer, a slice nor an interface, [Fill] returns nil and the struct
    holds, in every field, the getter's value for that field's name.
    Nothing is coerced. *)
Theorem Fill_assigns_fields (me : Value) (fs : list reflect.StructField)
  (vals : list reflect.value) (get : string -> reflect.value) :
  methodFields me = FieldsSupported -> IsStruct me = true ->
  Typ me = Some (reflect.StructOf fs) ->
  WriteValue me = reflect.Val (reflect.VStruct fs vals) true false ->
  Forall2 (fun f v => reflect.typeof v = reflect.Typ f) fs vals ->
  Forall (assignable get) fs ->
  exists me',
    Fill coerce (valueGetter get) (Some me) = (Some me', Done)
    /\ WriteValue me'
       = reflect.Val
           (reflect.VStruct fs (map (fun f => get (reflect.Name f)) fs)) true false.
Proof.
  intros Hm Hs HT Ew Hty Hok.
  pose proof (Forall2_length _ _ _ Hty) as Hl.
  destruct (fieldsLoop_wrappers fs vals true false (seq 0 (length fs)) me [] vals)
    as (me1 & fields & vals1 & HL & HF & Ew1 & Hl1); auto.
  { apply NoDup_seq. }
  { apply Forall_forall. intros k Hk. apply elem_of_seq in Hk.
    split; apply lookup_lt_is_Some_2; try rewrite <- Hl; apply Hk. }
  assert (HFields : Fields (Some me) = (Some me1, Ret fields)).
  { unfold Fields. rewrite Hm. unfold fieldsSupported. rewrite Hs, HT.
    unfold reflect.NumField. cbn [reflect.Fields]. rewrite HL. reflexivity. }
  unfold valueGetter. cbn [Fill]. rewrite HFields.
  match goal with
  | |- context [fill coerce ?g ?kf ?ff fields] =>
      destruct (fill_direct fs vals get ff) with (fields := fields)
        (ks := seq 0 (length fs)) as (fields' & E & HF')
  end; auto.
  { intros k f v Hf Hv. exact (Forall2_lookup_lr _ _ _ _ _ _ Hty Hf Hv). }
  unfold valueGetter in E. rewrite E.
  destruct (storeFields_slots fs get true false fields' _ HF' me1 vals1 Ew1)
    as (vals' & Ew' & Hl' & Hall).
  eexists. split; [reflexivity|]. rewrite Ew'. do 2 f_equal.
  apply list_eq. intros i. rewrite list_lookup_fmap.
  unfold reflect.StructField in *.
  destruct (fs !! i) as [f|] eqn:Hf.
  - pose proof (lookup_lt_Some _ _ _ Hf) as Hi.
    apply (Hall i f); [apply elem_of_seq; lia | exact Hf | lia].
  - apply lookup_ge_None in Hf. apply lookup_ge_None. lia.
Qed.

End FillAssign.

Lemma Fill_assigns_fields_witness :
  methodFields (V (addressOf (reflect.VStruct [reflect.mkField "Name" "" stringT []]
                                [reflect.VString "x"]))) = FieldsSupported
  /\ exists me',
       Fill noCoerce (valueGetter (fun _ => reflect.VString "Bob"))
         (Some (V (addressOf (reflect.VStruct [reflect.mkField "Name" "" stringT []]
                                [reflect.VString "x"]))))
       = (Some me', Done)
       /\ WriteValue me'
          = reflect.Val
              (reflect.VStruct [reflect.mkField "Name" "" stringT []]
                 (map (fun f => reflect.VString "Bob")
                    [reflect.mkField "Name" "" stringT []])) true false.
Proof.
  split; [reflexivity|].
  apply (Fill_assigns_fields noCoerce _ [reflect.mkField "Name" "" stringT []]
           [reflect.VString "x"] (fun _ => reflect.VString "Bob"));
    try reflexivity.
  - repeat constructor.
  - repeat constructor; discriminate.
Defined.

(** ** Assigning to a slice, element by element *)

Section SliceAssign.

Variable coerce : reflect.type -> reflect.value -> option reflect.value.

Lemma toSlice_elements (n : nat) (slice : reflect.Value) (B : nat)
  (T : option reflect.type) (ks : list nat) :
  (forall k x xi, reflect.Index slice k = Some x -> reflect.InterfaceV x = Some xi ->
                  (isize xi <= B)%nat) ->
  (otsize T + B <= n)%nat ->
  forall (me me' : Value) E l addr ro,
    ElemType me = T ->
    toSlice (To_fuel coerce n) slice ks me = (me', Done) ->
    WriteValue me = reflect.Val (reflect.VSlice E l) addr ro ->
    exists l',
      WriteValue me' = reflect.Val (reflect.VSlice E (l ++ l')) addr ro
      /\ Forall2 (fun k y =>
                    exists x xi, reflect.Index slice k = Some x
                                 /\ reflect.InterfaceV x = Some xi
                                 /\ converted coerce T E xi y) ks l'.
Proof.
  intros Hsz Hn.
  induction ks as [|k ks IH]; intros me me' E l addr ro HT; simpl.
  - intros [= <-] Hw. exists []. rewrite app_nil_r. split; [exact Hw|constructor].
  - unfold reflectCall. rewrite HT.
    destruct (reflect.New T) as [p|] eqn:Ep; [|discriminate].
    destruct (reflect.InterfaceV p) as [pi|] eqn:Epi; [|discriminate].
    destruct (reflect.Index slice k) as [x|] eqn:Ex; [|discriminate].
    destruct (reflect.InterfaceV x) as [xi|] eqn:Exi; [|discriminate].
    pose proof (elem_bound T p pi Ep Epi) as Hb1.
    pose proof (Hsz k x xi Ex Exi) as Hb2.
    rewrite (To_fuel_To coerce n (V (AnyIface pi)) xi) by (unfold toBound; lia).
    destruct (To_fuel coerce (toBound (V (AnyIface pi)) xi) (V (AnyIface pi)) xi)
      as [elem [|err|pn|]] eqn:Eto; try discriminate.
    intros H Hw. rewrite Hw in H.
    destruct (WriteValue elem) as [|e ea er] eqn:Ee; [discriminate|].
    simpl in H. destruct (reflect.AssignableTo (reflect.typeof e) E); [|discriminate].
    simpl in H.
    destruct (addr && negb ro && reflect.AssignableTo (reflect.SliceOf E) (reflect.SliceOf E));
      [|discriminate].
    eapply IH in H; [| exact HT | reflexivity].
    destruct H as (l' & Hl' & HF). rewrite <- app_assoc in Hl'.
    eexists. split; [exact Hl'|].
    constructor; [|exact HF].
    exists x, xi. split; [exact Ex|]. split; [exact Exi|].
    exists p, pi, elem, e, ea, er. split; [exact Ep|]. split; [exact Epi|].
    split; [unfold To; rewrite Eto; reflexivity|]. auto.
Qed.

Lemma seq_elements {A B : Type} (g : A -> B) (Q : B -> reflect.value -> Prop)
  (l0 : list A) (l' : list reflect.value) :
  Forall2 (fun k y => exists x, l0 !! k = Some x /\ Q (g x) y) (seq 0 (length l0)) l' ->
  Forall2 Q (g <$> l0) l'.
Proof.
  intros H. apply Forall2_same_length_lookup. split.
  - rewrite length_fmap, <- (Forall2_length _ _ _ H), length_seq. reflexivity.
  - intros i b y Hb Hy. rewrite list_lookup_fmap in Hb.
    destruct (l0 !! i) as [x|] eqn:Hx; [|discriminate]. injection Hb as <-.
    pose proof (lookup_lt_Some _ _ _ Hx) as Hi.
    destruct (Forall2_lookup_r _ _ _ i y H Hy) as (k & Hk & x' & Hx' & HQ).
    rewrite lookup_seq_lt in Hk by exact Hi. injection Hk as <-.
    rewrite Hx in Hx'. injection Hx' as <-. exact HQ.
Qed.

Lemma toAssign_elements (me me' : Value) arg E addr ro :
  Wrapper me -> IsSlice me = true ->
  WriteValue me = reflect.Val (reflect.VSlice E []) addr ro ->
  toAssign coerce (To_fuel coerce (otsize (ElemType me) + isize arg)) (Stat arg) me arg
  = (me', Done) ->
  exists l, WriteValue me' = reflect.Val (reflect.VSlice E l) addr ro
            /\ Forall2 (converted coerce (ElemType me) E) (sourceItems arg) l.
Proof.
  intros HW HS Hw. unfold toAssign, reflectCall, sourceItems.
  destruct arg as [v|]; cbn [mbind option_bind].
  2:{ simpl. intros [= <-]. exists []. split; [exact Hw|constructor]. }
  rewrite (bool_decide_eq_false_2 _ (Stat_valid v)).
  rewrite bool_decide_eq_false_2 by discriminate. cbn [orb].
  destruct (Typ (Stat (Some v))) as [dT|]; [|discriminate].
  destruct (Typ me) as [meT|] eqn:EmT; [|discriminate].
  assert (HK : Kind me = reflect.Slice).
  { pose proof (wrapper_info me HW _ _ _ Hw) as Hi. rewrite Hi. reflexivity. }
  rewrite HK, bool_decide_eq_true_2 by reflexivity. rewrite andb_false_r.
  destruct (resolveData v) as [data|].
  2:{ intros [= <-]. exists []. split; [exact Hw|constructor]. }
  rewrite HS.
  destruct (IsSlice (Stat (Some v))) eqn:ES; cbn [negb].
  - destruct (reflect.Len (reflect.ValueOf (Some v))) as [size|] eqn:EL; [|discriminate].
    intros H.
    eapply (toSlice_elements _ _ (reflect.vsize v) (ElemType me)) in H;
      [| | cbn [isize]; lia | reflexivity | exact Hw].
    2:{ intros k x xi Hx Hxi. cbn [reflect.ValueOf] in Hx.
        pose proof (Index_Interface_size _ _ _ _ _ _ Hx Hxi). lia. }
    destruct H as (l' & Hl & HF). exists l'. split; [exact Hl|].
    cbn [reflect.ValueOf] in HF, EL.
    destruct v as [| | |s| | |E0 l0|E0 l0|K0 E0 m0|E0 c0| | |]; cbn [reflect.Len] in EL;
      try discriminate.
    injection EL as <-. apply (seq_elements asIface).
    eapply Forall2_impl; [exact HF|].
    intros k y (x & xi & Hx & Hxi & Hc). cbn [reflect.Index] in Hx.
    destruct (l0 !! k) as [x0|]; [|discriminate].
    injection Hx as <-. cbn [reflect.InterfaceV] in Hxi. injection Hxi as <-.
    exists x0. auto.
  - cbn [reflect.ValueOf reflect.Len length].
    intros H.
    eapply (toSlice_elements _ _ (reflect.vsize v) (ElemType me)) in H;
      [| | cbn [isize]; lia | reflexivity | exact Hw].
    2:{ intros k x xi Hx Hxi. cbn [reflect.Index] in Hx.
        destruct k as [|k]; [|discriminate]. cbn in Hx. injection Hx as <-.
        cbn in Hxi. injection Hxi as <-. cbn [isize]. lia. }
    destruct H as (l' & Hl & HF). exists l'. split; [exact Hl|].
    inversion HF as [|k y ks l'' (x & xi & Hx & Hxi & Hc) HF' E1 E2]; subst.
    inversion HF'; subst. constructor; [|constructor].
    cbn in Hx. injection Hx as <-. cbn in Hxi. injection Hxi as <-. exact Hc.
Qed.

(** X19. When [To] returns nil on a slice destination, the destination is
    the sequence of the converted sources, in order: one element per
    element of a slice source (or the single source when it is not a
    slice), each being what [To] itself leaves in the wrapper of a new
    element for that source. Nothing of the destination's old content
    stays. *)
Theorem To_slice_elementwise (me me' : Value) (arg : reflect.iface) :
  Wrapper me -> CanWrite me = true -> IsSlice me = true ->
  To coerce (Some me) arg = (Some me', Done) ->
  exists E l addr ro,
    WriteValue me' = reflect.Val (reflect.VSlice E l) addr ro
    /\ Forall2 (converted coerce (ElemType me) E) (sourceItems arg) l.
Proof.
  intros HW Hw HS. unfold To.
  destruct (To_fuel coerce (toBound me arg) me arg) as [me1 o] eqn:ET.
  intros [= <- ->].
  change (toBound me arg) with (S (otsize (ElemType me) + isize arg)) in ET.
  rewrite To_fuel_S in ET.
  pose proof (wrapper_original me HW Hw) as Ho.
  destruct (callZero_atZero me HW Hw) as (HW1 & _ & _ & _ & _).
  destruct (callZero_writable me HW Hw) as (x & addr & ro & Ex & Ez).
  rewrite Ez in ET, HW1. cbn [fst] in HW1.
  pose proof (wrapper_info me HW _ _ _ Ex) as Hi.
  assert (HK : reflect.KindOf (reflect.typeof x) = reflect.Slice).
  { rewrite Hi in HS. simpl in HS. apply bool_decide_eq_true_1 in HS. exact HS. }
  destruct (Slice_kind _ HK) as [E HE].
  assert (HA : toAssign coerce (To_fuel coerce (otsize (ElemType me) + isize arg))
                 (Stat arg)
                 (setWriteValue me (reflect.Val (reflect.zero (reflect.typeof x)) addr ro))
                 arg = (me1, Done)).
  { destruct (original me) as [[a|]|rv]; [exact ET | congruence | exact ET]. }
  rewrite HE in HA, HW1. cbn [reflect.zero] in HA, HW1.
  apply (toAssign_elements _ _ _ E addr ro HW1 HS eq_refl) in HA.
  destruct HA as (l & Hl & HF). exists E, l, addr, ro. auto.
Qed.

End SliceAssign.

Lemma To_slice_elementwise_witness :
  Wrapper sliceVar /\ CanWrite sliceVar = true /\ IsSlice sliceVar = true
  /\ exists me',
       To noCoerce (Some sliceVar) (Some threeInts) = (Some me', Done)
       /\ exists E l addr ro,
            WriteValue me' = reflect.Val (reflect.VSlice E l) addr ro
            /\ Forall2 (converted noCoerce (ElemType sliceVar) E)
                 (sourceItems (Some threeInts)) l.
Proof.
  split; [exact sliceVar_Wrapper|]. split; [reflexivity|]. split; [reflexivity|].
  eexists. split; [vm_compute; reflexivity|].
  apply (To_slice_elementwise noCoerce sliceVar _ (Some threeInts)
           sliceVar_Wrapper eq_refl eq_refl).
  vm_compute. reflexivity.
Defined.

(** ** Appending in two steps *)

Lemma chainStore_twice : forall (t x1 x2 : reflect.value),
  reflect.KindOf (reflect.typeof x1) <> reflect.Ptr ->
  chainStore (chainStore t x1) x2 = chainStore t x2.
Proof.
  fix IH 1. intros t x1 x2 Hp.
  destruct t; try (cbn [chainStore]; apply chainStore_nonptr; exact Hp).
  destruct p as [y|]; cbn [chainStore]; [|reflexivity].
  rewrite (IH y x1 x2 Hp). reflexivity.
Qed.

Lemma setWriteValue_twice (me : Value) (x1 x2 : reflect.value) (a r a2 r2 : bool) :
  reflect.KindOf (reflect.typeof x1) <> reflect.Ptr ->
  setWriteValue (setWriteValue me (reflect.Val x1 a r)) (reflect.Val x2 a2 r2)
  = setWriteValue me (reflect.Val x2 a2 r2).
Proof.
  intros Hp. unfold setWriteValue. cbn [TopValue info CanWrite ElemTypeInfo original
    methodAppend methodFields methodFieldsByTag methodNewElem methodZero].
  destruct (TopValue me) as [|t ta tr]; [reflexivity|].
  rewrite chainStore_twice by exact Hp. reflexivity.
Qed.

Section AppendCompose.

Variable coerce : reflect.type -> reflect.value -> option reflect.value.

Lemma appendItems_app (me : Value) (xs ys : list reflect.iface) :
  forall zero,
    appendItems coerce me (xs ++ ys) zero
    = match appendItems coerce me xs zero with
      | inl z => appendItems coerce me ys z
      | inr o => inr o
      end.
Proof.
  induction xs as [|x xs IH]; intros zero; cbn [app appendItems]; [reflexivity|].
  destruct (reflect.New (ElemType me)) as [elem|]; [|reflexivity].
  destruct (To coerce (Some (V (AnyValue elem))) x) as [[e|] [| | |]];
    try reflexivity.
  destruct (reflect.Indirect (TopValue e) ≫= reflect.Append zero) as [z|];
    [apply IH | reflexivity].
Qed.

Lemma appendItems_same_elem (me me1 : Value) (items : list reflect.iface) :
  ElemType me1 = ElemType me ->
  forall zero, appendItems coerce me1 items zero = appendItems coerce me items zero.
Proof.
  intros HE. induction items as [|x xs IH]; intros zero; cbn [appendItems];
    [reflexivity|].
  rewrite HE.
  destruct (reflect.New (ElemType me)) as [elem|]; [|reflexivity].
  destruct (To coerce (Some (V (AnyValue elem))) x) as [[e|] [| | |]];
    try reflexivity.
  destruct (reflect.Indirect (TopValue e) ≫= reflect.Append zero) as [z|];
    [apply IH | reflexivity].
Qed.

Lemma appendItems_shift (me : Value) (items : list reflect.iface) (E : reflect.type) :
  forall l l' a r a' r',
    (exists new a1 r1 a2 r2,
       appendItems coerce me items (reflect.Val (reflect.VSlice E l) a r)
       = inl (reflect.Val (reflect.VSlice E (l ++ new)) a1 r1)
       /\ appendItems coerce me items (reflect.Val (reflect.VSlice E l') a' r')
          = inl (reflect.Val (reflect.VSlice E (l' ++ new)) a2 r2))
    \/ (exists o,
          appendItems coerce me items (reflect.Val (reflect.VSlice E l) a r) = inr o
          /\ appendItems coerce me items (reflect.Val (reflect.VSlice E l') a' r')
             = inr o).
Proof.
  induction items as [|x xs IH]; intros l l' a r a' r'; cbn [appendItems].
  - left. exists [], a, r, a', r'. rewrite !app_nil_r. auto.
  - destruct (reflect.New (ElemType me)) as [elem|]; [|right; eexists; eauto].
    destruct (To coerce (Some (V (AnyValue elem))) x) as [[e|] [| | |]];
      try (right; eexists; split; reflexivity).
    destruct (reflect.Indirect (TopValue e)) as [[|y ya yr]|]; cbn [mbind option_bind];
      try (right; eexists; split; reflexivity).
    cbn [reflect.Append].
    destruct (reflect.AssignableTo (reflect.typeof y) E);
      [|right; eexists; split; reflexivity].
    destruct (IH (l ++ [reflect.stored (reflect.zero E) y])
                (l' ++ [reflect.stored (reflect.zero E) y]) false false false false)
      as [(new & a1 & r1 & a2 & r2 & E1 & E2) | (o & E1 & E2)].
    + left. exists (reflect.stored (reflect.zero E) y :: new), a1, r1, a2, r2.
      rewrite E1, E2, <- !app_assoc. auto.
    + right. exists o. auto.
Qed.

(** X20. Appending in two steps and appending at once: when [Append] of the
    items [xs] has returned nil, [Append] of [ys] on the result and
    [Append] of [xs] followed by [ys] on the original wrapper end the same
    way, and when that is nil they leave the same wrapper. When it is an
    error, the single call leaves the original wrapper as it was, without
    the elements of [xs]. *)
Theorem Append_in_two_steps (me me1 : Value) (xs ys : list reflect.iface) :
  Append coerce (Some me) xs = (Some me1, Done) ->
  exists me2 o,
    Append coerce (Some me1) ys = (Some me2, o)
    /\ Append coerce (Some me) (xs ++ ys)
       = (Some (match o with Done => me2 | _ => me end), o).
Proof.
  unfold Append. destruct (methodAppend me) eqn:HM; [|discriminate].
  unfold appendSupported.
  destruct (reflect.ZeroV (Typ me)) as [zero|] eqn:Ez; [|discriminate].
  destruct (appendItems coerce me xs zero) as [z1|o1] eqn:E1.
  2:{ destruct (appendItems_fails coerce me xs zero o1 E1) as [Hd Hu].
      destruct o1; try congruence; discriminate. }
  destruct (reflect.AppendSlice (WriteValue me) z1) as [sl|] eqn:Ea;
    cbn [mbind option_bind]; [|discriminate].
  destruct (reflect.SetV (WriteValue me) sl) as [w1|] eqn:Es; [|discriminate].
  intros [= <-].
  destruct (WriteValue me) as [|[| | | | | |E old| | | | | |] addr ro] eqn:Ew;
    try discriminate.
  destruct z1 as [|[| | | | | |E' l1| | | | | |] za zr]; try discriminate.
  simpl in Ea. destruct (reflect.type_eqb E E') eqn:Ee; [|discriminate].
  apply type_eqb_eq in Ee. subst E'. injection Ea as <-.
  destruct (appendItems_collects coerce _ _ _ _ _ _ _ _ E1 eq_refl)
    as (l0 & new1 & a0 & r0 & Hz & -> & _).
  destruct (Typ me) as [T|] eqn:ET; [|discriminate]. injection Ez as <-.
  injection Hz as Hz Ha Hr. apply zero_slice in Hz as Hl0. subst l0.
  cbn [app] in E1.
  simpl in Es. destruct (addr && negb ro) eqn:Hcs; [|discriminate].
  rewrite AssignableTo_refl in Es. cbn [andb] in Es. injection Es as <-.
  cbn [methodAppend setWriteValue]. rewrite HM.
  change (Typ (setWriteValue me (reflect.Val (reflect.VSlice E (old ++ new1)) addr ro)))
    with (Typ me).
  rewrite ET. cbn [reflect.ZeroV].
  rewrite (appendItems_same_elem me
             (setWriteValue me (reflect.Val (reflect.VSlice E (old ++ new1)) addr ro))
             ys eq_refl).
  rewrite Hz in E1. rewrite appendItems_app, Hz, E1.
  change (WriteValue (setWriteValue me
                        (reflect.Val (reflect.VSlice E (old ++ new1)) addr ro)))
    with (reflect.Val (reflect.VSlice E (old ++ new1)) addr ro).
  destruct (appendItems_shift me ys E [] new1 false false za zr)
    as [(new2 & a1 & r1 & a2 & r2 & E2 & E3) | (o & E2 & E3)];
    rewrite E2, E3.
  - cbn [app reflect.AppendSlice mbind option_bind].
    rewrite type_eqb_refl.
    cbn [mbind option_bind reflect.SetV reflect.CanSet reflect.typeof].
    rewrite Hcs, AssignableTo_refl. cbn [andb reflect.stored].
    eexists _, Done. split; [reflexivity|].
    rewrite setWriteValue_twice by discriminate.
    rewrite <- app_assoc. reflexivity.
  - destruct (appendItems_fails coerce me ys _ o E2) as [Hd Hu].
    destruct o; try congruence; eexists _, _; split; reflexivity.
Qed.

End AppendCompose.

Lemma Append_in_two_steps_witness :
  exists me1,
    Append noCoerce (Some sliceVar) [Some (vint 1)] = (Some me1, Done)
    /\ exists me2 o,
         Append noCoerce (Some me1) [Some (vint 2); Some (vint 3)] = (Some me2, o)
         /\ Append noCoerce (Some sliceVar)
              ([Some (vint 1)] ++ [Some (vint 2); Some (vint 3)])
            = (Some (match o with Done => me2 | _ => sliceVar end), o).
Proof.
  eexists. split; [vm_compute; reflexivity|].
  apply (Append_in_two_steps noCoerce sliceVar _ [Some (vint 1)]
           [Some (vint 2); Some (vint 3)]).
  vm_compute. reflexivity.
Defined.

(** ** The coercing branch of [To] *)

Section CoercingBranch.

Variable coerce : reflect.type -> reflect.value -> option reflect.value.

(** X21. When neither the destination nor the source is a slice and the
    source's final type is not assignable to the destination's, [To]
    follows the source's pointers to the value they end in and hands that
    value to the coercion: a coercion fault is returned as the error of
    [To], with the destination left at zero; a converted value of the
    destination's type is what the destination then holds. *)
Theorem To_coerces (me : Value) (T : reflect.type) (x data : reflect.value) :
  Wrapper me -> CanWrite me = true -> Typ me = Some T ->
  reflect.KindOf T <> reflect.Slice ->
  reflect.KindOf (chainEnd (reflect.typeof x)) <> reflect.Slice ->
  reflect.AssignableTo (chainEnd (reflect.typeof x)) T = false ->
  resolveData x = Some data ->
  (coerce T data = None ->
   exists me',
     To coerce (Some me) (Some x) = (Some me', Fail (ErrCoerce (Some T) data))
     /\ atZero me')
  /\ (forall r, coerce T data = Some r -> reflect.typeof r = T ->
        exists me' addr ro,
          To coerce (Some me) (Some x) = (Some me', Done)
          /\ WriteValue me' = reflect.Val r addr ro).
Proof.
  intros HW Hw HT HnS HnD HnA Hr.
  pose proof (wrapper_original me HW Hw) as Ho.
  destruct (callZero_atZero me HW Hw) as (_ & _ & HZ & _ & _).
  destruct (callZero_writable me HW Hw) as (y & addr & ro & Ey & Ez).
  destruct (Wrapper_writable me HW Hw) as (y' & a' & r' & Ey' & Hcs & HT').
  rewrite Ey in Ey'. injection Ey' as <- <- <-.
  rewrite HT in HT'. injection HT' as Hy.
  pose proof (wrapper_info me HW _ _ _ Ey) as Hi. rewrite <- Hy in Hi.
  rewrite <- Hy in Ez. rewrite Ez in HZ. cbn [fst] in HZ.
  rewrite Ey in Hcs. cbn [reflect.CanSet] in Hcs.
  set (me1 := setWriteValue me (reflect.Val (reflect.zero T) addr ro)) in *.
  assert (HS : IsSlice me = false).
  { rewrite Hi. cbn [IsSlice describe]. apply bool_decide_eq_false_2. exact HnS. }
  assert (HK : bool_decide (Kind me = reflect.Slice) = false).
  { rewrite Hi. cbn [Kind describe]. apply bool_decide_eq_false_2. exact HnS. }
  assert (HA : toAssign coerce (To_fuel coerce (otsize (ElemType me) + isize (Some x)))
                 (Stat (Some x)) me1 (Some x)
               = match coerce T data with
                 | None => (me1, Fail (ErrCoerce (Some T) data))
                 | Some r =>
                     match reflect.SetV (reflect.Val (reflect.zero T) addr ro)
                             (reflect.Val r false false) with
                     | Some w => (setWriteValue me1 w, Done)
                     | None => (me1, Panicked ReflectPanic)
                     end
                 end).
  { unfold toAssign, reflectCall.
    rewrite (bool_decide_eq_false_2 _ (Stat_valid x)).
    rewrite bool_decide_eq_false_2 by discriminate. cbn [orb].
    change (Typ (Stat (Some x))) with (Some (chainEnd (reflect.typeof x))).
    change (Kind (Stat (Some x))) with (reflect.KindOf (chainEnd (reflect.typeof x))).
    change (Typ me1) with (Typ me). change (Kind me1) with (Kind me).
    change (IsSlice me1) with (IsSlice me).
    change (WriteValue me1) with (reflect.Val (reflect.zero T) addr ro).
    rewrite HT, HnA, HS. cbn [andb mbind option_bind]. rewrite Hr.
    rewrite bool_decide_eq_false_2 by exact HnD.
    cbn [reflect.TypeV]. rewrite typeof_zero.
    destruct (coerce T data) as [r|]; reflexivity. }
  assert (HTo : To coerce (Some me) (Some x)
                = (let '(me', o) :=
                     match coerce T data with
                     | None => (me1, Fail (ErrCoerce (Some T) data))
                     | Some r =>
                         match reflect.SetV (reflect.Val (reflect.zero T) addr ro)
                                 (reflect.Val r false false) with
                         | Some w => (setWriteValue me1 w, Done)
                         | None => (me1, Panicked ReflectPanic)
                         end
                     end in (Some me', o))).
  { unfold To.
    change (toBound me (Some x)) with (S (otsize (ElemType me) + isize (Some x))).
    rewrite To_fuel_S, Ez.
    destruct (original me) as [[a|]|rv];
      [rewrite HA; reflexivity | congruence | rewrite HA; reflexivity]. }
  split.
  - intros Hc. rewrite HTo, Hc. exists me1. split; [reflexivity|exact HZ].
  - intros r Hc Htr. rewrite HTo, Hc.
    unfold reflect.SetV. cbn [reflect.CanSet].
    rewrite Hcs, Htr, typeof_zero, AssignableTo_refl. cbn [andb].
    rewrite stored_same_type by exact Htr.
    eexists _, addr, ro. split; reflexivity.
Qed.

End CoercingBranch.

Lemma To_coerces_witness :
  Wrapper uint32Var /\ CanWrite uint32Var = true
  /\ Typ uint32Var = Some (reflect.Basic reflect.TUint32)
  /\ resolveData (reflect.VPtr stringT (Some (reflect.VString "42")))
     = Some (reflect.VString "42")
  /\ (exists me' addr ro,
        To (coerceWith noCoerce) (Some uint32Var)
          (Some (reflect.VPtr stringT (Some (reflect.VString "42"))))
        = (Some me', Done)
        /\ WriteValue me' = reflect.Val (reflect.VInt reflect.TUint32 42) addr ro).
Proof.
  split; [exact uint32Var_Wrapper|]. do 3 (split; [reflexivity|]).
  apply (proj2 (To_coerces (coerceWith noCoerce) uint32Var
                  (reflect.Basic reflect.TUint32)
                  (reflect.VPtr stringT (Some (reflect.VString "42")))
                  (reflect.VString "42")
                  uint32Var_Wrapper eq_refl eq_refl
                  ltac:(discriminate) ltac:(discriminate) eq_refl eq_refl)
           (reflect.VInt reflect.TUint32 42)); reflexivity.
Defined.

(** ** Filling by tag *)



Section FillByTagProperties.

Variable coerce : reflect.type -> reflect.value -> option reflect.value.




End FillByTagProperties.

